(** * The ShareDB storage adapter of the table back end

    A shallow embedding of [apps/nestjs-backend/src/share-db/sqlite.adapter.ts]
    (class [SqliteDbAdapter]) and the properties of its commit and
    snapshot paths.

    Conventions of the embedding.
    - An [async] method that ends by [callback(err)] or [callback(null, x)]
      is a function that returns [Err err] or [Ok x]; a method that writes
      through the Prisma client threads the database explicitly and
      returns the store as it is when the method returns or throws.
    - Database integers ([version]) and the version numbers of ShareDB
      are [Z].
    - Text is [string]; identifiers are ASCII, so [slice(0, 3)] is the
      first three characters.
    - A text column that holds JSON is kept as text: [JSON.stringify]
      and [JSON.parse] are a printer and a parser of JSON text, and
      the parser is proved to read back what the printer writes.
    - The constants of [@teable-group/core] ([IdPrefix], [AggregateKey]),
      its [OpBuilder.ops2Contexts], the field factory and the injected
      services are parameters of the development.  The services work on
      the document tables; ending the transaction, by commit or by
      rollback, is the work of [TransactionService] and lies outside.
    - The built-in prototypes are the ones the engine starts with.  An
      assignment that lands outside the type of the column (on an
      array, on a member the column inherits, on a column that is
      neither an object nor [null]) is left to the engine, which is a
      parameter as well. *)

From Stdlib Require Import String Ascii List ZArith Bool Arith Lia.
From Stdlib Require Import Permutation Sorted.
From Stdlib Require Import DecimalString.
From Stdlib Require DecimalFacts DecimalZ.
Import ListNotations.
Local Open Scope string_scope.
Local Open Scope list_scope.

Set Implicit Arguments.
Set Warnings "-register-all".

(** ** Errors and results *)

(** What a method can throw. [Error msg] is [new Error(msg)]; [TypeError]
    is the engine's error for a property access on [undefined] or [null]
    and for a strict-mode assignment to a property of a primitive;
    [SyntaxError] is raised by [JSON.parse]; [NotFoundError] by Prisma's
    [findUniqueOrThrow] and [update]; [UniqueConstraintError] by Prisma's
    [create]; [ServiceError] is whatever an injected service throws. *)
Inductive error : Type :=
| Error (message : string)
| TypeError
| SyntaxError
| NotFoundError
| UniqueConstraintError
| ServiceError (message : string).

Inductive result (A : Type) : Type :=
| Ok (a : A)
| Err (e : error).

Arguments Ok {A} a.
Arguments Err {A} e.

Definition is_ok {A} (r : result A) : bool :=
  match r with Ok _ => true | Err _ => false end.

(** ** Text helpers *)

Definition dquote : ascii := "034"%char.

Definition ascii_code (c : ascii) : nat := nat_of_ascii c.

(** Template literals print an integer in decimal. *)
Definition Z_to_string (z : Z) : string := NilZero.string_of_int (Z.to_int z).

(** ** JSON values, [JSON.stringify] and [JSON.parse] *)

Module JSON.

Local Open Scope string_scope.

(** A JSON value as a plain data object.  A number keeps its literal
    (nothing here computes with a JSON number, so no floating point is
    involved); a string is its bytes; an object keeps its own properties
    in insertion order.  Inherited properties and the ascending order the
    engine gives to integer-like keys are not part of the model. *)
Inductive json : Type :=
| JNull
| JBool (b : bool)
| JNum (lit : string)
| JStr (s : string)
| JArr (items : list json)
| JObj (props : list (string * json)).

(** *** Objects: own properties *)

(** [o[k]] for an own property; [None] is [undefined]. *)
Fixpoint obj_get (props : list (string * json)) (k : string) : option json :=
  match props with
  | [] => None
  | (k', v) :: rest => if String.eqb k' k then Some v else obj_get rest k
  end.

(** [o[k] = v]: an existing property keeps its place, a new one goes
    last. *)
Fixpoint obj_set (props : list (string * json)) (k : string) (v : json)
  : list (string * json) :=
  match props with
  | [] => [(k, v)]
  | (k', v') :: rest =>
      if String.eqb k' k then (k', v) :: rest else (k', v') :: obj_set rest k v
  end.

Definition keys (props : list (string * json)) : list string := map fst props.

(** *** Number literals *)

Definition is_digit (c : ascii) : bool :=
  ((48 <=? ascii_code c) && (ascii_code c <=? 57))%nat.

Definition is_digit19 (c : ascii) : bool :=
  ((49 <=? ascii_code c) && (ascii_code c <=? 57))%nat.

Definition is_numchar (c : ascii) : bool :=
  is_digit c || Ascii.eqb c "-" || Ascii.eqb c "+" || Ascii.eqb c "."
  || Ascii.eqb c "e" || Ascii.eqb c "E".

Fixpoint drop_digits (s : string) : string :=
  match s with
  | String c r => if is_digit c then drop_digits r else s
  | EmptyString => s
  end.

Definition is_empty (s : string) : bool :=
  match s with EmptyString => true | _ => false end.

Definition valid_exp (s : string) : bool :=
  match s with
  | EmptyString => true
  | String c r =>
      if Ascii.eqb c "e" || Ascii.eqb c "E" then
        let r' := match r with
                  | String d r2 =>
                      if Ascii.eqb d "+" || Ascii.eqb d "-" then r2 else r
                  | EmptyString => r
                  end in
        match r' with
        | String d r3 => is_digit d && is_empty (drop_digits r3)
        | EmptyString => false
        end
      else false
  end.

Definition valid_frac (s : string) : bool :=
  match s with
  | String c r =>
      if Ascii.eqb c "." then
        match r with
        | String d r2 => is_digit d && valid_exp (drop_digits r2)
        | EmptyString => false
        end
      else valid_exp s
  | EmptyString => true
  end.

(** The grammar of a JSON number: an optional minus sign; then a zero,
    or a digit from 1 to 9 and any digits; then an optional point with
    one digit or more; then an optional exponent, which is [e] or [E],
    an optional sign and one digit or more. *)
Definition valid_number (s : string) : bool :=
  let s1 := match s with
            | String c r => if Ascii.eqb c "-" then r else s
            | EmptyString => s
            end in
  match s1 with
  | String c r =>
      if Ascii.eqb c "0" then valid_frac r
      else if is_digit19 c then valid_frac (drop_digits r)
      else false
  | EmptyString => false
  end.

(** The longest prefix made of characters that can occur in a number. *)
Fixpoint span_num (s : string) : string * string :=
  match s with
  | String c r =>
      if is_numchar c then let (n, rest) := span_num r in (String c n, rest)
      else (EmptyString, s)
  | EmptyString => (EmptyString, EmptyString)
  end.

(** *** Strings *)

Definition hex_digit (n : nat) : ascii :=
  match String.get n "0123456789abcdef" with
  | Some c => c
  | None => "0"%char
  end.

Definition hex_value (c : ascii) : option nat :=
  let n := ascii_code c in
  if ((48 <=? n) && (n <=? 57))%nat then Some (n - 48)
  else if ((97 <=? n) && (n <=? 102))%nat then Some (n - 87)
  else if ((65 <=? n) && (n <=? 70))%nat then Some (n - 55)
  else None.

(** [QuoteJSONString]: the two-character escapes, [\u00xx] for the other
    control characters, every other character as it is. *)
Definition escape_char (c : ascii) : string :=
  let n := ascii_code c in
  if Ascii.eqb c dquote then String "\" (String dquote EmptyString)
  else if Ascii.eqb c "\" then "\\"
  else if (n =? 8)%nat then "\b"
  else if (n =? 9)%nat then "\t"
  else if (n =? 10)%nat then "\n"
  else if (n =? 12)%nat then "\f"
  else if (n =? 13)%nat then "\r"
  else if (n <? 32)%nat then
    "\u00" ++ String (hex_digit (n / 16)) (String (hex_digit (n mod 16)) EmptyString)
  else String c EmptyString.

Fixpoint quote_body (s : string) : string :=
  match s with
  | EmptyString => EmptyString
  | String c r => escape_char c ++ quote_body r
  end.

Definition quote (s : string) : string :=
  String dquote (quote_body s ++ String dquote EmptyString).

(** The characters of a [\uXXXX] escape: text is kept as bytes, a code
    unit above 127 as its UTF-8 bytes. *)
Definition code_unit (n : nat) : string :=
  if (n <? 128)%nat then String (ascii_of_nat n) EmptyString
  else if (n <? 2048)%nat then
    String (ascii_of_nat (192 + n / 64))
      (String (ascii_of_nat (128 + n mod 64)) EmptyString)
  else
    String (ascii_of_nat (224 + n / 4096))
      (String (ascii_of_nat (128 + (n / 64) mod 64))
         (String (ascii_of_nat (128 + n mod 64)) EmptyString)).

Definition simple_escape (e : ascii) : option ascii :=
  if Ascii.eqb e dquote then Some dquote
  else if Ascii.eqb e "\" then Some "\"%char
  else if Ascii.eqb e "/" then Some "/"%char
  else if Ascii.eqb e "b" then Some (ascii_of_nat 8)
  else if Ascii.eqb e "f" then Some (ascii_of_nat 12)
  else if Ascii.eqb e "n" then Some (ascii_of_nat 10)
  else if Ascii.eqb e "r" then Some (ascii_of_nat 13)
  else if Ascii.eqb e "t" then Some (ascii_of_nat 9)
  else None.

Definition hex4 (a b c d : ascii) : option nat :=
  match hex_value a, hex_value b, hex_value c, hex_value d with
  | Some x, Some y, Some z, Some w => Some (((x * 16 + y) * 16 + z) * 16 + w)
  | _, _, _, _ => None
  end.

(** The text after an opening quote, up to the closing one. *)
Fixpoint parse_string_body (s : string) : option (string * string) :=
  match s with
  | EmptyString => None
  | String c r =>
      if Ascii.eqb c dquote then Some (EmptyString, r)
      else if Ascii.eqb c "\" then
        match r with
        | EmptyString => None
        | String e r1 =>
            if Ascii.eqb e "u" then
              match r1 with
              | String h1 (String h2 (String h3 (String h4 r2))) =>
                  match hex4 h1 h2 h3 h4 with
                  | Some n =>
                      match parse_string_body r2 with
                      | Some (t, rest) => Some (code_unit n ++ t, rest)
                      | None => None
                      end
                  | None => None
                  end
              | _ => None
              end
            else
              match simple_escape e with
              | Some x =>
                  match parse_string_body r1 with
                  | Some (t, rest) => Some (String x t, rest)
                  | None => None
                  end
              | None => None
              end
        end
      else if (ascii_code c <? 32)%nat then None
      else
        match parse_string_body r with
        | Some (t, rest) => Some (String c t, rest)
        | None => None
        end
  end.

(** *** [JSON.stringify] *)

Fixpoint stringify (j : json) : string :=
  match j with
  | JNull => "null"
  | JBool true => "true"
  | JBool false => "false"
  | JNum lit => lit
  | JStr s => quote s
  | JArr items => "[" ++ String.concat "," (map stringify items) ++ "]"
  | JObj props =>
      "{" ++ String.concat ","
               (map (fun kv => quote (fst kv) ++ ":" ++ stringify (snd kv)) props)
          ++ "}"
  end.

(** *** [JSON.parse] *)

Definition is_ws (c : ascii) : bool :=
  let n := ascii_code c in ((n =? 32) || (n =? 9) || (n =? 10) || (n =? 13))%nat.

Fixpoint skip_ws (s : string) : string :=
  match s with
  | String c r => if is_ws c then skip_ws r else s
  | EmptyString => s
  end.

(** [s] without its prefix [p], when it has it. *)
Fixpoint strip_prefix (p s : string) : option string :=
  match p with
  | EmptyString => Some s
  | String a p' =>
      match s with
      | String b s' => if Ascii.eqb a b then strip_prefix p' s' else None
      | EmptyString => None
      end
  end.

(** The three literal names, or else a number. *)
Definition parse_literal (s : string) : option (json * string) :=
  match strip_prefix "null" s with
  | Some r => Some (JNull, r)
  | None =>
      match strip_prefix "true" s with
      | Some r => Some (JBool true, r)
      | None =>
          match strip_prefix "false" s with
          | Some r => Some (JBool false, r)
          | None =>
              let (n, rest) := span_num s in
              if valid_number n then Some (JNum n, rest) else None
          end
      end
  end.

(** Recursive descent.  Every call takes one unit of [fuel]; a text of
    [n] characters never needs more than [n] of them
    ([JSONFuel.parse_complete]). *)
Fixpoint parse_value (fuel : nat) (s : string) : option (json * string) :=
  match fuel with
  | O => None
  | S fuel' =>
      match skip_ws s with
      | EmptyString => None
      | String c r =>
          if Ascii.eqb c "[" then
            match skip_ws r with
            | String c' r' =>
                if Ascii.eqb c' "]" then Some (JArr [], r')
                else parse_elements fuel' r []
            | EmptyString => None
            end
          else if Ascii.eqb c "{" then
            match skip_ws r with
            | String c' r' =>
                if Ascii.eqb c' "}" then Some (JObj [], r')
                else parse_members fuel' r []
            | EmptyString => None
            end
          else if Ascii.eqb c dquote then
            match parse_string_body r with
            | Some (t, rest) => Some (JStr t, rest)
            | None => None
            end
          else parse_literal (String c r)
      end
  end

with parse_elements (fuel : nat) (s : string) (acc : list json)
  : option (json * string) :=
  match fuel with
  | O => None
  | S fuel' =>
      match parse_value fuel' s with
      | Some (v, r) =>
          match skip_ws r with
          | String c r' =>
              if Ascii.eqb c "," then parse_elements fuel' r' (acc ++ [v])%list
              else if Ascii.eqb c "]" then Some (JArr (acc ++ [v])%list, r')
              else None
          | EmptyString => None
          end
      | None => None
      end
  end

with parse_members (fuel : nat) (s : string) (acc : list (string * json))
  : option (json * string) :=
  match fuel with
  | O => None
  | S fuel' =>
      match skip_ws s with
      | String q r =>
          if Ascii.eqb q dquote then
            match parse_string_body r with
            | Some (k, r1) =>
                match skip_ws r1 with
                | String c r2 =>
                    if Ascii.eqb c ":" then
                      match parse_value fuel' r2 with
                      | Some (v, r3) =>
                          match skip_ws r3 with
                          | String d r4 =>
                              if Ascii.eqb d "," then
                                parse_members fuel' r4 (obj_set acc k v)
                              else if Ascii.eqb d "}" then
                                Some (JObj (obj_set acc k v), r4)
                              else None
                          | EmptyString => None
                          end
                      | None => None
                      end
                    else None
                | EmptyString => None
                end
            | None => None
            end
          else None
      | EmptyString => None
      end
  end.

(** [JSON.parse(text)]: one value, then nothing but white space. *)
Definition parse (text : string) : result json :=
  match parse_value (S (String.length text)) text with
  | Some (j, rest) => if is_empty (skip_ws rest) then Ok j else Err SyntaxError
  | None => Err SyntaxError
  end.

(** [JSON.parse] applied to a nullable column: [null] is first turned
    into the text [null]. *)
Definition parse_nullable (text : option string) : result json :=
  parse (match text with Some s => s | None => "null" end).

(** *** Well-formed values *)

(** The values [JSON.parse] can return and [JSON.stringify] prints back:
    every number is a literal of the grammar and no object has two
    properties of one name. *)
Fixpoint wf (j : json) : Prop :=
  match j with
  | JNull | JBool _ | JStr _ => True
  | JNum lit => valid_number lit = true
  | JArr items =>
      (fix all (l : list json) : Prop :=
         match l with
         | [] => True
         | x :: rest => wf x /\ all rest
         end) items
  | JObj props =>
      NoDup (keys props) /\
      (fix all (l : list (string * json)) : Prop :=
         match l with
         | [] => True
         | kv :: rest => wf (snd kv) /\ all rest
         end) props
  end.

(** The fuel [parse_value] needs for the text of a value. *)
Fixpoint size (j : json) : nat :=
  match j with
  | JNull | JBool _ | JNum _ | JStr _ => 1
  | JArr items =>
      S ((fix sum (l : list json) : nat :=
            match l with
            | [] => 0
            | x :: rest => S (size x + sum rest)
            end) items)
  | JObj props =>
      S ((fix sum (l : list (string * json)) : nat :=
            match l with
            | [] => 0
            | kv :: rest => S (size (snd kv) + sum rest)
            end) props)
  end.


(** *** Predicates of the statements about the codec *)

Fixpoint all_numchars (s : string) : bool :=
  match s with
  | EmptyString => true
  | String c r => is_numchar c && all_numchars r
  end.

(** What may follow a value in a text: nothing, or a character that no
    number contains. *)
Definition delimited (rest : string) : Prop :=
  match rest with
  | EmptyString => True
  | String c _ => is_numchar c = false
  end.

Definition sizes (l : list json) : nat :=
  fold_right (fun x n => S (size x + n)) 0 l.

Definition member_sizes (l : list (string * json)) : nat :=
  fold_right (fun kv n => S (size (snd kv) + n)) 0 l.

Definition member_text (kv : string * json) : string :=
  quote (fst kv) ++ ":" ++ stringify (snd kv).

(** The first character of a text: not white space and not a closing
    bracket. *)
Definition opens (t : string) : Prop :=
  exists c r, t = String c r /\ is_ws c = false
              /\ Ascii.eqb c "]" = false /\ Ascii.eqb c "}" = false.

(** [parse_value] reads back the text of [j] when something that ends a
    value follows it and the fuel covers the size of [j]. *)
Definition reads_back (j : json) : Prop :=
  wf j ->
  forall fuel rest, size j <= fuel -> delimited rest ->
  parse_value fuel (stringify j ++ rest) = Some (j, rest).

End JSON.

Import JSON.

(** ** The data of the adapter *)

(** A row of the operation log, [prisma.ops]. *)
Module OpsRow.
Record t : Type := mk {
  collection : string;
  docId : string;
  version : Z;
  operation : string
}.
End OpsRow.

(** A row of [prisma.field].  [columnMeta] is a text column that holds
    JSON; [attrs] stands for the columns the adapter never names. *)
Module FieldRow.
Record t : Type := mk {
  id : string;
  tableId : string;
  name : string;
  version : Z;
  columnMeta : string;
  attrs : list (string * json)
}.
End FieldRow.

(** A row of [prisma.view].  The four configuration columns are nullable
    text columns that hold JSON. *)
Module ViewRow.
Record t : Type := mk {
  id : string;
  tableId : string;
  name : string;
  type : string;
  description : option string;
  filter : option string;
  sort : option string;
  group : option string;
  options : option string;
  order : json;
  version : Z
}.
End ViewRow.

(** The view of a view snapshot: the columns of the row ([...view]) with
    six of them replaced. *)
Module ViewVo.
Record t : Type := mk {
  row : ViewRow.t;
  type : string;
  description : option string;
  filter : json;
  sort : json;
  group : json;
  options : json
}.
End ViewVo.

(** The payload of a snapshot, by family. *)
Inductive SnapshotData : Type :=
| RecordData (record : json)
| FieldData (field : json) (columnMeta : json)
| ViewData (view : ViewVo.t) (order : json)
| AggregateData (result : Z).

(** [ISnapshotBase]: what the per-family readers return. *)
Module ISnapshotBase.
Record t : Type := mk {
  id : string;
  v : Z;
  type : string;
  data : SnapshotData
}.
End ISnapshotBase.

(** [class Snapshot]: [type] may be [null], [data] may be [undefined],
    [m] is always [null]. *)
Module Snapshot.
Record t : Type := mk {
  id : string;
  v : Z;
  type : option string;
  data : option SnapshotData;
  m : option json
}.
End Snapshot.

(** [ICollectionSnapshot], the snapshot ShareDB hands to [commit]. *)
Module ICollectionSnapshot.
Record t : Type := mk {
  type : string;
  v : Z;
  data : json
}.
End ICollectionSnapshot.

(** ShareDB's [CreateOp | DeleteOp | EditOp]: the three optional members
    tell the kinds apart. *)
Module RawOp.
Record t : Type := mk {
  src : string;
  seq : Z;
  v : Z;
  create : option (json * json);   (* { type, data } *)
  del : option bool;
  op : option (list json);
  m : json
}.

Definition optional (k : string) (v : option json) : list (string * json) :=
  match v with Some x => [(k, x)] | None => [] end.

(** The plain object that [JSON.stringify(rawOp)] prints; a member that
    is [undefined] is left out. *)
Definition to_json (o : t) : json :=
  JObj ([("src", JStr (src o)); ("seq", JNum (Z_to_string (seq o)));
         ("v", JNum (Z_to_string (v o)))]
        ++ optional "create"
             (option_map (fun c => JObj [("type", fst c); ("data", snd c)])
                (create o))
        ++ optional "del" (option_map JBool (del o))
        ++ optional "op" (option_map JArr (op o))
        ++ [("m", m o)]).
End RawOp.

(** [IProjection]: an object from field keys to booleans. *)
Definition IProjection : Type := list (string * bool).

Fixpoint projection_get (p : IProjection) (k : string) : option bool :=
  match p with
  | [] => None
  | (k', b) :: rest => if String.eqb k' k then Some b else projection_get rest k
  end.

(** The names of the mutation contexts, [OpName]. *)
Inductive OpName : Type :=
| SetRecordOrder
| SetRecord
| SetColumnMeta
| AddColumnMeta
| SetFieldName
| OtherOp (name : string).

Definition OpName_eqb (a b : OpName) : bool :=
  match a, b with
  | SetRecordOrder, SetRecordOrder => true
  | SetRecord, SetRecord => true
  | SetColumnMeta, SetColumnMeta => true
  | AddColumnMeta, AddColumnMeta => true
  | SetFieldName, SetFieldName => true
  | OtherOp x, OtherOp y => String.eqb x y
  | _, _ => false
  end.

(** The contexts [OpBuilder.ops2Contexts] produces, with the members the
    adapter reads. *)
Module ISetRecordOrderOpContext.
Record t : Type := mk { viewId : string; newOrder : json }.
End ISetRecordOrderOpContext.

Module ISetColumnMetaOpContext.
Record t : Type := mk { metaKey : string; viewId : string; newMetaValue : json }.
End ISetColumnMetaOpContext.

Module IAddColumnMetaOpContext.
Record t : Type := mk { viewId : string; newMetaValue : list (string * json) }.
End IAddColumnMetaOpContext.

Module ISetFieldNameOpContext.
Record t : Type := mk { newName : string }.
End ISetFieldNameOpContext.

Inductive OpContext : Type :=
| CtxSetRecordOrder (c : ISetRecordOrderOpContext.t)
| CtxSetRecord (c : json)
| CtxSetColumnMeta (c : ISetColumnMetaOpContext.t)
| CtxAddColumnMeta (c : IAddColumnMetaOpContext.t)
| CtxSetFieldName (c : ISetFieldNameOpContext.t)
| CtxOther (name : string).

Definition context_name (c : OpContext) : OpName :=
  match c with
  | CtxSetRecordOrder _ => SetRecordOrder
  | CtxSetRecord _ => SetRecord
  | CtxSetColumnMeta _ => SetColumnMeta
  | CtxAddColumnMeta _ => AddColumnMeta
  | CtxSetFieldName _ => SetFieldName
  | CtxOther n => OtherOp n
  end.

(** The casts [opContexts as I...OpContext[]] of [updateSnapshot]. *)
Definition as_SetRecordOrder (c : OpContext) :=
  match c with CtxSetRecordOrder x => Some x | _ => None end.
Definition as_SetRecord (c : OpContext) :=
  match c with CtxSetRecord x => Some x | _ => None end.
Definition as_SetColumnMeta (c : OpContext) :=
  match c with CtxSetColumnMeta x => Some x | _ => None end.
Definition as_AddColumnMeta (c : OpContext) :=
  match c with CtxAddColumnMeta x => Some x | _ => None end.
Definition as_SetFieldName (c : OpContext) :=
  match c with CtxSetFieldName x => Some x | _ => None end.

Fixpoint filter_map {A B} (f : A -> option B) (l : list A) : list B :=
  match l with
  | [] => []
  | x :: rest =>
      match f x with
      | Some y => y :: filter_map f rest
      | None => filter_map f rest
      end
  end.

(** ** Library functions *)

(** [s.slice(0, 3)]. *)
Definition slice3 (s : string) : string := String.substring 0 3 s.

(** [ids.indexOf(id)]: the first position, [-1] when there is none. *)
Fixpoint indexOf (ids : list string) (id : string) : Z :=
  match ids with
  | [] => (-1)%Z
  | x :: rest =>
      if String.eqb x id then 0%Z
      else let i := indexOf rest id in
           if (i <? 0)%Z then (-1)%Z else (i + 1)%Z
  end.

(** [id.split(sep)] for a one-character separator. *)
Fixpoint split (sep : ascii) (s : string) : list string :=
  match s with
  | EmptyString => [EmptyString]
  | String c r =>
      if Ascii.eqb c sep then EmptyString :: split sep r
      else match split sep r with
           | seg :: segs => String c seg :: segs
           | [] => [String c EmptyString]
           end
  end.

(** [Array.prototype.sort] with the comparator [key(a) - key(b)]: the
    stable sort by [key], where elements of one key keep their order. *)
Section Sort.
Variable A : Type.
Variable key : A -> Z.

Fixpoint insert_sorted (x : A) (l : list A) : list A :=
  match l with
  | [] => [x]
  | y :: rest =>
      if (key x <=? key y)%Z then x :: l else y :: insert_sorted x rest
  end.

Fixpoint sort_by (l : list A) : list A :=
  match l with
  | [] => []
  | x :: rest => insert_sorted x (sort_by rest)
  end.
End Sort.

(** [groupBy(contexts, 'name')] of lodash: one group per name, in the
    order of the first context of each name; a group keeps the order of
    its contexts. *)
Fixpoint add_to_group (c : OpContext) (groups : list (OpName * list OpContext))
  : list (OpName * list OpContext) :=
  match groups with
  | [] => [(context_name c, [c])]
  | (n, cs) :: rest =>
      if OpName_eqb n (context_name c) then (n, cs ++ [c]) :: rest
      else (n, cs) :: add_to_group c rest
  end.

Definition groupBy (contexts : list OpContext) : list (OpName * list OpContext) :=
  fold_left (fun groups c => add_to_group c groups) contexts [].

(** ** The store and the effects *)

(** The document tables: the two the adapter reads and writes itself
    and [ext], the tables only the injected services touch. *)
Record Docs (Ext : Type) : Type := mkDocs {
  field : list FieldRow.t;
  view : list ViewRow.t;
  ext : Ext
}.

(** The database behind the transaction client: the operation log and
    the document tables. *)
Record Db (Ext : Type) : Type := mkDb {
  ops : list OpsRow.t;
  docs : Docs Ext
}.

(** A computation that reads and writes a store [S] and may throw; the
    store it returns is the store at the return or at the throw. *)
Definition M (S A : Type) : Type := S -> result A * S.

Definition ret {S A} (a : A) : M S A := fun s => (Ok a, s).

Definition throw {S A} (e : error) : M S A := fun s => (Err e, s).

Definition bind {S A B} (c : M S A) (k : A -> M S B) : M S B :=
  fun s =>
    match c s with
    | (Ok a, s') => k a s'
    | (Err e, s') => (Err e, s')
    end.

Definition lift {S A} (r : result A) : M S A := fun s => (r, s).

Definition gets {S A} (f : S -> A) : M S A := fun s => (Ok (f s), s).

Notation "x <- c ;; k" := (bind c (fun x => k))
  (at level 61, c at next level, right associativity).
Notation "c ;;; k" := (bind c (fun _ => k))
  (at level 61, right associativity).

(** [for (const x of xs) { await body(x) }]. *)
Fixpoint for_each {S A} (xs : list A) (body : A -> M S unit) : M S unit :=
  match xs with
  | [] => ret tt
  | x :: rest => body x ;;; for_each rest body
  end.

(** A computation on the document tables, run on the database. *)
Definition on_docs {Ext A} (c : M (Docs Ext) A) : M (Db Ext) A :=
  fun db =>
    let (r, d) := c (docs db) in (r, mkDb (ops db) d).

(** [xs.map(f)] for an [f] that may throw: the first throw wins. *)
Fixpoint map_result {A B} (f : A -> result B) (xs : list A) : result (list B) :=
  match xs with
  | [] => Ok []
  | x :: rest =>
      match f x with
      | Err e => Err e
      | Ok y =>
          match map_result f rest with
          | Err e => Err e
          | Ok ys => Ok (y :: ys)
          end
      end
  end.

(** ** What the adapter takes from outside *)

(** The constants and functions of [@teable-group/core] and of the field
    model.  [createFieldInstanceByRaw] stands for the instance followed
    by [instanceToPlain]. *)
Class CoreLib : Type := {
  IdPrefix_Table : string;
  IdPrefix_Record : string;
  IdPrefix_Field : string;
  IdPrefix_View : string;
  IdPrefix_Aggregate : string;
  AggregateKey_RowCount : string;
  AggregateKey_Average : string;
  ops2Contexts : list json -> result (list OpContext);
  createFieldInstanceByRaw : FieldRow.t -> result json
}.

(** The injected services.  They work on the document tables through the
    transaction client; none of them is given the operation log. *)
Class Services (Ext : Type) : Type := {
  tableService_addTable : json -> M (Docs Ext) unit;
  recordService_addRecord : string -> string -> M (Docs Ext) unit;
  fieldService_addField : string -> json -> M (Docs Ext) unit;
  viewService_addView : string -> json -> M (Docs Ext) unit;
  recordService_getDbTableName : string -> M (Docs Ext) string;
  recordService_setRecordOrder :
    Z -> string -> string -> string -> json -> M (Docs Ext) unit;
  recordService_setRecord :
    Z -> string -> string -> list json -> M (Docs Ext) unit;
  recordService_getRecordSnapshotBulk :
    Docs Ext -> string -> list string -> option IProjection ->
    result (list ISnapshotBase.t);
  recordService_getRowCount :
    Docs Ext -> string -> option string -> result Z
}.

(** ** The Prisma client *)

(** [prisma.ops.aggregate({ _max: { version: true }, where })]: [None] is
    the [null] of an empty selection. *)
Fixpoint ops_max_version (collection id : string) (log : list OpsRow.t)
  : option Z :=
  match log with
  | [] => None
  | row :: rest =>
      if String.eqb (OpsRow.collection row) collection
         && String.eqb (OpsRow.docId row) id
      then match ops_max_version collection id rest with
           | Some m => Some (Z.max (OpsRow.version row) m)
           | None => Some (OpsRow.version row)
           end
      else ops_max_version collection id rest
  end.

Definition same_log_key (a b : OpsRow.t) : bool :=
  String.eqb (OpsRow.collection a) (OpsRow.collection b)
  && String.eqb (OpsRow.docId a) (OpsRow.docId b)
  && (OpsRow.version a =? OpsRow.version b)%Z.

(** Modelled from the spec: [prisma.ops.create] on a log whose persisted
    layout has a unique constraint on (collection, document, version);
    the schema file is not among the sources.  The new row goes last. *)
Definition prisma_ops_create {Ext} (row : OpsRow.t) : M (Db Ext) unit :=
  fun db =>
    if existsb (same_log_key row) (ops db)
    then (Err UniqueConstraintError, db)
    else (Ok tt, mkDb (ops db ++ [row]) (docs db)).

Fixpoint find_field (id : string) (rows : list FieldRow.t) : option FieldRow.t :=
  match rows with
  | [] => None
  | r :: rest => if String.eqb (FieldRow.id r) id then Some r else find_field id rest
  end.

Fixpoint update_field (id : string) (f : FieldRow.t -> FieldRow.t)
  (rows : list FieldRow.t) : option (list FieldRow.t) :=
  match rows with
  | [] => None
  | r :: rest =>
      if String.eqb (FieldRow.id r) id then Some (f r :: rest)
      else option_map (cons r) (update_field id f rest)
  end.

(** [prisma.field.findUniqueOrThrow({ where: { id } })]. *)
Definition prisma_field_findUniqueOrThrow {Ext} (id : string)
  : M (Docs Ext) FieldRow.t :=
  fun d =>
    match find_field id (field d) with
    | Some r => (Ok r, d)
    | None => (Err NotFoundError, d)
    end.

(** [prisma.field.update({ where: { id }, data })]; it throws when no row
    has the id. *)
Definition prisma_field_update {Ext} (id : string) (f : FieldRow.t -> FieldRow.t)
  : M (Docs Ext) unit :=
  fun d =>
    match update_field id f (field d) with
    | Some rows => (Ok tt, mkDocs rows (view d) (ext d))
    | None => (Err NotFoundError, d)
    end.

(** [prisma.field.findMany({ where: { tableId, id: { in: ids } } })]: the
    matching rows in the order the storage holds them. *)
Definition prisma_field_findMany (tableId : string) (ids : list string)
  (rows : list FieldRow.t) : list FieldRow.t :=
  filter (fun r => String.eqb (FieldRow.tableId r) tableId
                   && existsb (String.eqb (FieldRow.id r)) ids) rows.

Definition prisma_view_findMany (tableId : string) (ids : list string)
  (rows : list ViewRow.t) : list ViewRow.t :=
  filter (fun r => String.eqb (ViewRow.tableId r) tableId
                   && existsb (String.eqb (ViewRow.id r)) ids) rows.

Definition set_columnMeta_version (text : string) (version : Z) (r : FieldRow.t)
  : FieldRow.t :=
  FieldRow.mk (FieldRow.id r) (FieldRow.tableId r) (FieldRow.name r)
    version text (FieldRow.attrs r).

Definition set_name_version (name : string) (version : Z) (r : FieldRow.t)
  : FieldRow.t :=
  FieldRow.mk (FieldRow.id r) (FieldRow.tableId r) name
    version (FieldRow.columnMeta r) (FieldRow.attrs r).

(** The names every object inherits from [Object.prototype].  Reading
    one of them from an object that has no property of its own under
    the name gives the inherited member and not [undefined]. *)
Definition inherited_key (k : string) : bool :=
  existsb (String.eqb k)
    ["constructor"; "hasOwnProperty"; "isPrototypeOf";
     "propertyIsEnumerable"; "toLocaleString"; "toString"; "valueOf";
     "__proto__"; "__defineGetter__"; "__defineSetter__";
     "__lookupGetter__"; "__lookupSetter__"].

Definition has_key (props : list (string * json)) (k : string) : bool :=
  match obj_get props k with
  | Some _ => true
  | None => false
  end.

(** [o[k] = v] on an object [o] that [JSON.parse] built.  A property of
    its own is overwritten, and a name it has not becomes a new
    property, [__proto__] apart: unless [o] has a property of its own
    under that name, [__proto__] is the accessor of [Object.prototype],
    whose setter changes the prototype of [o], or nothing, and gives
    [o] no property. *)
Definition assign_property (props : list (string * json)) (k : string)
  (v : json) : list (string * json) :=
  if String.eqb k "__proto__" && negb (has_key props k) then props
  else obj_set props k v.

(** What the engine does with [columnMeta[viewId][key] = value] where
    the development does not follow it: the outcome, a throw or the
    column as it is afterwards, is a function of the operands. *)
Class Engine : Type := {
  exotic_assign : json -> string -> string -> json -> result json
}.

(** [columnMeta[viewId][key] = value] on the parsed column, in strict
    mode.  The schema types the column as an object of objects.
    - Reading a property of [null] throws, and so does assigning to a
      property of [undefined] or [null]: a column that is [null], a
      view that is [null], and a view the column has not and does not
      inherit.
    - A view that is an object is assigned to as [assign_property]
      says.
    - A view that is a boolean, a number or a text is a primitive:
      creating a property on it throws, but [__proto__] finds the
      setter of [Object.prototype], which returns without doing
      anything for a receiver that is no object.
    - Everything else is the engine's: a view that is an array, a
      [viewId] the column inherits, a column that is an array or a
      primitive. *)
Definition assign_leaf {engine : Engine} (columnMeta : json)
  (viewId key : string) (value : json) : result json :=
  match columnMeta with
  | JNull => Err TypeError
  | JObj views =>
      match obj_get views viewId with
      | Some (JObj entry) =>
          Ok (JObj (obj_set views viewId
                      (JObj (assign_property entry key value))))
      | Some JNull => Err TypeError
      | Some (JBool _) | Some (JNum _) | Some (JStr _) =>
          if String.eqb key "__proto__" then Ok columnMeta else Err TypeError
      | Some (JArr _) => exotic_assign columnMeta viewId key value
      | None =>
          if inherited_key viewId
          then exotic_assign columnMeta viewId key value
          else Err TypeError
      end
  | _ => exotic_assign columnMeta viewId key value
  end.

(** The leaf [columnMeta[viewId][key]] of a parsed column. *)
Definition leaf (columnMeta : json) (viewId key : string) : option json :=
  match columnMeta with
  | JObj views =>
      match obj_get views viewId with
      | Some (JObj entry) => obj_get entry key
      | _ => None
      end
  | _ => None
  end.

(** The entry [columnMeta[viewId]] of a parsed column. *)
Definition entry_of (columnMeta : json) (viewId : string) : option json :=
  match columnMeta with
  | JObj views => obj_get views viewId
  | _ => None
  end.

(** ** The adapter *)

Section Adapter.

Context {Ext : Type} {core : CoreLib} {svc : Services Ext}
        {engine : Engine}.

(** [skipPoll]: [true] tells ShareDB that the op cannot affect the
    query.  An object and an array, even an empty one, are truthy. *)
Definition skipPoll (_collection _id : string) (op : RawOp.t) : bool :=
  if (match RawOp.create op with Some _ => true | None => false end)
     || (match RawOp.del op with Some b => b | None => false end)
  then false
  else negb (match RawOp.op op with Some _ => true | None => false end).

Definition setRecordOrder (version : Z) (recordId dbTableName : string)
  (contexts : list ISetRecordOrderOpContext.t) : M (Docs Ext) unit :=
  for_each contexts (fun context =>
    recordService_setRecordOrder version recordId dbTableName
      (ISetRecordOrderOpContext.viewId context)
      (ISetRecordOrderOpContext.newOrder context)).

Definition setRecords (version : Z) (recordId dbTableName : string)
  (contexts : list json) : M (Docs Ext) unit :=
  recordService_setRecord version recordId dbTableName contexts.

Definition addField (tableId : string) (snapshot : json) : M (Docs Ext) unit :=
  fieldService_addField tableId snapshot.

Definition addView (tableId : string) (snapshot : json) : M (Docs Ext) unit :=
  viewService_addView tableId snapshot.

Definition addRecord (tableId recordId : string) : M (Docs Ext) unit :=
  recordService_addRecord tableId recordId.

Definition addTable (snapshot : json) : M (Docs Ext) unit :=
  tableService_addTable snapshot.

Definition addColumnMeta (version : Z) (fieldId : string)
  (contexts : list IAddColumnMetaOpContext.t) : M (Docs Ext) unit :=
  for_each contexts (fun context =>
    let viewId := IAddColumnMetaOpContext.viewId context in
    let newMetaValue := IAddColumnMetaOpContext.newMetaValue context in
    fieldData <- prisma_field_findUniqueOrThrow fieldId ;;
    columnMeta <- lift (JSON.parse (FieldRow.columnMeta fieldData)) ;;
    columnMeta' <-
      lift (fold_left
              (fun acc kv =>
                 match acc with
                 | Ok cm => assign_leaf cm viewId (fst kv) (snd kv)
                 | Err e => Err e
                 end)
              newMetaValue (Ok columnMeta)) ;;
    prisma_field_update fieldId
      (set_columnMeta_version (JSON.stringify columnMeta') version)).

Definition setColumnMeta (version : Z) (fieldId : string)
  (contexts : list ISetColumnMetaOpContext.t) : M (Docs Ext) unit :=
  for_each contexts (fun context =>
    let metaKey := ISetColumnMetaOpContext.metaKey context in
    let viewId := ISetColumnMetaOpContext.viewId context in
    let newMetaValue := ISetColumnMetaOpContext.newMetaValue context in
    fieldData <- prisma_field_findUniqueOrThrow fieldId ;;
    columnMeta <- lift (JSON.parse (FieldRow.columnMeta fieldData)) ;;
    columnMeta' <- lift (assign_leaf columnMeta viewId metaKey newMetaValue) ;;
    prisma_field_update fieldId
      (set_columnMeta_version (JSON.stringify columnMeta') version)).

Definition setFieldName (version : Z) (fieldId : string)
  (contexts : list ISetFieldNameOpContext.t) : M (Docs Ext) unit :=
  for_each contexts (fun context =>
    prisma_field_update fieldId
      (set_name_version (ISetFieldNameOpContext.newName context) version)).

Definition updateSnapshot (version : Z) (collection docId : string)
  (ops : list json) : M (Docs Ext) unit :=
  dbTableName <- recordService_getDbTableName collection ;;
  ops2Contexts' <- lift (ops2Contexts ops) ;;
  let ops2ContextsGrouped := groupBy ops2Contexts' in
  for_each ops2ContextsGrouped (fun group =>
    let opName := fst group in
    let opContexts := snd group in
    match opName with
    | SetRecordOrder =>
        setRecordOrder version docId dbTableName
          (filter_map as_SetRecordOrder opContexts)
    | SetRecord =>
        setRecords version docId dbTableName
          (filter_map as_SetRecord opContexts)
    | SetColumnMeta =>
        setColumnMeta version docId (filter_map as_SetColumnMeta opContexts)
    | AddColumnMeta =>
        addColumnMeta version docId (filter_map as_AddColumnMeta opContexts)
    | SetFieldName =>
        setFieldName version docId (filter_map as_SetFieldName opContexts)
    | OtherOp name =>
        throw (Error ("op name " ++ name ++ " save method did not implement"))
    end).

(** The [switch] on [docId.slice(0, 3)]: the first matching [case]
    runs, the [default] does nothing. *)
Definition createSnapshot (collection docId : string) (snapshot : json)
  : M (Docs Ext) unit :=
  let docType := slice3 docId in
  if String.eqb docType IdPrefix_Table then addTable snapshot
  else if String.eqb docType IdPrefix_Record then addRecord collection docId
  else if String.eqb docType IdPrefix_Field then addField collection snapshot
  else if String.eqb docType IdPrefix_View then addView collection snapshot
  else ret tt.

(** [opsResult._max.version || 0]. *)
Definition or_zero (v : option Z) : Z :=
  match v with
  | Some x => if (x =? 0)%Z then 0%Z else x
  | None => 0%Z
  end.

Definition version_mismatch (maxVersion snapshotV : Z) : error :=
  Error ("version mismatch: maxVersion: " ++ Z_to_string maxVersion
         ++ " snapshotV: " ++ Z_to_string snapshotV).

Definition commit (collection id : string) (rawOp : RawOp.t)
  (snapshot : ICollectionSnapshot.t) : M (Db Ext) bool :=
  opsResult <- gets (fun db => ops_max_version collection id (ops db)) ;;
  let maxVersion := or_zero opsResult in
  if negb (ICollectionSnapshot.v snapshot =? maxVersion + 1)%Z then
    throw (version_mismatch maxVersion (ICollectionSnapshot.v snapshot))
  else
    prisma_ops_create
      (OpsRow.mk collection id (ICollectionSnapshot.v snapshot)
         (JSON.stringify (RawOp.to_json rawOp))) ;;;
    match RawOp.create rawOp with
    | Some c => on_docs (createSnapshot collection id (snd c))
    | None => ret tt
    end ;;;
    match RawOp.op rawOp with
    | Some o =>
        on_docs (updateSnapshot (ICollectionSnapshot.v snapshot) collection id o)
    | None => ret tt
    end ;;;
    ret true.

(** *** Reading snapshots *)

Definition getRecordSnapshotBulk (d : Docs Ext) (tableId : string)
  (recordIds : list string) (projection : option IProjection)
  : result (list ISnapshotBase.t) :=
  recordService_getRecordSnapshotBulk d tableId recordIds projection.

Definition field_snapshot (field : FieldRow.t) (instance : json)
  : result ISnapshotBase.t :=
  match JSON.parse (FieldRow.columnMeta field) with
  | Ok columnMeta =>
      Ok (ISnapshotBase.mk (FieldRow.id field) (FieldRow.version field)
            "json0" (FieldData instance columnMeta))
  | Err e => Err e
  end.

Definition getFieldSnapshotBulk (d : Docs Ext) (tableId : string)
  (fieldIds : list string) : result (list ISnapshotBase.t) :=
  let fields := prisma_field_findMany tableId fieldIds (field d) in
  match map_result createFieldInstanceByRaw fields with
  | Err e => Err e
  | Ok fieldInstances =>
      match map_result (fun fi => field_snapshot (fst fi) (snd fi))
              (combine fields fieldInstances) with
      | Err e => Err e
      | Ok snapshots =>
          Ok (sort_by (fun a => indexOf fieldIds (ISnapshotBase.id a)) snapshots)
      end
  end.

(** [view.description || undefined]. *)
Definition or_undefined (s : option string) : option string :=
  match s with
  | Some t => if String.eqb t EmptyString then None else Some t
  | None => None
  end.

Definition view_snapshot (view : ViewRow.t) : result ISnapshotBase.t :=
  match JSON.parse_nullable (ViewRow.filter view) with
  | Err e => Err e
  | Ok filter =>
  match JSON.parse_nullable (ViewRow.sort view) with
  | Err e => Err e
  | Ok sort =>
  match JSON.parse_nullable (ViewRow.group view) with
  | Err e => Err e
  | Ok group =>
  match JSON.parse_nullable (ViewRow.options view) with
  | Err e => Err e
  | Ok options =>
      Ok (ISnapshotBase.mk (ViewRow.id view) (ViewRow.version view) "json0"
            (ViewData
               (ViewVo.mk view (ViewRow.type view)
                  (or_undefined (ViewRow.description view))
                  filter sort group options)
               (ViewRow.order view)))
  end end end end.

Definition getViewSnapshotBulk (d : Docs Ext) (tableId : string)
  (viewIds : list string) : result (list ISnapshotBase.t) :=
  let views := prisma_view_findMany tableId viewIds (view d) in
  match map_result view_snapshot views with
  | Err e => Err e
  | Ok snapshots =>
      Ok (sort_by (fun a => indexOf viewIds (ISnapshotBase.id a)) snapshots)
  end.

Definition not_implemented (aggregateKey : string) : error :=
  Error ("aggregate " ++ aggregateKey ++ " not implemented").

(** One turn of the loop of [getAggregateBulk]:
    [const [aggregateKey, viewId] = id.split('_')] and the [switch]. *)
Definition aggregate_result (d : Docs Ext) (tableId id : string) : result Z :=
  let segments := split "_" id in
  let aggregateKey := nth 0 segments EmptyString in
  let viewId := nth_error segments 1 in
  if String.eqb aggregateKey AggregateKey_RowCount then
    recordService_getRowCount d tableId viewId
  else if String.eqb aggregateKey AggregateKey_Average then
    Err (not_implemented aggregateKey)
  else Err (not_implemented aggregateKey).

Definition getAggregateBulk (d : Docs Ext) (tableId : string)
  (rowCountIds : list string) : result (list ISnapshotBase.t) :=
  match map_result (aggregate_result d tableId) rowCountIds with
  | Err e => Err e
  | Ok aggregateResults =>
      Ok (map (fun ir => ISnapshotBase.mk (fst ir) 1 "json0" (AggregateData (snd ir)))
            (combine rowCountIds aggregateResults))
  end.

(** [projection && projection['$submit'] ? undefined : projection]. *)
Definition record_projection (projection : option IProjection)
  : option IProjection :=
  match projection with
  | Some p =>
      match projection_get p "$submit" with
      | Some true => None
      | _ => projection
      end
  | None => projection
  end.

Definition to_Snapshot (snapshot : ISnapshotBase.t) : Snapshot.t :=
  Snapshot.mk (ISnapshotBase.id snapshot) (ISnapshotBase.v snapshot)
    (Some (ISnapshotBase.type snapshot)) (Some (ISnapshotBase.data snapshot))
    None.

Definition placeholder (id : string) : Snapshot.t :=
  Snapshot.mk id 0 None None None.

(** [ids.find((id) => id.slice(0, 3) !== docType)], then its
    truthiness: the empty string is falsy. *)
Definition other_type_found (docType : string) (ids : list string) : bool :=
  match find (fun id => negb (String.eqb (slice3 id) docType)) ids with
  | Some id => negb (String.eqb id EmptyString)
  | None => false
  end.

(** The end of [getSnapshotBulk]: the snapshots that were read, or one
    placeholder per id when none was. *)
Definition to_snapshots (ids : list string) (snapshotData : list ISnapshotBase.t)
  : list Snapshot.t :=
  match snapshotData with
  | [] => map placeholder ids
  | _ :: _ => map to_Snapshot snapshotData
  end.

Definition getSnapshotBulk (db : Db Ext) (collection : string)
  (ids : list string) (projection : option IProjection)
  : result (list Snapshot.t) :=
  match ids with
  | [] => Err TypeError                       (* ids[0].slice of undefined *)
  | id0 :: _ =>
      let docType := slice3 id0 in
      if other_type_found docType ids then
        Err (Error "get snapshot bulk ids must be same type")
      else
        let snapshotData :=
          if String.eqb docType IdPrefix_Record then
            getRecordSnapshotBulk (docs db) collection ids
              (record_projection projection)
          else if String.eqb docType IdPrefix_Field then
            getFieldSnapshotBulk (docs db) collection ids
          else if String.eqb docType IdPrefix_View then
            getViewSnapshotBulk (docs db) collection ids
          else if String.eqb docType IdPrefix_Aggregate then
            getAggregateBulk (docs db) collection ids
          else Ok [] in
        match snapshotData with
        | Err e => Err e
        | Ok snapshotData => Ok (to_snapshots ids snapshotData)
        end
  end.

(** [getSnapshot]: the bulk read of [[id]], then [data![0]]; [None] is
    the [undefined] of an empty array. *)
Definition getSnapshot (db : Db Ext) (collection id : string)
  (projection : option IProjection) : result (option Snapshot.t) :=
  match getSnapshotBulk db collection [id] projection with
  | Err e => Err e
  | Ok data => Ok (nth_error data 0)
  end.

End Adapter.

(** ** An instance for the examples *)

(** Values of the kind the core package has for its constants, a field
    model that exposes the id and the name, and an operation builder
    that knows no operation. *)
Definition sample_core : CoreLib := {|
  IdPrefix_Table := "tbl";
  IdPrefix_Record := "rec";
  IdPrefix_Field := "fld";
  IdPrefix_View := "viw";
  IdPrefix_Aggregate := "agg";
  AggregateKey_RowCount := "aggRowCount";
  AggregateKey_Average := "aggAverage";
  ops2Contexts := fun _ => Ok [];
  createFieldInstanceByRaw := fun r =>
    Ok (JObj [("id", JStr (FieldRow.id r)); ("name", JStr (FieldRow.name r))])
|}.

(** Services over an empty rest of the database: the writers do nothing,
    no record exists and every view counts seven rows. *)
Definition sample_services : Services unit := {|
  tableService_addTable := fun _ => ret tt;
  recordService_addRecord := fun _ _ => ret tt;
  fieldService_addField := fun _ _ => ret tt;
  viewService_addView := fun _ _ => ret tt;
  recordService_getDbTableName := fun collection => ret collection;
  recordService_setRecordOrder := fun _ _ _ _ _ => ret tt;
  recordService_setRecord := fun _ _ _ _ => ret tt;
  recordService_getRecordSnapshotBulk := fun _ _ _ _ => Ok [];
  recordService_getRowCount := fun _ _ _ => Ok 7%Z
|}.

(** An engine for the examples, which stay inside the type of the
    column and never ask it. *)
Definition sample_engine : Engine := {|
  exotic_assign := fun columnMeta _ _ _ => Ok columnMeta
|}.

Definition sample_field (id : string) (columnMeta : string) : FieldRow.t :=
  FieldRow.mk id "tblA" "Name" 1 columnMeta [].

Definition sample_view (id : string) (filter : option string) : ViewRow.t :=
  ViewRow.mk id "tblA" "Grid" "grid" None filter None None None (JNum "1") 1.

Definition sample_db (fields : list FieldRow.t) (views : list ViewRow.t)
  (log : list OpsRow.t) : Db unit :=
  mkDb log (mkDocs fields views tt).

Definition sample_create_op : RawOp.t :=
  RawOp.mk "client" 1 0 (Some (JStr "json0", JObj [])) None None JNull.

Definition sample_delete_op : RawOp.t :=
  RawOp.mk "client" 2 1 None (Some true) None JNull.

Definition sample_edit_op : RawOp.t :=
  RawOp.mk "client" 3 1 None None (Some []) JNull.

(** ** Predicates of the statements *)

(** A computation on the database that leaves the operation log as it
    found it, whatever it returns. *)
Definition keeps_log {Ext A} (c : M (Db Ext) A) : Prop :=
  forall db, ops (snd (c db)) = ops db.

(** The bulk read of records as the service performs it with the
    projection [pr], delivered as [getSnapshotBulk] delivers it. *)
Definition record_read {Ext} {svc : Services Ext} (db : Db Ext)
  (collection : string) (ids : list string) (pr : option IProjection)
  : result (list Snapshot.t) :=
  match recordService_getRecordSnapshotBulk (docs db) collection ids pr with
  | Ok data => Ok (to_snapshots ids data)
  | Err e => Err e
  end.

(** [aggregateKey] and [viewId] of a synthetic aggregate id. *)
Definition aggregateKey_of (id : string) : string :=
  nth 0 (split "_" id) EmptyString.

Definition viewId_of (id : string) : option string :=
  nth_error (split "_" id) 1.

(** [l] is [big] with some elements left out, the others in their
    order. *)
Inductive sublist {A : Type} : list A -> list A -> Prop :=
| sublist_nil : sublist [] []
| sublist_cons x l big : sublist l big -> sublist (x :: l) (x :: big)
| sublist_skip x l big : sublist l big -> sublist l (x :: big).

(** Two databases that hold the same rows, the storage returning them
    in any two orders. *)
Definition same_documents {Ext} (db db' : Db Ext) : Prop :=
  Permutation (field (docs db)) (field (docs db'))
  /\ Permutation (view (docs db)) (view (docs db'))
  /\ ext (docs db) = ext (docs db').

(** The row of the table [tableId] that has the id [id], when the
    table has one. *)
Definition stored_row {R : Type} (tid rid : R -> string) (rows : list R)
  (tableId id : string) : option R :=
  find (fun r => String.eqb (tid r) tableId && String.eqb (rid r) id) rows.

Definition is_stored {R : Type} (tid rid : R -> string) (rows : list R)
  (tableId id : string) : bool :=
  match stored_row tid rid rows tableId id with
  | Some _ => true
  | None => false
  end.

(** The rows of the requested ids that the table has, in the order of
    the request. *)
Definition requested_rows {R : Type} (tid rid : R -> string) (rows : list R)
  (tableId : string) (ids : list string) : list R :=
  filter_map (stored_row tid rid rows tableId) ids.

Definition requested_fields {Ext} (db : Db Ext) (tableId : string)
  (ids : list string) : list FieldRow.t :=
  requested_rows FieldRow.tableId FieldRow.id (field (docs db)) tableId ids.

Definition requested_views {Ext} (db : Db Ext) (tableId : string)
  (ids : list string) : list ViewRow.t :=
  requested_rows ViewRow.tableId ViewRow.id (view (docs db)) tableId ids.

(** The snapshot of an aggregate id with its count. *)
Definition aggregate_snapshot (id : string) (count : Z) : ISnapshotBase.t :=
  ISnapshotBase.mk id 1 "json0" (AggregateData count).

(** The snapshot [getFieldSnapshotBulk] builds from one row. *)
Definition field_row_snapshot {core : CoreLib} (r : FieldRow.t)
  (s : ISnapshotBase.t) : Prop :=
  exists instance,
    createFieldInstanceByRaw r = Ok instance /\ field_snapshot r instance = Ok s.

(** A nullable JSON column decodes to [value]: it is absent and [value]
    is [null], or it holds the text of [value]. *)
Definition decodes (column : option string) (value : json) : Prop :=
  (column = None /\ value = JNull)
  \/ (wf value /\ column = Some (JSON.stringify value)).

(** One of the four configuration columns holds the empty string. *)
Definition has_empty_blob (row : ViewRow.t) : Prop :=
  ViewRow.filter row = Some EmptyString
  \/ ViewRow.sort row = Some EmptyString
  \/ ViewRow.group row = Some EmptyString
  \/ ViewRow.options row = Some EmptyString.

(** ** Data of the examples *)

Definition example_columnMeta : json :=
  JObj [("viw1", JObj [("width", JNum "100"); ("hidden", JBool false)]);
        ("viw2", JObj [("width", JNum "80")])].

(** Two fields, stored in the order B, A; a view with no configuration
    and a view whose filter is the empty string. *)
Definition example_db : Db unit :=
  sample_db
    [sample_field "fldB" (JSON.stringify example_columnMeta);
     sample_field "fldA" (JSON.stringify (JObj []))]
    [sample_view "viw1" None; sample_view "viw2" (Some EmptyString)]
    [].

Definition example_snapshot (v : Z) : ICollectionSnapshot.t :=
  ICollectionSnapshot.mk "json0" v (JObj []).

Definition example_field_snapshots : list Snapshot.t :=
  Eval cbv in
    match getSnapshotBulk (core:=sample_core) (svc:=sample_services)
            example_db "tblA" ["fldA"; "fldB"] None with
    | Ok snaps => snaps
    | Err _ => []
    end.

Definition example_field_data : list ISnapshotBase.t :=
  Eval cbv in
    match getFieldSnapshotBulk (core:=sample_core) (docs example_db) "tblA"
            ["fldA"; "fldB"] with
    | Ok data => data
    | Err _ => []
    end.

Definition example_submit_projection : IProjection :=
  [("fldA", true); ("$submit", true)].

(** ** Queries and the history of a document *)

(** [SnapshotQueryType]; a query arrives from a client, so its type may
    be none of the four. *)
Module SnapshotQueryType.
Inductive t : Type :=
| Field
| Record
| View
| Aggregate
| Other (name : string).
End SnapshotQueryType.

(** [ISnapshotQuery] with the members the adapter reads; [body] is what
    the services read. *)
Module ISnapshotQuery.
Record t : Type := mk {
  type : SnapshotQueryType.t;
  viewId : option string;
  aggregateKey : string;
  body : json
}.
End ISnapshotQuery.

(** The services that resolve a query into ids. *)
Class QueryServices (Ext : Type) : Type := {
  fieldService_getFieldIds :
    Docs Ext -> string -> ISnapshotQuery.t -> result (list string);
  recordService_getRecordIds :
    Docs Ext -> string -> ISnapshotQuery.t -> result (list string);
  viewService_getViewIds : Docs Ext -> string -> result (list string)
}.

(** [prisma.view.findFirstOrThrow({ where: { tableId } })]: the first
    view of the table in the order of the storage. *)
Definition prisma_view_findFirstOrThrow (tableId : string)
  (rows : list ViewRow.t) : result ViewRow.t :=
  match find (fun r => String.eqb (ViewRow.tableId r) tableId) rows with
  | Some r => Ok r
  | None => Err NotFoundError
  end.

(** The rows [getOps] selects:
    [collection = ? AND doc_id = ? AND version >= ? AND version < ?].
    A comparison with [NULL] is not true in SQL, so a [null] upper end
    selects no row. *)
Definition in_ops_range (collection id : string) (from : Z) (to : option Z)
  (row : OpsRow.t) : bool :=
  String.eqb (OpsRow.collection row) collection
  && String.eqb (OpsRow.docId row) id
  && (from <=? OpsRow.version row)%Z
  && match to with
     | Some t => (OpsRow.version row <? t)%Z
     | None => false
     end.

Section Queries.

Context {Ext : Type} {core : CoreLib} {svc : Services Ext}
        {qsvc : QueryServices Ext} {engine : Engine}.

(** [getAggregateIds]: the id of the aggregate of a view; [!viewId] is
    true of [undefined] and of the empty string. *)
Definition getAggregateIds (d : Docs Ext) (collection : string)
  (query : ISnapshotQuery.t) : result (list string) :=
  let resolved :=
    match ISnapshotQuery.viewId query with
    | Some v =>
        if String.eqb v EmptyString
        then match prisma_view_findFirstOrThrow collection (view d) with
             | Ok r => Ok (ViewRow.id r)
             | Err e => Err e
             end
        else Ok v
    | None =>
        match prisma_view_findFirstOrThrow collection (view d) with
        | Ok r => Ok (ViewRow.id r)
        | Err e => Err e
        end
    end in
  match resolved with
  | Ok viewId => Ok [(ISnapshotQuery.aggregateKey query ++ "_" ++ viewId)%string]
  | Err e => Err e
  end.

(** [queryPoll]: [None] when the callback is never called, which is the
    case of a query type that is none of the four. *)
Definition queryPoll (db : Db Ext) (collection : string)
  (query : ISnapshotQuery.t) : option (result (list string)) :=
  match ISnapshotQuery.type query with
  | SnapshotQueryType.Field =>
      Some (fieldService_getFieldIds (docs db) collection query)
  | SnapshotQueryType.Record =>
      Some (recordService_getRecordIds (docs db) collection query)
  | SnapshotQueryType.View =>
      Some (viewService_getViewIds (docs db) collection)
  | SnapshotQueryType.Aggregate =>
      Some (getAggregateIds (docs db) collection query)
  | SnapshotQueryType.Other _ => None
  end.

(** [query]: the ids of [queryPoll], then their snapshots. *)
Definition query (db : Db Ext) (collection : string)
  (q : ISnapshotQuery.t) (projection : option IProjection)
  : option (result (list Snapshot.t)) :=
  match queryPoll db collection q with
  | None => None
  | Some (Err e) => Some (Err e)
  | Some (Ok results) => Some (getSnapshotBulk db collection results projection)
  end.

(** [getOps]: the logged operations of a document from version [from]
    up to, and not including, version [to], parsed, in the order the
    storage returns the rows. *)
Definition getOps (db : Db Ext) (collection id : string) (from : Z)
  (to : option Z) : result (list json) :=
  map_result (fun row => JSON.parse (OpsRow.operation row))
    (filter (in_ops_range collection id from to) (ops db)).

End Queries.

Definition sample_query_services : QueryServices unit := {|
  fieldService_getFieldIds := fun d tableId _ =>
    Ok (map FieldRow.id
          (filter (fun r => String.eqb (FieldRow.tableId r) tableId) (field d)));
  recordService_getRecordIds := fun _ _ _ => Ok [];
  viewService_getViewIds := fun d tableId =>
    Ok (map ViewRow.id
          (filter (fun r => String.eqb (ViewRow.tableId r) tableId) (view d)))
|}.

(** ** Predicates of the further statements *)

(** The versions logged for a document, in the order of the log. *)
Definition doc_versions (collection id : string) (log : list OpsRow.t)
  : list Z :=
  map OpsRow.version
    (filter (fun row => String.eqb (OpsRow.collection row) collection
                        && String.eqb (OpsRow.docId row) id) log).

(** The versions [1], [2], ... [n]. *)
Definition versions_upto (n : nat) : list Z := map Z.of_nat (seq 1 n).

(** Every document of the log has the versions [1 .. n], in this order,
    for some [n]. *)
Definition gapless (log : list OpsRow.t) : Prop :=
  forall collection id,
    doc_versions collection id log
    = versions_upto (length (doc_versions collection id log)).

(** A text without the separator of aggregate ids. *)
Fixpoint no_underscore (s : string) : bool :=
  match s with
  | EmptyString => true
  | String c r => negb (Ascii.eqb c "_") && no_underscore r
  end.

(** The part of a text before its first underscore. *)
Fixpoint before_underscore (s : string) : string :=
  match s with
  | EmptyString => EmptyString
  | String c r => if Ascii.eqb c "_" then EmptyString
                  else String c (before_underscore r)
  end.

(** An op whose payloads are JSON values. *)
Definition RawOp_wf (o : RawOp.t) : Prop :=
  match RawOp.create o with
  | Some c => wf (fst c) /\ wf (snd c)
  | None => True
  end
  /\ match RawOp.op o with
     | Some items => Forall wf items
     | None => True
     end
  /\ wf (RawOp.m o).

(** The field table after the row of [fieldId] was replaced by [row']. *)
Definition with_row (fieldId : string) (row' : FieldRow.t)
  (rows : list FieldRow.t) : list FieldRow.t :=
  map (fun r => if String.eqb (FieldRow.id r) fieldId then row' else r) rows.

(** A boolean, a number or a text: a value with properties to read and
    none to create. *)
Definition is_primitive (j : json) : bool :=
  match j with
  | JBool _ | JNum _ | JStr _ => true
  | _ => false
  end.

(** The object [target] after [Object.entries(source)] was assigned to
    it, entry by entry. *)
Definition assign_entries (target source : list (string * json))
  : list (string * json) :=
  fold_left (fun acc kv => obj_set acc (fst kv) (snd kv)) source target.

(** ** Data for the further statements *)

(** An operation builder that reads a rename out of a descriptor with a
    text [newName] member and gives any other descriptor a name the
    adapter has no applier for. *)
Definition sample_context (descriptor : json) : OpContext :=
  match descriptor with
  | JObj props =>
      match obj_get props "newName" with
      | Some (JStr n) => CtxSetFieldName (ISetFieldNameOpContext.mk n)
      | _ => CtxOther "unknown"
      end
  | _ => CtxOther "unknown"
  end.

Definition renaming_core : CoreLib := {|
  IdPrefix_Table := "tbl";
  IdPrefix_Record := "rec";
  IdPrefix_Field := "fld";
  IdPrefix_View := "viw";
  IdPrefix_Aggregate := "agg";
  AggregateKey_RowCount := "aggRowCount";
  AggregateKey_Average := "aggAverage";
  ops2Contexts := fun descriptors => Ok (map sample_context descriptors);
  createFieldInstanceByRaw := fun r =>
    Ok (JObj [("id", JStr (FieldRow.id r)); ("name", JStr (FieldRow.name r))])
|}.

Definition sample_rename_op : RawOp.t :=
  RawOp.mk "client" 1 1 None None
    (Some [JObj [("newName", JStr "Title")]]) JNull.

Definition sample_unknown_op : RawOp.t :=
  RawOp.mk "client" 1 1 None None (Some [JNull]) JNull.

(** An op with no [create], no [del] and no [op] member. *)
Definition sample_noop : RawOp.t :=
  RawOp.mk "client" 1 1 None None None JNull.

(** The log of a field that was created and edited once. *)
Definition example_log : list OpsRow.t :=
  [OpsRow.mk "tblA" "fldA" 1 (JSON.stringify (RawOp.to_json sample_create_op));
   OpsRow.mk "tblA" "fldA" 2 (JSON.stringify (RawOp.to_json sample_edit_op))].

Definition example_logged_db : Db unit :=
  mkDb example_log (docs example_db).

(** A table with a field whose column meta was cut short. *)
Definition example_corrupt_db : Db unit :=
  sample_db [sample_field "fldA" "{}"; sample_field "fldC" "{"] [] [].

Definition example_row_count_query : ISnapshotQuery.t :=
  ISnapshotQuery.mk SnapshotQueryType.Aggregate (Some "viw1") "aggRowCount" JNull.

(** * Properties *)

(** ** Text *)

Lemma append_assoc (a b c : string) :
  ((a ++ b) ++ c = a ++ (b ++ c))%string.
Proof. induction a as [|x a IH]; simpl; [reflexivity | now rewrite IH]. Qed.

Lemma append_nil_r (a : string) : (a ++ EmptyString)%string = a.
Proof. induction a as [|x a IH]; simpl; [reflexivity | now rewrite IH]. Qed.

Lemma length_append (a b : string) :
  String.length (a ++ b)%string = String.length a + String.length b.
Proof. induction a as [|x a IH]; simpl; [reflexivity | now rewrite IH]. Qed.

(** ** [JSON.parse] after [JSON.stringify] *)

Module JSONFacts.

Local Open Scope string_scope.

Lemma json_ind' (P : json -> Prop) :
  P JNull -> (forall b, P (JBool b)) -> (forall lit, P (JNum lit)) ->
  (forall s, P (JStr s)) ->
  (forall items, Forall P items -> P (JArr items)) ->
  (forall props, Forall (fun kv => P (snd kv)) props -> P (JObj props)) ->
  forall j, P j.
Proof.
  intros Hnull Hbool Hnum Hstr Harr Hobj.
  fix IH 1. intros [ |b|lit|s|items|props].
  - exact Hnull.
  - apply Hbool.
  - apply Hnum.
  - apply Hstr.
  - apply Harr. induction items as [|x items IHitems]; constructor.
    + apply IH.
    + exact IHitems.
  - apply Hobj. induction props as [|kv props IHprops]; constructor.
    + apply IH.
    + exact IHprops.
Qed.

Lemma wf_JArr (items : list json) : wf (JArr items) <-> Forall wf items.
Proof.
  simpl. induction items as [|x items IH].
  - split; [constructor | trivial].
  - split.
    + intros [Hx Hrest]. constructor; [exact Hx | now apply IH].
    + intros H; inversion H; subst. split; [assumption | now apply IH].
Qed.

Lemma wf_JObj (props : list (string * json)) :
  wf (JObj props)
  <-> NoDup (keys props) /\ Forall (fun kv => wf (snd kv)) props.
Proof.
  simpl. apply and_iff_compat_l.
  induction props as [|kv props IH].
  - split; [constructor | trivial].
  - split.
    + intros [Hx Hrest]. constructor; [exact Hx | now apply IH].
    + intros H; inversion H; subst. split; [assumption | now apply IH].
Qed.

(** *** Strings *)

Lemma parse_escape_char (c : ascii) (t : string) :
  parse_string_body (escape_char c ++ t)
  = match parse_string_body t with
    | Some (u, rest) => Some (String c u, rest)
    | None => None
    end.
Proof.
  destruct c as [[] [] [] [] [] [] [] []]; reflexivity.
Qed.

Lemma parse_quote_body (s rest : string) :
  parse_string_body (quote_body s ++ String dquote rest) = Some (s, rest).
Proof.
  induction s as [|c s IH]; [reflexivity|].
  simpl quote_body. rewrite append_assoc, parse_escape_char, IH. reflexivity.
Qed.

Lemma quote_append (s rest : string) :
  quote s ++ rest = String dquote (quote_body s ++ String dquote rest).
Proof. unfold quote; simpl. now rewrite append_assoc. Qed.

(** *** Numbers *)

Lemma is_numchar_digit (c : ascii) : is_digit c = true -> is_numchar c = true.
Proof. unfold is_numchar; intros ->; reflexivity. Qed.

Lemma is_digit19_digit (c : ascii) : is_digit19 c = true -> is_digit c = true.
Proof.
  unfold is_digit19, is_digit. rewrite !andb_true_iff, !Nat.leb_le. lia.
Qed.

Lemma drop_digits_numchars (s : string) :
  all_numchars (drop_digits s) = true -> all_numchars s = true.
Proof.
  induction s as [|c s IH]; simpl; [trivial|].
  destruct (is_digit c) eqn:Hd; simpl; [|trivial].
  intros H. rewrite (is_numchar_digit _ Hd). now apply IH.
Qed.

Lemma is_empty_numchars (s : string) : is_empty s = true -> all_numchars s = true.
Proof. destruct s; [reflexivity | discriminate]. Qed.

Ltac eqb_char H := apply Ascii.eqb_eq in H; subst.

Lemma valid_exp_numchars (s : string) :
  valid_exp s = true -> all_numchars s = true.
Proof.
  destruct s as [|c r]; [reflexivity|]. unfold valid_exp.
  destruct (Ascii.eqb c "e" || Ascii.eqb c "E") eqn:He; [|discriminate].
  assert (Hc : is_numchar c = true).
  { apply orb_true_iff in He. destruct He as [He|He]; eqb_char He; reflexivity. }
  simpl all_numchars. rewrite Hc. simpl.
  assert (Htail : forall d r3, is_digit d && is_empty (drop_digits r3) = true ->
                    all_numchars (String d r3) = true).
  { intros d r3 H. apply andb_true_iff in H. destruct H as [Hd Hr].
    simpl. rewrite (is_numchar_digit _ Hd). simpl.
    apply drop_digits_numchars. now apply is_empty_numchars. }
  destruct r as [|d r2]; [discriminate|].
  destruct (Ascii.eqb d "+" || Ascii.eqb d "-") eqn:Hs.
  - assert (Hd : is_numchar d = true).
    { apply orb_true_iff in Hs. destruct Hs as [Hs|Hs]; eqb_char Hs; reflexivity. }
    destruct r2 as [|d2 r3]; [discriminate|].
    intros H. simpl all_numchars at 1. rewrite Hd. simpl. now apply Htail.
  - apply Htail.
Qed.

Lemma valid_frac_numchars (s : string) :
  valid_frac s = true -> all_numchars s = true.
Proof.
  destruct s as [|c r]; [reflexivity|]. unfold valid_frac.
  destruct (Ascii.eqb c ".") eqn:Hc; [|apply valid_exp_numchars].
  eqb_char Hc. destruct r as [|d r2]; [discriminate|].
  intros H. apply andb_true_iff in H. destruct H as [Hd Hr].
  simpl. rewrite (is_numchar_digit _ Hd). simpl.
  apply drop_digits_numchars. now apply valid_exp_numchars.
Qed.

Lemma valid_number_unsigned (c : ascii) (r : string) :
  (if Ascii.eqb c "0" then valid_frac r
   else if is_digit19 c then valid_frac (drop_digits r) else false) = true ->
  is_digit c = true /\ all_numchars (String c r) = true.
Proof.
  destruct (Ascii.eqb c "0") eqn:H0.
  - eqb_char H0. intros H. split; [reflexivity|].
    simpl. now apply valid_frac_numchars.
  - destruct (is_digit19 c) eqn:H19; [|discriminate].
    intros H. pose proof (is_digit19_digit _ H19) as Hd. split; [exact Hd|].
    simpl. rewrite (is_numchar_digit _ Hd). simpl.
    apply drop_digits_numchars. now apply valid_frac_numchars.
Qed.

(** A number literal starts with a digit or the minus sign and is made
    of characters of numbers. *)
Lemma valid_number_shape (lit : string) :
  valid_number lit = true ->
  all_numchars lit = true
  /\ exists c r, lit = String c r /\ (is_digit c || Ascii.eqb c "-") = true.
Proof.
  unfold valid_number. destruct lit as [|c r]; [discriminate|].
  destruct (Ascii.eqb c "-") eqn:Hm.
  - eqb_char Hm. destruct r as [|d r2]; [discriminate|].
    intros H. apply valid_number_unsigned in H. destruct H as [_ H].
    split; [simpl; simpl in H; exact H|]. now exists "-"%char, (String d r2).
  - intros H. apply valid_number_unsigned in H. destruct H as [Hd H].
    split; [exact H|]. exists c, r. now rewrite Hd.
Qed.

Lemma span_num_literal (lit rest : string) :
  all_numchars lit = true -> delimited rest ->
  span_num (lit ++ rest) = (lit, rest).
Proof.
  intros Hlit Hrest. induction lit as [|c lit IH]; simpl.
  - destruct rest as [|d rest]; [reflexivity|]. simpl in Hrest.
    simpl. now rewrite Hrest.
  - simpl in Hlit. apply andb_true_iff in Hlit. destruct Hlit as [Hc Hlit].
    rewrite Hc, (IH Hlit). reflexivity.
Qed.

Lemma parse_literal_number (c : ascii) (r : string) :
  (is_digit c || Ascii.eqb c "-") = true ->
  parse_literal (String c r)
  = let (n, rest) := span_num (String c r) in
    if valid_number n then Some (JNum n, rest) else None.
Proof.
  destruct c as [[] [] [] [] [] [] [] []]; intros H;
    try discriminate H; reflexivity.
Qed.

Lemma number_first_char (c : ascii) :
  (is_digit c || Ascii.eqb c "-") = true ->
  is_ws c = false /\ Ascii.eqb c "[" = false /\ Ascii.eqb c "{" = false
  /\ Ascii.eqb c dquote = false.
Proof.
  destruct c as [[] [] [] [] [] [] [] []]; intros H;
    try discriminate H; repeat split.
Qed.

End JSONFacts.

Module JSONRoundTrip.

Import JSONFacts.
Local Open Scope string_scope.

Lemma size_JArr (l : list json) : size (JArr l) = S (sizes l).
Proof. reflexivity. Qed.

Lemma size_JObj (l : list (string * json)) : size (JObj l) = S (member_sizes l).
Proof. reflexivity. Qed.

Lemma stringify_JArr (l : list json) :
  stringify (JArr l) = "[" ++ String.concat "," (map stringify l) ++ "]".
Proof. reflexivity. Qed.

Lemma stringify_JObj (l : list (string * json)) :
  stringify (JObj l) = "{" ++ String.concat "," (map member_text l) ++ "}".
Proof. reflexivity. Qed.

Lemma concat_cons2 (sep x y : string) (l : list string) :
  String.concat sep (x :: y :: l) = x ++ sep ++ String.concat sep (y :: l).
Proof. reflexivity. Qed.

Lemma opens_append (t u : string) : opens t -> opens (t ++ u).
Proof.
  intros [c [r [-> H]]]. exists c, (r ++ u). split; [reflexivity | exact H].
Qed.

Lemma opens_stringify (j : json) : wf j -> opens (stringify j).
Proof.
  destruct j as [ |[|]|lit|s|items|props]; intros Hwf;
    try (eexists _, _; split; [reflexivity | repeat split]).
  simpl in Hwf. apply valid_number_shape in Hwf.
  destruct Hwf as [_ [c [r [-> Hc]]]]. exists c, r. split; [reflexivity|].
  clear - Hc. destruct c as [[] [] [] [] [] [] [] []];
    try discriminate Hc; repeat split.
Qed.

Lemma opens_concat (x : json) (l : list json) :
  wf x -> opens (String.concat "," (map stringify (x :: l))).
Proof.
  intros Hx. destruct l as [|y l]; [now apply opens_stringify|].
  simpl map. rewrite concat_cons2. now apply opens_append, opens_stringify.
Qed.

Lemma opens_members (kv : string * json) (l : list (string * json)) :
  opens (String.concat "," (map member_text (kv :: l))).
Proof.
  assert (H : opens (member_text kv))
    by (eexists _, _; split; [reflexivity | repeat split]).
  destruct l as [|y l]; [exact H|].
  simpl map. rewrite concat_cons2. now apply opens_append.
Qed.

(** *** One step of the parser *)

Lemma skip_ws_head (c : ascii) (r : string) :
  is_ws c = false -> skip_ws (String c r) = String c r.
Proof. intros H. cbn [skip_ws]. now rewrite H. Qed.

Lemma parse_value_literal (fuel : nat) (c : ascii) (r : string) :
  is_ws c = false -> Ascii.eqb c "[" = false -> Ascii.eqb c "{" = false ->
  Ascii.eqb c dquote = false ->
  parse_value (S fuel) (String c r) = parse_literal (String c r).
Proof.
  intros Hws Ha Ho Hq. cbn [parse_value].
  rewrite (@skip_ws_head _ _ Hws). now rewrite Ha, Ho, Hq.
Qed.

Lemma parse_value_string (fuel : nat) (r : string) :
  parse_value (S fuel) (String dquote r)
  = match parse_string_body r with
    | Some (t, rest) => Some (JStr t, rest)
    | None => None
    end.
Proof. reflexivity. Qed.

Lemma parse_value_array (fuel : nat) (t : string) :
  opens t -> parse_value (S fuel) (String "[" t) = parse_elements fuel t [].
Proof.
  intros [c [r [-> [Hws [Hc _]]]]]. cbn [parse_value].
  rewrite (@skip_ws_head "[" _ eq_refl), Ascii.eqb_refl.
  now rewrite (@skip_ws_head _ _ Hws), Hc.
Qed.

Lemma parse_value_object (fuel : nat) (t : string) :
  opens t -> parse_value (S fuel) (String "{" t) = parse_members fuel t [].
Proof.
  intros [c [r [-> [Hws [_ Hc]]]]]. cbn [parse_value].
  rewrite (@skip_ws_head "{" _ eq_refl).
  replace (Ascii.eqb "{" "[") with false by reflexivity.
  rewrite Ascii.eqb_refl.
  now rewrite (@skip_ws_head _ _ Hws), Hc.
Qed.

Lemma parse_elements_step (fuel : nat) (s rest : string) (v : json)
  (acc : list json) :
  parse_value fuel s = Some (v, rest) ->
  parse_elements (S fuel) s acc
  = match skip_ws rest with
    | String c r' =>
        if Ascii.eqb c "," then parse_elements fuel r' (acc ++ [v])%list
        else if Ascii.eqb c "]" then Some (JArr (acc ++ [v])%list, r')
        else None
    | EmptyString => None
    end.
Proof. intros H. cbn [parse_elements]. now rewrite H. Qed.

Lemma parse_members_step (fuel : nat) (k r rest : string) (v : json)
  (acc : list (string * json)) :
  parse_value fuel r = Some (v, rest) ->
  parse_members (S fuel) (quote k ++ String ":" r) acc
  = match skip_ws rest with
    | String d r4 =>
        if Ascii.eqb d "," then parse_members fuel r4 (obj_set acc k v)
        else if Ascii.eqb d "}" then Some (JObj (obj_set acc k v), r4)
        else None
    | EmptyString => None
    end.
Proof.
  intros H. rewrite quote_append. cbn [parse_members].
  rewrite (@skip_ws_head dquote _ eq_refl), Ascii.eqb_refl.
  rewrite parse_quote_body.
  rewrite (@skip_ws_head ":" _ eq_refl), Ascii.eqb_refl.
  now rewrite H.
Qed.

Lemma obj_set_fresh (acc : list (string * json)) (k : string) (v : json) :
  ~ In k (keys acc) -> obj_set acc k v = (acc ++ [(k, v)])%list.
Proof.
  induction acc as [|[k' v'] acc IH]; simpl; [reflexivity|].
  intros Hnin. destruct (String.eqb_spec k' k) as [->|_]; [tauto|].
  rewrite IH; tauto.
Qed.

(** *** The round trip *)

Lemma parse_elements_stringify (l : list json) :
  Forall reads_back l -> Forall wf l -> l <> [] ->
  forall fuel rest acc, sizes l <= fuel ->
  parse_elements fuel (String.concat "," (map stringify l) ++ String "]" rest) acc
  = Some (JArr (acc ++ l)%list, rest).
Proof.
  induction 1 as [|x l Hx Hl IH]; intros Hwf Hne fuel rest acc Hfuel;
    [congruence|].
  inversion Hwf as [|? ? Hwx Hwl]; subst.
  destruct fuel as [|fuel]; [simpl in Hfuel; lia|].
  simpl in Hfuel.
  destruct l as [|y l].
  - simpl map. simpl String.concat.
    rewrite (@parse_elements_step fuel _ (String "]" rest) x acc).
    + reflexivity.
    + apply Hx; [exact Hwx | lia | reflexivity].
  - simpl map. rewrite concat_cons2, !append_assoc.
    rewrite (@parse_elements_step fuel _
               ("," ++ String.concat "," (stringify y :: map stringify l)
                    ++ String "]" rest) x acc).
    + cbn [append skip_ws]. 
      replace (is_ws ",") with false by reflexivity.
      rewrite Ascii.eqb_refl.
      change (stringify y :: map stringify l) with (map stringify (y :: l)).
      rewrite IH; [|exact Hwl|discriminate|simpl in *; lia].
      now rewrite <- app_assoc.
    + apply Hx; [exact Hwx | lia | reflexivity].
Qed.

Lemma parse_members_stringify (l : list (string * json)) :
  Forall (fun kv => reads_back (snd kv)) l ->
  Forall (fun kv => wf (snd kv)) l -> l <> [] ->
  forall fuel rest acc, member_sizes l <= fuel ->
  NoDup (keys (acc ++ l)%list) ->
  parse_members fuel (String.concat "," (map member_text l) ++ String "}" rest) acc
  = Some (JObj (acc ++ l)%list, rest).
Proof.
  induction 1 as [|[k v] l Hx Hl IH]; intros Hwf Hne fuel rest acc Hfuel Hnd;
    [congruence|].
  inversion Hwf as [|? ? Hwx Hwl]; subst. simpl in Hx, Hwx.
  destruct fuel as [|fuel]; [simpl in Hfuel; lia|].
  simpl in Hfuel.
  assert (Hfresh : obj_set acc k v = (acc ++ [(k, v)])%list).
  { apply obj_set_fresh. unfold keys in *. rewrite map_app in Hnd.
    simpl in Hnd. apply NoDup_remove_2 in Hnd.
    intros Hin; apply Hnd. apply in_or_app; now left. }
  destruct l as [|y l].
  - simpl map. simpl String.concat. unfold member_text at 1. simpl fst; simpl snd.
    rewrite !append_assoc. cbn [append].
    rewrite (@parse_members_step fuel k _ (String "}" rest) v acc).
    + cbn. now rewrite Hfresh.
    + apply Hx; [exact Hwx | lia | reflexivity].
  - simpl map. rewrite concat_cons2. unfold member_text at 1.
    simpl fst; simpl snd. rewrite !append_assoc. cbn [append].
    rewrite (@parse_members_step fuel k _
               ("," ++ String.concat "," (member_text y :: map member_text l)
                    ++ String "}" rest) v acc).
    + cbn [append skip_ws].
      replace (is_ws ",") with false by reflexivity.
      rewrite Ascii.eqb_refl.
      change (member_text y :: map member_text l) with (map member_text (y :: l)).
      rewrite Hfresh.
      rewrite IH; [|exact Hwl|discriminate|simpl in *; lia|].
      * now rewrite <- app_assoc.
      * now rewrite <- app_assoc.
    + apply Hx; [exact Hwx | lia | reflexivity].
Qed.

Lemma parse_value_stringify (j : json) : reads_back j.
Proof.
  induction j as [ |b|lit|s|items IH|props IH] using json_ind';
    intros Hwf fuel rest Hfuel Hrest;
    (destruct fuel as [|fuel]; [simpl in Hfuel; lia|]).
  - reflexivity.
  - destruct b; reflexivity.
  - simpl in Hwf. simpl stringify.
    destruct (@valid_number_shape _ Hwf) as [Hall [c [r [-> Hc]]]].
    destruct (@number_first_char _ Hc) as [Hws [Ha [Ho Hq]]].
    cbn [append]. rewrite (@parse_value_literal fuel c _ Hws Ha Ho Hq).
    rewrite (@parse_literal_number c _ Hc).
    change (String c (r ++ rest)) with (String c r ++ rest).
    rewrite (@span_num_literal _ _ Hall Hrest). now rewrite Hwf.
  - simpl stringify. rewrite quote_append, parse_value_string.
    now rewrite parse_quote_body.
  - apply wf_JArr in Hwf. rewrite size_JArr in Hfuel.
    destruct items as [|x items]; [reflexivity|].
    rewrite stringify_JArr. cbn [append]. rewrite append_assoc.
    rewrite parse_value_array.
    + cbn [append].
      rewrite parse_elements_stringify; try assumption;
        [reflexivity | discriminate | lia].
    + apply opens_append, opens_concat. now inversion Hwf.
  - apply wf_JObj in Hwf. destruct Hwf as [Hnd Hwf].
    rewrite size_JObj in Hfuel.
    destruct props as [|kv props]; [reflexivity|].
    rewrite stringify_JObj. cbn [append]. rewrite append_assoc.
    rewrite parse_value_object.
    + cbn [append].
      rewrite parse_members_stringify; try assumption;
        [reflexivity | discriminate | lia].
    + apply opens_append, opens_members.
Qed.

(** *** Enough fuel *)

Lemma length_concat_items (l : list json) :
  Forall (fun x => size x <= String.length (stringify x)) l ->
  sizes l <= String.length (String.concat "," (map stringify l)) + 1.
Proof.
  induction 1 as [|x l Hx Hl IH]; [simpl; lia|]. cbv beta in Hx.
  destruct l as [|y l].
  - simpl. lia.
  - simpl map. rewrite concat_cons2, !length_append.
    simpl map in IH. simpl sizes in *.
    change (String.length ",") with 1. lia.
Qed.

Lemma length_concat_members (l : list (string * json)) :
  Forall (fun kv => size (snd kv) <= String.length (stringify (snd kv))) l ->
  member_sizes l <= String.length (String.concat "," (map member_text l)) + 1.
Proof.
  assert (Hm : forall kv : string * json,
             String.length (stringify (snd kv)) <= String.length (member_text kv)).
  { intros kv. unfold member_text. rewrite !length_append. lia. }
  induction 1 as [|x l Hx Hl IH]; [simpl; lia|]. cbv beta in Hx.
  pose proof (Hm x).
  destruct l as [|y l].
  - cbn [map String.concat member_sizes fold_right]. lia.
  - simpl map. rewrite concat_cons2, !length_append.
    simpl map in IH. simpl member_sizes in *.
    change (String.length ",") with 1. lia.
Qed.

Lemma size_le_length (j : json) : wf j -> size j <= String.length (stringify j).
Proof.
  induction j as [ |b|lit|s|items IH|props IH] using json_ind'; intros Hwf.
  - simpl; lia.
  - destruct b; simpl; lia.
  - simpl in *. destruct (@valid_number_shape _ Hwf) as [_ [c [r [-> _]]]].
    simpl; lia.
  - simpl; lia.
  - apply wf_JArr in Hwf. rewrite size_JArr, stringify_JArr, !length_append.
    assert (H : Forall (fun x => size x <= String.length (stringify x)) items).
    { rewrite Forall_forall in *. intros x Hx. apply IH; auto. }
    apply length_concat_items in H. simpl String.length. lia.
  - apply wf_JObj in Hwf. destruct Hwf as [_ Hwf].
    rewrite size_JObj, stringify_JObj, !length_append.
    assert (H : Forall (fun kv => size (snd kv)
                                  <= String.length (stringify (snd kv))) props).
    { rewrite Forall_forall in *. intros x Hx. apply IH; auto. }
    apply length_concat_members in H. simpl String.length. lia.
Qed.

(** [JSON.parse(JSON.stringify(j))] is [j]. *)
Lemma parse_stringify (j : json) : wf j -> JSON.parse (stringify j) = Ok j.
Proof.
  intros Hwf. unfold JSON.parse.
  pose proof (size_le_length j Hwf) as Hsize.
  rewrite <- (append_nil_r (stringify j)) at 2.
  rewrite parse_value_stringify; [reflexivity | exact Hwf | lia | exact I].
Qed.

(** *** What the parser returns is well formed *)

Lemma obj_set_keys (acc : list (string * json)) (k : string) (v : json) :
  keys (obj_set acc k v)
  = if existsb (String.eqb k) (keys acc) then keys acc
    else (keys acc ++ [k])%list.
Proof.
  induction acc as [|[k' v'] acc IH]; simpl; [reflexivity|].
  rewrite (String.eqb_sym k k').
  destruct (String.eqb k' k); simpl; [reflexivity|].
  rewrite IH. now destruct (existsb _ (keys acc)).
Qed.

Lemma obj_set_NoDup (acc : list (string * json)) (k : string) (v : json) :
  NoDup (keys acc) -> NoDup (keys (obj_set acc k v)).
Proof.
  intros Hnd. rewrite obj_set_keys.
  destruct (existsb (String.eqb k) (keys acc)) eqn:E; [exact Hnd|].
  apply NoDup_app; [exact Hnd | repeat constructor; simpl; tauto |].
  intros x Hx [Hxk|[]]. subst x.
  assert (Ht : existsb (String.eqb k) (keys acc) = true)
    by (apply existsb_exists; exists k; split; [exact Hx | apply String.eqb_refl]).
  congruence.
Qed.

Lemma obj_set_wf (acc : list (string * json)) (k : string) (v : json) :
  Forall (fun kv => wf (snd kv)) acc -> wf v ->
  Forall (fun kv => wf (snd kv)) (obj_set acc k v).
Proof.
  intros Hacc Hv. induction Hacc as [|[k' v'] acc Hx Hacc IH]; simpl.
  - repeat constructor; exact Hv.
  - destruct (String.eqb k' k); constructor; assumption.
Qed.

Lemma parse_literal_wf (s rest : string) (j : json) :
  parse_literal s = Some (j, rest) -> wf j.
Proof.
  unfold parse_literal.
  destruct (strip_prefix "null" s); [intros [= <- _]; exact I|].
  destruct (strip_prefix "true" s); [intros [= <- _]; exact I|].
  destruct (strip_prefix "false" s); [intros [= <- _]; exact I|].
  destruct (span_num s) as [n r]. destruct (valid_number n) eqn:Hn;
    [|discriminate].
  intros [= <- _]. exact Hn.
Qed.

Lemma parse_fuel_wf (fuel : nat) :
  (forall s j rest, parse_value fuel s = Some (j, rest) -> wf j)
  /\ (forall s acc j rest,
        parse_elements fuel s acc = Some (j, rest) -> Forall wf acc -> wf j)
  /\ (forall s acc j rest,
        parse_members fuel s acc = Some (j, rest) ->
        NoDup (keys acc) -> Forall (fun kv => wf (snd kv)) acc -> wf j).
Proof.
  induction fuel as [|fuel [IHv [IHe IHm]]];
    [repeat split; intros; discriminate|].
  repeat split.
  - intros s j rest. cbn [parse_value].
    destruct (skip_ws s) as [|c r]; [discriminate|].
    destruct (Ascii.eqb c "[").
    { destruct (skip_ws r) as [|c' r']; [discriminate|].
      destruct (Ascii.eqb c' "]"); [intros [= <- _]; simpl; exact I|].
      intros H. eapply IHe; [exact H | constructor]. }
    destruct (Ascii.eqb c "{").
    { destruct (skip_ws r) as [|c' r']; [discriminate|].
      destruct (Ascii.eqb c' "}");
        [intros [= <- _]; simpl; split; [constructor | exact I]|].
      intros H. eapply IHm; [exact H | constructor | constructor]. }
    destruct (Ascii.eqb c dquote).
    { destruct (parse_string_body r) as [[t r']|]; [|discriminate].
      intros [= <- _]; exact I. }
    apply parse_literal_wf.
  - intros s acc j rest. cbn [parse_elements].
    destruct (parse_value fuel s) as [[v r]|] eqn:Hv; [|discriminate].
    apply IHv in Hv.
    destruct (skip_ws r) as [|c r']; [discriminate|].
    intros H Hacc.
    assert (Hacc' : Forall wf (acc ++ [v])%list)
      by (apply Forall_app; split; [exact Hacc | now constructor]).
    destruct (Ascii.eqb c ",").
    + eapply IHe; [exact H | exact Hacc'].
    + destruct (Ascii.eqb c "]"); [|discriminate].
      injection H as <- _. now apply wf_JArr.
  - intros s acc j rest. cbn [parse_members].
    destruct (skip_ws s) as [|q r]; [discriminate|].
    destruct (Ascii.eqb q dquote); [|discriminate].
    destruct (parse_string_body r) as [[k r1]|]; [|discriminate].
    destruct (skip_ws r1) as [|c r2]; [discriminate|].
    destruct (Ascii.eqb c ":"); [|discriminate].
    destruct (parse_value fuel r2) as [[v r3]|] eqn:Hv; [|discriminate].
    apply IHv in Hv.
    destruct (skip_ws r3) as [|d r4]; [discriminate|].
    intros H Hnd Hacc.
    pose proof (@obj_set_NoDup acc k v Hnd) as Hnd'.
    pose proof (@obj_set_wf acc k v Hacc Hv) as Hacc'.
    destruct (Ascii.eqb d ",").
    + eapply IHm; [exact H | exact Hnd' | exact Hacc'].
    + destruct (Ascii.eqb d "}"); [|discriminate].
      injection H as <- _. apply wf_JObj. now split.
Qed.

(** Every value [JSON.parse] returns is well formed. *)
Lemma parse_wf (text : string) (j : json) : JSON.parse text = Ok j -> wf j.
Proof.
  unfold JSON.parse.
  destruct (parse_value _ text) as [[j' rest]|] eqn:H; [|discriminate].
  destruct (is_empty (skip_ws rest)); [|discriminate].
  intros [= <-]. eapply (proj1 (parse_fuel_wf _)); exact H.
Qed.

End JSONRoundTrip.

(** *** The fuel of [JSON.parse] is never short *)

Module JSONFuel.

Local Open Scope string_scope.

Lemma skip_ws_length (s : string) : String.length (skip_ws s) <= String.length s.
Proof.
  induction s as [|c s IH]; simpl; [lia|].
  destruct (is_ws c); simpl; lia.
Qed.

Lemma parse_string_body_length (s t rest : string) :
  parse_string_body s = Some (t, rest) -> String.length rest < String.length s.
Proof.
  remember (String.length s) as n eqn:Hn.
  revert s t rest Hn. induction n as [n IH] using lt_wf_ind.
  intros s t rest Hn. destruct s as [|c r]; [discriminate|].
  simpl in Hn. cbn [parse_string_body].
  destruct (Ascii.eqb c dquote); [intros [= _ <-]; lia|].
  destruct (Ascii.eqb c "\").
  - destruct r as [|e r1]; [discriminate|].
    destruct (Ascii.eqb e "u").
    + destruct r1 as [|h1 [|h2 [|h3 [|h4 r2]]]]; try discriminate.
      destruct (hex4 h1 h2 h3 h4); [|discriminate].
      destruct (parse_string_body r2) as [[t' rest']|] eqn:Hr2; [|discriminate].
      intros [= _ <-].
      assert (String.length rest' < String.length r2)
        by (eapply (IH (String.length r2)); [simpl in *; lia | reflexivity | exact Hr2]).
      simpl in *. lia.
    + destruct (simple_escape e); [|discriminate].
      destruct (parse_string_body r1) as [[t' rest']|] eqn:Hr1; [|discriminate].
      intros [= _ <-].
      assert (String.length rest' < String.length r1)
        by (eapply (IH (String.length r1)); [simpl in *; lia | reflexivity | exact Hr1]).
      simpl in *. lia.
  - destruct (ascii_code c <? 32)%nat; [discriminate|].
    destruct (parse_string_body r) as [[t' rest']|] eqn:Hr; [|discriminate].
    intros [= _ <-].
    assert (String.length rest' < String.length r)
      by (eapply (IH (String.length r)); [lia | reflexivity | exact Hr]).
    lia.
Qed.

Lemma strip_prefix_length (p s r : string) :
  strip_prefix p s = Some r ->
  String.length s = String.length p + String.length r.
Proof.
  revert s; induction p as [|a p IH]; intros s; simpl.
  - now intros [= ->].
  - destruct s as [|b s]; [discriminate|].
    destruct (Ascii.eqb a b); [|discriminate].
    intros H. apply IH in H. simpl. lia.
Qed.

Lemma span_num_length (s n rest : string) :
  span_num s = (n, rest) ->
  String.length s = String.length n + String.length rest.
Proof.
  revert n rest; induction s as [|c s IH]; intros n rest; simpl.
  - now intros [= <- <-].
  - destruct (is_numchar c).
    + destruct (span_num s) as [n' rest'] eqn:Hs. intros [= <- <-].
      specialize (IH _ _ eq_refl). simpl. lia.
    + intros [= <- <-]. simpl. lia.
Qed.

Lemma parse_literal_length (s rest : string) (j : json) :
  parse_literal s = Some (j, rest) -> String.length rest < String.length s.
Proof.
  unfold parse_literal.
  destruct (strip_prefix "null" s) as [r|] eqn:H1.
  { intros [= _ <-]. apply strip_prefix_length in H1. simpl in H1. lia. }
  destruct (strip_prefix "true" s) as [r|] eqn:H2.
  { intros [= _ <-]. apply strip_prefix_length in H2. simpl in H2. lia. }
  destruct (strip_prefix "false" s) as [r|] eqn:H3.
  { intros [= _ <-]. apply strip_prefix_length in H3. simpl in H3. lia. }
  destruct (span_num s) as [n r] eqn:Hspan.
  destruct (valid_number n) eqn:Hn; [|discriminate].
  intros [= _ <-]. apply span_num_length in Hspan.
  destruct n as [|c n]; [discriminate Hn|]. simpl in Hspan. lia.
Qed.

(** A successful run consumes at least one character, and any fuel
    that covers the characters consumed gives the same result. *)
Lemma parse_fuel_adequate (fuel : nat) :
  (forall s j rest,
      parse_value fuel s = Some (j, rest) ->
      String.length rest < String.length s
      /\ forall fuel', String.length s - String.length rest <= fuel' ->
                       parse_value fuel' s = Some (j, rest))
  /\ (forall s acc j rest,
        parse_elements fuel s acc = Some (j, rest) ->
        String.length rest < String.length s
        /\ forall fuel', String.length s - String.length rest <= fuel' ->
                         parse_elements fuel' s acc = Some (j, rest))
  /\ (forall s acc j rest,
        parse_members fuel s acc = Some (j, rest) ->
        String.length rest < String.length s
        /\ forall fuel', String.length s - String.length rest <= fuel' ->
                         parse_members fuel' s acc = Some (j, rest)).
Proof.
  induction fuel as [|fuel [IHv [IHe IHm]]];
    [repeat split; intros; discriminate|].
  repeat apply conj.
  - intros s j rest. cbn [parse_value].
    pose proof (skip_ws_length s) as Hs.
    destruct (skip_ws s) as [|c r] eqn:Hskip; [discriminate|].
    simpl in Hs.
    destruct (Ascii.eqb c "[") eqn:Ha.
    { pose proof (skip_ws_length r) as Hr.
      destruct (skip_ws r) as [|c' r'] eqn:Hskip'; [discriminate|].
      simpl in Hr.
      destruct (Ascii.eqb c' "]") eqn:Hc.
      - intros [= <- <-]. split; [lia|].
        intros [|fuel'] Hf; [lia|]. cbn [parse_value].
        now rewrite Hskip, Ha, Hskip', Hc.
      - intros H. destruct (IHe _ _ _ _ H) as [Hlen Hall]. split; [lia|].
        intros [|fuel'] Hf; [lia|]. cbn [parse_value].
        rewrite Hskip, Ha, Hskip', Hc. apply Hall. lia. }
    destruct (Ascii.eqb c "{") eqn:Ho.
    { pose proof (skip_ws_length r) as Hr.
      destruct (skip_ws r) as [|c' r'] eqn:Hskip'; [discriminate|].
      simpl in Hr.
      destruct (Ascii.eqb c' "}") eqn:Hc.
      - intros [= <- <-]. split; [lia|].
        intros [|fuel'] Hf; [lia|]. cbn [parse_value].
        now rewrite Hskip, Ha, Ho, Hskip', Hc.
      - intros H. destruct (IHm _ _ _ _ H) as [Hlen Hall]. split; [lia|].
        intros [|fuel'] Hf; [lia|]. cbn [parse_value].
        rewrite Hskip, Ha, Ho, Hskip', Hc. apply Hall. lia. }
    destruct (Ascii.eqb c dquote) eqn:Hq.
    { destruct (parse_string_body r) as [[t r']|] eqn:Hbody; [|discriminate].
      intros [= <- <-]. pose proof (parse_string_body_length _ Hbody) as Hlen.
      split; [lia|].
      intros [|fuel'] Hf; [lia|]. cbn [parse_value].
      now rewrite Hskip, Ha, Ho, Hq, Hbody. }
    intros H. pose proof (parse_literal_length _ H) as Hlen. simpl in Hlen.
    split; [lia|].
    intros [|fuel'] Hf; [lia|]. cbn [parse_value].
    now rewrite Hskip, Ha, Ho, Hq.
  - intros s acc j rest. cbn [parse_elements].
    destruct (parse_value fuel s) as [[v r]|] eqn:Hv; [|discriminate].
    destruct (IHv _ _ _ Hv) as [Hlenv Hallv].
    pose proof (skip_ws_length r) as Hr.
    destruct (skip_ws r) as [|c r'] eqn:Hskip; [discriminate|].
    simpl in Hr.
    destruct (Ascii.eqb c ",") eqn:Hc.
    + intros H. destruct (IHe _ _ _ _ H) as [Hlen Hall]. split; [lia|].
      intros [|fuel'] Hf; [lia|]. cbn [parse_elements].
      rewrite (Hallv fuel') by lia. rewrite Hskip, Hc. apply Hall. lia.
    + destruct (Ascii.eqb c "]") eqn:Hb; [|discriminate].
      intros [= <- <-]. split; [lia|].
      intros [|fuel'] Hf; [lia|]. cbn [parse_elements].
      rewrite (Hallv fuel') by lia. now rewrite Hskip, Hc, Hb.
  - intros s acc j rest. cbn [parse_members].
    pose proof (skip_ws_length s) as Hs.
    destruct (skip_ws s) as [|q r] eqn:Hskip; [discriminate|].
    simpl in Hs.
    destruct (Ascii.eqb q dquote) eqn:Hq; [|discriminate].
    destruct (parse_string_body r) as [[k r1]|] eqn:Hbody; [|discriminate].
    pose proof (parse_string_body_length _ Hbody) as Hk.
    pose proof (skip_ws_length r1) as Hr1.
    destruct (skip_ws r1) as [|c r2] eqn:Hskip1; [discriminate|].
    simpl in Hr1.
    destruct (Ascii.eqb c ":") eqn:Hc; [|discriminate].
    destruct (parse_value fuel r2) as [[v r3]|] eqn:Hv; [|discriminate].
    destruct (IHv _ _ _ Hv) as [Hlenv Hallv].
    pose proof (skip_ws_length r3) as Hr3.
    destruct (skip_ws r3) as [|d r4] eqn:Hskip3; [discriminate|].
    simpl in Hr3.
    destruct (Ascii.eqb d ",") eqn:Hd.
    + intros H. destruct (IHm _ _ _ _ H) as [Hlen Hall]. split; [lia|].
      intros [|fuel'] Hf; [lia|]. cbn [parse_members].
      rewrite Hskip, Hq, Hbody, Hskip1, Hc.
      rewrite (Hallv fuel') by lia. rewrite Hskip3, Hd. apply Hall. lia.
    + destruct (Ascii.eqb d "}") eqn:Hb; [|discriminate].
      intros [= <- <-]. split; [lia|].
      intros [|fuel'] Hf; [lia|]. cbn [parse_members].
      rewrite Hskip, Hq, Hbody, Hskip1, Hc.
      rewrite (Hallv fuel') by lia. now rewrite Hskip3, Hd, Hb.
Qed.

(** [JSON.parse] fails only on a text that no amount of fuel parses:
    the value of a text read with any fuel is the value [parse] returns. *)
Lemma parse_complete (text rest : string) (fuel : nat) (j : json) :
  parse_value fuel text = Some (j, rest) -> is_empty (skip_ws rest) = true ->
  JSON.parse text = Ok j.
Proof.
  intros H Hrest. destruct (proj1 (parse_fuel_adequate fuel) _ _ _ H) as [_ Hall].
  unfold JSON.parse. rewrite (Hall (S (String.length text))) by lia.
  now rewrite Hrest.
Qed.

End JSONFuel.

(** ** The effects *)

Lemma keeps_log_ret {Ext A} (a : A) : keeps_log (Ext:=Ext) (ret a).
Proof. intro db; reflexivity. Qed.

Lemma keeps_log_on_docs {Ext A} (c : M (Docs Ext) A) : keeps_log (on_docs c).
Proof. intro db; unfold on_docs; destruct (c (docs db)); reflexivity. Qed.

Lemma keeps_log_bind {Ext A B} (c : M (Db Ext) A) (k : A -> M (Db Ext) B) :
  keeps_log c -> (forall a, keeps_log (k a)) -> keeps_log (bind c k).
Proof.
  intros Hc Hk db; unfold bind.
  specialize (Hc db).
  destruct (c db) as [[a|e] db']; simpl in *.
  - now rewrite Hk.
  - assumption.
Qed.

(** ** The operation log *)

Lemma ops_max_version_bound collection id log row :
  In row log ->
  OpsRow.collection row = collection -> OpsRow.docId row = id ->
  exists m, ops_max_version collection id log = Some m
            /\ (OpsRow.version row <= m)%Z.
Proof.
  induction log as [|r log IH]; simpl; [tauto|].
  intros [->|Hin] Hc Hd.
  - rewrite Hc, Hd, !String.eqb_refl; simpl.
    destruct (ops_max_version collection id log) as [m|]; eexists; split;
      try reflexivity; lia.
  - destruct (IH Hin Hc Hd) as [m [Hm Hle]]; rewrite Hm.
    destruct (_ && _); eexists; split; try reflexivity; lia.
Qed.

(** The version [prisma.ops.aggregate] returns is the version of a row of
    the document, and there is none when the document has no row. *)
Lemma ops_max_version_attained collection id log :
  match ops_max_version collection id log with
  | Some m =>
      exists row, In row log /\ OpsRow.collection row = collection
                  /\ OpsRow.docId row = id /\ OpsRow.version row = m
  | None =>
      forall row, In row log ->
                  ~ (OpsRow.collection row = collection /\ OpsRow.docId row = id)
  end.
Proof.
  induction log as [|r log IH]; simpl; [tauto|].
  destruct (String.eqb_spec (OpsRow.collection r) collection) as [Hc|Hc];
    destruct (String.eqb_spec (OpsRow.docId r) id) as [Hd|Hd]; simpl;
    try (destruct (ops_max_version collection id log) as [m|];
         [destruct IH as [row [Hin H]]; exists row; tauto
         |intros row [<-|Hin]; [tauto | now apply IH]]).
  destruct (ops_max_version collection id log) as [m|].
  - destruct IH as [row [Hin [Hrc [Hrd Hrv]]]].
    destruct (Z.max_spec (OpsRow.version r) m) as [[_ ->]|[_ ->]].
    + exists row; tauto.
    + exists r; tauto.
  - exists r; tauto.
Qed.

Lemma or_zero_id (v : option Z) :
  or_zero v = match v with Some m => m | None => 0%Z end.
Proof.
  destruct v as [m|]; simpl; [|reflexivity].
  destruct (Z.eqb_spec m 0); congruence.
Qed.

(** The next version of a document is not in its log yet: the unique
    constraint of the log cannot fire on it. *)
Lemma next_version_is_fresh collection id text log :
  existsb
    (same_log_key
       (OpsRow.mk collection id
          (or_zero (ops_max_version collection id log) + 1) text)) log = false.
Proof.
  destruct (existsb _ log) eqn:E; [|reflexivity].
  apply existsb_exists in E; destruct E as [row [Hin Hkey]].
  unfold same_log_key in Hkey; simpl in Hkey.
  apply andb_true_iff in Hkey; destruct Hkey as [Hkey Hv].
  apply andb_true_iff in Hkey; destruct Hkey as [Hc Hd].
  apply String.eqb_eq in Hc, Hd; apply Z.eqb_eq in Hv.
  destruct (@ops_max_version_bound collection id log row
              Hin (eq_sym Hc) (eq_sym Hd)) as [m [Hm Hle]].
  rewrite or_zero_id, Hm in Hv; lia.
Qed.

(** ** Sorting by a key *)

Section SortFacts.
Variable A : Type.
Variable key : A -> Z.

Let le (a b : A) : Prop := (key a <= key b)%Z.

Lemma insert_sorted_perm (x : A) (l : list A) :
  Permutation (insert_sorted key x l) (x :: l).
Proof.
  induction l as [|y l IH]; simpl; [reflexivity|].
  destruct (key x <=? key y)%Z; [reflexivity|].
  rewrite IH. apply perm_swap.
Qed.

Lemma sort_by_perm (l : list A) : Permutation (sort_by key l) l.
Proof.
  induction l as [|x l IH]; simpl; [reflexivity|].
  rewrite insert_sorted_perm. now constructor.
Qed.

Lemma insert_sorted_sorted (x : A) (l : list A) :
  StronglySorted le l -> StronglySorted le (insert_sorted key x l).
Proof.
  induction 1 as [|y l Hs IH Hall]; simpl.
  - repeat constructor.
  - destruct (Z.leb_spec (key x) (key y)) as [Hlt|Hge].
    + constructor; [now constructor|].
      constructor; [unfold le; lia|].
      eapply Forall_impl; [|exact Hall]. unfold le; intros; lia.
    + constructor; [exact IH|].
      eapply Permutation_Forall; [symmetry; apply insert_sorted_perm|].
      constructor; [unfold le; lia | exact Hall].
Qed.

Lemma sort_by_sorted (l : list A) : StronglySorted le (sort_by key l).
Proof.
  induction l as [|x l IH]; simpl; [constructor|].
  now apply insert_sorted_sorted.
Qed.

(** Two sorted arrangements of the same elements are the same list
    when no two of the elements share a key. *)
Lemma sorted_perm_unique (l l' : list A) :
  StronglySorted le l -> StronglySorted le l' -> Permutation l l' ->
  (forall a b, In a l -> In b l -> key a = key b -> a = b) ->
  l = l'.
Proof.
  intros Hs; revert l'.
  induction Hs as [|x l Hs IH Hall]; intros l' Hs' Hp Hinj.
  - now apply Permutation_nil in Hp.
  - destruct Hs' as [|y l' Hs' Hall'].
    + symmetry in Hp; now apply Permutation_nil in Hp.
    + assert (Hxy : x = y).
      { apply Hinj; [now left | |].
        - eapply Permutation_in; [symmetry; exact Hp | now left].
        - assert (Hy : In y (x :: l))
            by (eapply Permutation_in; [symmetry; exact Hp | now left]).
          assert (Hx : In x (y :: l'))
            by (eapply Permutation_in; [exact Hp | now left]).
          rewrite Forall_forall in Hall, Hall'.
          destruct Hy as [->|Hy]; [reflexivity|].
          destruct Hx as [->|Hx]; [reflexivity|].
          specialize (Hall _ Hy); specialize (Hall' _ Hx).
          unfold le in *; lia. }
      subst y. f_equal.
      apply IH; [exact Hs' | now apply Permutation_cons_inv in Hp |].
      intros a b Ha Hb; apply Hinj; now right.
Qed.

Lemma sort_by_order_independent (l l' : list A) :
  Permutation l l' ->
  (forall a b, In a l -> In b l -> key a = key b -> a = b) ->
  sort_by key l = sort_by key l'.
Proof.
  intros Hp Hinj.
  apply sorted_perm_unique; try apply sort_by_sorted.
  - rewrite !sort_by_perm; exact Hp.
  - intros a b Ha Hb. apply Hinj; eapply Permutation_in;
      try apply sort_by_perm; assumption.
Qed.
End SortFacts.

(** ** [indexOf] *)

Lemma indexOf_bounds (ids : list string) (id : string) :
  (-1 <= indexOf ids id)%Z.
Proof.
  induction ids as [|x ids IH]; simpl; [lia|].
  destruct (String.eqb x id); [lia|].
  destruct (Z.ltb_spec (indexOf ids id) 0); lia.
Qed.

Lemma indexOf_In (ids : list string) (id : string) :
  In id ids <-> (0 <= indexOf ids id)%Z.
Proof.
  induction ids as [|x ids IH]; simpl; [split; [tauto | lia]|].
  destruct (String.eqb_spec x id) as [->|Hne].
  - split; [lia | now left].
  - destruct (Z.ltb_spec (indexOf ids id) 0) as [Hlt|Hge].
    + split; [|lia]. intros [H|H]; [congruence|]. apply IH in H; lia.
    + split; [lia|]. intros _; right; apply IH; lia.
Qed.

Lemma indexOf_inj (ids : list string) (a b : string) :
  In a ids -> indexOf ids a = indexOf ids b -> a = b.
Proof.
  induction ids as [|x ids IH]; simpl; [tauto|].
  intros Ha Heq.
  destruct (String.eqb_spec x a) as [Hxa|Hxa], (String.eqb_spec x b) as [Hxb|Hxb].
  - congruence.
  - pose proof (indexOf_bounds ids b).
    destruct (Z.ltb_spec (indexOf ids b) 0); lia.
  - pose proof (indexOf_bounds ids a).
    destruct (Z.ltb_spec (indexOf ids a) 0); lia.
  - destruct Ha as [Ha|Ha]; [congruence|].
    pose proof (proj1 (indexOf_In ids a) Ha).
    destruct (Z.ltb_spec (indexOf ids a) 0); [lia|].
    destruct (Z.ltb_spec (indexOf ids b) 0); [lia|].
    apply IH; [exact Ha | lia].
Qed.

Lemma StronglySorted_impl_In {A} (R R' : A -> A -> Prop) (l : list A) :
  (forall a b, In a l -> In b l -> R a b -> R' a b) ->
  StronglySorted R l -> StronglySorted R' l.
Proof.
  intros Himp Hs. induction Hs as [|x l Hs IH Hall]; constructor.
  - apply IH. intros a b Ha Hb; apply Himp; now right.
  - rewrite Forall_forall in *. intros b Hb.
    apply Himp; [now left | now right | now apply Hall].
Qed.

(** A list without duplicates is sorted by the positions of its own
    elements. *)
Lemma NoDup_sorted_by_indexOf (ids : list string) :
  NoDup ids ->
  StronglySorted (fun a b => (indexOf ids a <= indexOf ids b)%Z) ids.
Proof.
  induction 1 as [|x ids Hnin Hnd IH].
  - constructor.
  - assert (Hshift : forall a, In a ids ->
              indexOf (x :: ids) a = (indexOf ids a + 1)%Z).
    { intros a Ha. simpl.
      destruct (String.eqb_spec x a) as [->|_]; [contradiction|].
      pose proof (proj1 (indexOf_In ids a) Ha).
      destruct (Z.ltb_spec (indexOf ids a) 0); lia. }
    constructor.
    + eapply StronglySorted_impl_In; [|exact IH].
      intros a b Ha Hb Hab; cbv beta in *.
      rewrite (Hshift a Ha), (Hshift b Hb); lia.
    + rewrite Forall_forall; intros b Hb.
      rewrite (Hshift b Hb). simpl indexOf at 1. rewrite String.eqb_refl.
      pose proof (proj1 (indexOf_In ids b) Hb). lia.
Qed.

(** ** Lists *)

Lemma sublist_refl {A} (l : list A) : sublist l l.
Proof. induction l; constructor; assumption. Qed.

Lemma sublist_In {A} (l big : list A) (x : A) :
  sublist l big -> In x l -> In x big.
Proof.
  induction 1 as [|y l big _ IH|y l big _ IH]; simpl; intuition.
Qed.

(** A selection from a duplicate-free list that still holds every
    element is the list itself. *)
Lemma sublist_all {A} (l big : list A) :
  sublist l big -> NoDup big -> incl big l -> l = big.
Proof.
  induction 1 as [|x l big Hs IH|x l big Hs IH]; intros Hnd Hincl.
  - reflexivity.
  - inversion Hnd as [|? ? Hnin Hnd']; subst. f_equal. apply IH; [exact Hnd'|].
    intros y Hy. destruct (Hincl y (or_intror Hy)) as [->|H]; [contradiction|exact H].
  - inversion Hnd as [|? ? Hnin Hnd']; subst. exfalso. apply Hnin.
    eapply sublist_In; [exact Hs|]. apply Hincl; now left.
Qed.

Lemma NoDup_map_inj_in {A B} (f : A -> B) (l : list A) (a b : A) :
  NoDup (map f l) -> In a l -> In b l -> f a = f b -> a = b.
Proof.
  induction l as [|x l IH]; simpl; [tauto|].
  intros Hnd Ha Hb Hf. inversion Hnd as [|? ? Hnin Hnd']; subst.
  destruct Ha as [->|Ha], Hb as [->|Hb]; try reflexivity.
  - exfalso; apply Hnin. rewrite Hf. now apply in_map.
  - exfalso; apply Hnin. rewrite <- Hf. now apply in_map.
  - now apply IH.
Qed.

(** Selecting rows keeps their ids distinct. *)
Lemma NoDup_ids_filter {R : Type} (rid : R -> string) (keep : R -> bool)
  (rows : list R) :
  NoDup (map rid rows) -> NoDup (map rid (filter keep rows)).
Proof.
  induction rows as [|r rows IH]; simpl; [trivial|].
  intros Hnd; inversion Hnd as [|? ? Hnin Hnd']; subst.
  destruct (keep r); simpl; [|now apply IH].
  constructor; [|now apply IH].
  intros Hin; apply Hnin. apply in_map_iff in Hin.
  destruct Hin as [y [Hy Hin]]. apply filter_In in Hin.
  apply in_map_iff; exists y; tauto.
Qed.

Lemma Permutation_filter' {A} (p : A -> bool) (l l' : list A) :
  Permutation l l' -> Permutation (filter p l) (filter p l').
Proof.
  induction 1 as [|x l l' _ IH|x y l|l l' l'' _ IH1 _ IH2]; simpl.
  - constructor.
  - destruct (p x); [now constructor | exact IH].
  - destruct (p x), (p y); try reflexivity. apply perm_swap.
  - now transitivity (filter p l').
Qed.

Lemma map_result_Ok {A B} (f : A -> result B) (l : list A) (ys : list B) :
  map_result f l = Ok ys <-> Forall2 (fun x y => f x = Ok y) l ys.
Proof.
  revert ys; induction l as [|x l IH]; intros ys; simpl.
  - split; [intros [= <-]; constructor | intros H; now inversion H].
  - destruct (f x) as [y|e] eqn:Hx.
    + destruct (map_result f l) as [zs|e] eqn:Hl.
      * split.
        -- intros [= <-]. constructor; [exact Hx | now apply IH].
        -- intros H; inversion H as [|? y' ? zs' Hy Hzs]; subst.
           apply IH in Hzs. congruence.
      * split; [discriminate|].
        intros H; inversion H as [|? y' ? zs' Hy Hzs]; subst.
        apply IH in Hzs; discriminate.
    + split; [discriminate|].
      intros H; inversion H; subst; congruence.
Qed.

(** ** Ids in the order of the request *)

(** Ids without duplicates, all among the requested ones and sorted by
    their position in the request, are a selection from the request. *)
Lemma sorted_ids_sublist (ids l : list string) :
  NoDup l -> Forall (fun id => In id ids) l ->
  StronglySorted (fun a b => (indexOf ids a <= indexOf ids b)%Z) l ->
  sublist l ids.
Proof.
  revert l; induction ids as [|x ids IH]; intros l Hnd Hin Hs.
  - destruct l as [|y l]; [constructor|].
    inversion Hin as [|? ? Hy _]; subst; destruct Hy.
  - assert (Hrest : forall l', NoDup l' -> Forall (fun id => In id (x :: ids)) l' ->
              StronglySorted (fun a b => (indexOf (x :: ids) a <= indexOf (x :: ids) b)%Z) l' ->
              ~ In x l' -> sublist l' ids).
    { intros l' Hnd' Hin' Hs' Hx. apply IH; [exact Hnd'| |].
      - rewrite Forall_forall in *. intros a Ha.
        destruct (Hin' a Ha) as [->|H]; [contradiction|exact H].
      - eapply StronglySorted_impl_In; [|exact Hs'].
        intros a b Ha Hb; cbv beta; simpl.
        rewrite Forall_forall in Hin'.
        assert (Hane : x <> a) by (intros ->; contradiction).
        assert (Hbne : x <> b) by (intros ->; contradiction).
        assert (Ha' : (0 <= indexOf ids a)%Z).
        { apply indexOf_In. destruct (Hin' a Ha); [congruence|assumption]. }
        assert (Hb' : (0 <= indexOf ids b)%Z).
        { apply indexOf_In. destruct (Hin' b Hb); [congruence|assumption]. }
        apply String.eqb_neq in Hane, Hbne. rewrite Hane, Hbne.
        destruct (Z.ltb_spec (indexOf ids a) 0), (Z.ltb_spec (indexOf ids b) 0);
          lia. }
    destruct l as [|y l]; [apply sublist_skip, IH; constructor|].
    inversion Hnd as [|? ? Hnin Hnd']; subst.
    inversion Hs as [|? ? Hs' Hall]; subst.
    inversion Hin as [|? ? Hy Hin']; subst.
    destruct (String.eqb_spec x y) as [<-|Hne].
    + apply sublist_cons. apply Hrest; assumption.
    + apply sublist_skip. apply Hrest; try assumption.
      intros [Hx|Hx]; [congruence|].
      rewrite Forall_forall in Hall. specialize (Hall x Hx).
      simpl in Hall. rewrite String.eqb_refl in Hall.
      apply String.eqb_neq in Hne. rewrite Hne in Hall.
      pose proof (indexOf_bounds ids y).
      destruct Hy as [Hy|Hy]; [apply String.eqb_neq in Hne; congruence|].
      apply indexOf_In in Hy.
      destruct (Z.ltb_spec (indexOf ids y) 0); lia.
Qed.

(** What both readers do after the rows are turned into snapshots: the
    sort by position in the request, then the delivery. *)
Lemma delivered_in_order (ids : list string) (snaps : list ISnapshotBase.t) :
  NoDup (map ISnapshotBase.id snaps) ->
  Forall (fun s => In (ISnapshotBase.id s) ids) snaps ->
  sublist
    (map Snapshot.id
       (to_snapshots ids
          (sort_by (fun a => indexOf ids (ISnapshotBase.id a)) snaps)))
    ids.
Proof.
  intros Hnd Hin.
  set (sorted := sort_by _ snaps).
  assert (Hp : Permutation sorted snaps) by apply sort_by_perm.
  unfold to_snapshots. destruct sorted as [|s0 rest] eqn:Hsorted.
  - rewrite map_map; simpl. rewrite map_id. apply sublist_refl.
  - rewrite <- Hsorted in *. rewrite map_map; simpl.
    change (map (fun x => ISnapshotBase.id x) sorted)
      with (map ISnapshotBase.id sorted).
    apply sorted_ids_sublist.
    + eapply Permutation_NoDup; [|exact Hnd].
      apply Permutation_map; symmetry; exact Hp.
    + rewrite Forall_forall in *. intros id Hid.
      apply in_map_iff in Hid. destruct Hid as [s [<- Hs]].
      apply Hin. eapply Permutation_in; [exact Hp|exact Hs].
    + pose proof (sort_by_sorted (fun a => indexOf ids (ISnapshotBase.id a)) snaps)
        as Hs. fold sorted in Hs.
      clear - Hs. induction Hs as [|x l Hs IH Hall]; simpl; constructor.
      * exact IH.
      * rewrite Forall_forall in *. intros b Hb.
        apply in_map_iff in Hb. destruct Hb as [s [<- Hs']]. now apply Hall.
Qed.

(** ** The adapter *)

Section Properties.

Context {Ext : Type} {core : CoreLib} {svc : Services Ext}
        {engine : Engine}.

(** C7. [skipPoll] answers [false] for every create and every delete,
    and answers [true] only for an op that is neither and carries no
    [op] member at all: an edit with no list of descriptors. *)
Theorem skipPoll_create_delete_edit (collection id : string) (op : RawOp.t) :
  ((RawOp.create op <> None \/ RawOp.del op = Some true) ->
   skipPoll collection id op = false)
  /\ (skipPoll collection id op = true ->
      RawOp.create op = None /\ RawOp.del op <> Some true
      /\ RawOp.op op = None).
Proof.
  unfold skipPoll.
  destruct (RawOp.create op) as [c|], (RawOp.del op) as [[|]|],
    (RawOp.op op) as [o|]; simpl; split;
    try (intros [H|H]); try intros H; try congruence;
    repeat split; congruence.
Qed.

(** C10. [getSnapshotBulk] on an empty list of ids does not return an
    empty list of snapshots: [ids[0]] is [undefined], its [slice]
    throws a [TypeError] and the callback receives it. *)
Theorem getSnapshotBulk_empty_ids (db : Db Ext) (collection : string)
  (projection : option IProjection) :
  getSnapshotBulk db collection [] projection = Err TypeError.
Proof. reflexivity. Qed.

Lemma same_type_not_found (docType : string) (ids : list string) :
  Forall (fun id => slice3 id = docType) ids ->
  other_type_found docType ids = false.
Proof.
  intro H; unfold other_type_found.
  replace (find _ ids) with (@None string); [reflexivity|].
  induction H as [|id ids Hid _ IH]; simpl; [reflexivity|].
  rewrite Hid, String.eqb_refl; simpl; exact IH.
Qed.

(** C1. [commit] compares [snapshot.v] with the highest logged version
    of the document plus one (zero plus one when the log has no row
    for it).  When they differ it reports the version mismatch and the
    database, log and documents, is the one it was given.  When they
    are equal the log of the database it leaves is the old log with
    the operation appended at [snapshot.v]. *)
Theorem commit_version_check (collection id : string) (rawOp : RawOp.t)
  (snapshot : ICollectionSnapshot.t) (db : Db Ext) :
  let maxLoggedVersion :=
    match ops_max_version collection id (ops db) with
    | Some m => m
    | None => 0%Z
    end in
  let v := ICollectionSnapshot.v snapshot in
  if (v =? maxLoggedVersion + 1)%Z
  then ops (snd (commit collection id rawOp snapshot db))
       = ops db ++ [OpsRow.mk collection id v
                      (JSON.stringify (RawOp.to_json rawOp))]
  else commit collection id rawOp snapshot db
       = (Err (Error ("version mismatch: maxVersion: "
                      ++ Z_to_string maxLoggedVersion
                      ++ " snapshotV: " ++ Z_to_string v)), db).
Proof.
  intros maxV v.
  assert (Hstep : commit collection id rawOp snapshot db
                  = (if negb (v =? maxV + 1)%Z
                     then throw (version_mismatch maxV v)
                     else
                       prisma_ops_create
                         (OpsRow.mk collection id v
                            (JSON.stringify (RawOp.to_json rawOp))) ;;;
                       match RawOp.create rawOp with
                       | Some c => on_docs (createSnapshot collection id (snd c))
                       | None => ret tt
                       end ;;;
                       match RawOp.op rawOp with
                       | Some o => on_docs (updateSnapshot v collection id o)
                       | None => ret tt
                       end ;;;
                       ret true) db).
  { unfold commit, bind at 1, gets. rewrite or_zero_id. reflexivity. }
  rewrite Hstep; clear Hstep.
  destruct (v =? maxV + 1)%Z eqn:Hv; cbn [negb].
  - apply Z.eqb_eq in Hv.
    unfold bind at 1, prisma_ops_create.
    set (text := JSON.stringify (RawOp.to_json rawOp)).
    pose proof (next_version_is_fresh collection id text (ops db)) as Hfresh.
    rewrite or_zero_id in Hfresh; fold maxV in Hfresh.
    rewrite <- Hv in Hfresh; rewrite Hfresh.
    match goal with
    | |- ops (snd (?c ?s)) = _ =>
        assert (Hk : keeps_log c); [|exact (Hk s)]
    end.
    apply keeps_log_bind.
    + destruct (RawOp.create rawOp);
        [apply keeps_log_on_docs | apply keeps_log_ret].
    + intros _. apply keeps_log_bind.
      * destruct (RawOp.op rawOp);
          [apply keeps_log_on_docs | apply keeps_log_ret].
      * intros _; apply keeps_log_ret.
  - reflexivity.
Qed.

(** C8. In a bulk read of records, a projection whose [$submit] key
    is truthy makes the read run with no projection at all, whatever
    else the projection names; any other projection, and the absent
    one, reaches the record service as it was supplied. *)
Theorem getSnapshotBulk_record_projection (db : Db Ext) (collection : string)
  (ids : list string) (projection : option IProjection) :
  ids <> [] ->
  Forall (fun id => slice3 id = IdPrefix_Record) ids ->
  ((exists p, projection = Some p /\ projection_get p "$submit" = Some true) ->
   getSnapshotBulk db collection ids projection
   = record_read db collection ids None)
  /\ ((forall p, projection = Some p -> projection_get p "$submit" <> Some true) ->
      getSnapshotBulk db collection ids projection
      = record_read db collection ids projection).
Proof.
  intros Hne Hall.
  destruct ids as [|id0 rest]; [congruence|].
  assert (H0 : slice3 id0 = IdPrefix_Record) by now inversion Hall.
  unfold getSnapshotBulk, record_read, getRecordSnapshotBulk.
  rewrite H0, (same_type_not_found Hall), String.eqb_refl.
  split.
  - intros [p [-> Hp]]; simpl; rewrite Hp; reflexivity.
  - intros Hp. destruct projection as [p|]; simpl; [|reflexivity].
    specialize (Hp p eq_refl).
    destruct (projection_get p "$submit") as [[|]|]; congruence.
Qed.

(** C4, as the code has it.  The family of an id is its first three
    characters and no dispatch raises an error for an unknown one.
    [createSnapshot] hands an id with the prefix of tables, records,
    fields or views, tried in this order, to the service of its family
    and does nothing for any other prefix, so a create op on such an id
    is committed with its log row and no document.  [getSnapshotBulk]
    hands a batch with the prefix of records, fields, views or
    aggregates, tried in this order, to the reader of its family and
    returns one zero-version placeholder per id for any other
    prefix. *)
Theorem unknown_prefix_falls_through :
  (forall collection docId snapshot,
      let docType := slice3 docId in
      (docType = IdPrefix_Table ->
       createSnapshot collection docId snapshot
       = tableService_addTable snapshot)
      /\ (docType <> IdPrefix_Table -> docType = IdPrefix_Record ->
          createSnapshot collection docId snapshot
          = recordService_addRecord collection docId)
      /\ (docType <> IdPrefix_Table -> docType <> IdPrefix_Record ->
          docType = IdPrefix_Field ->
          createSnapshot collection docId snapshot
          = fieldService_addField collection snapshot)
      /\ (docType <> IdPrefix_Table -> docType <> IdPrefix_Record ->
          docType <> IdPrefix_Field -> docType = IdPrefix_View ->
          createSnapshot collection docId snapshot
          = viewService_addView collection snapshot)
      /\ (docType <> IdPrefix_Table -> docType <> IdPrefix_Record ->
          docType <> IdPrefix_Field -> docType <> IdPrefix_View ->
          forall d : Docs Ext,
            createSnapshot collection docId snapshot d = (Ok tt, d)))
  /\ (forall collection id rawOp snapshot (db : Db Ext) c,
        slice3 id <> IdPrefix_Table -> slice3 id <> IdPrefix_Record ->
        slice3 id <> IdPrefix_Field -> slice3 id <> IdPrefix_View ->
        RawOp.create rawOp = Some c -> RawOp.op rawOp = None ->
        ICollectionSnapshot.v snapshot
        = (match ops_max_version collection id (ops db) with
           | Some m => m
           | None => 0
           end + 1)%Z ->
        commit collection id rawOp snapshot db
        = (Ok true,
           mkDb (ops db ++ [OpsRow.mk collection id
                              (ICollectionSnapshot.v snapshot)
                              (JSON.stringify (RawOp.to_json rawOp))])
                (docs db)))
  /\ (forall (db : Db Ext) collection id0 rest projection,
        let ids := id0 :: rest in
        let docType := slice3 id0 in
        let delivered (data : result (list ISnapshotBase.t)) :=
          match data with
          | Ok snapshotData => Ok (to_snapshots ids snapshotData)
          | Err e => Err e
          end in
        Forall (fun id => slice3 id = docType) ids ->
        (docType = IdPrefix_Record ->
         getSnapshotBulk db collection ids projection
         = delivered (recordService_getRecordSnapshotBulk (docs db) collection
                        ids (record_projection projection)))
        /\ (docType <> IdPrefix_Record -> docType = IdPrefix_Field ->
            getSnapshotBulk db collection ids projection
            = delivered (getFieldSnapshotBulk (docs db) collection ids))
        /\ (docType <> IdPrefix_Record -> docType <> IdPrefix_Field ->
            docType = IdPrefix_View ->
            getSnapshotBulk db collection ids projection
            = delivered (getViewSnapshotBulk (docs db) collection ids))
        /\ (docType <> IdPrefix_Record -> docType <> IdPrefix_Field ->
            docType <> IdPrefix_View -> docType = IdPrefix_Aggregate ->
            getSnapshotBulk db collection ids projection
            = delivered (getAggregateBulk (docs db) collection ids))
        /\ (docType <> IdPrefix_Record -> docType <> IdPrefix_Field ->
            docType <> IdPrefix_View -> docType <> IdPrefix_Aggregate ->
            getSnapshotBulk db collection ids projection
            = Ok (map placeholder ids))).
Proof.
  assert (Hcreate : forall collection docId snapshot (d : Docs Ext),
      slice3 docId <> IdPrefix_Table -> slice3 docId <> IdPrefix_Record ->
      slice3 docId <> IdPrefix_Field -> slice3 docId <> IdPrefix_View ->
      createSnapshot collection docId snapshot d = (Ok tt, d)).
  { intros collection docId snapshot d Ht Hr Hf Hv. unfold createSnapshot.
    apply String.eqb_neq in Ht, Hr, Hf, Hv.
    rewrite Ht, Hr, Hf, Hv. reflexivity. }
  split; [|split].
  - intros collection docId snapshot docType. unfold docType.
    repeat split.
    + intros Ht. unfold createSnapshot. now rewrite Ht, String.eqb_refl.
    + intros Ht Hr. unfold createSnapshot.
      apply String.eqb_neq in Ht. now rewrite Ht, Hr, String.eqb_refl.
    + intros Ht Hr Hf. unfold createSnapshot.
      apply String.eqb_neq in Ht, Hr. now rewrite Ht, Hr, Hf, String.eqb_refl.
    + intros Ht Hr Hf Hv. unfold createSnapshot.
      apply String.eqb_neq in Ht, Hr, Hf.
      now rewrite Ht, Hr, Hf, Hv, String.eqb_refl.
    + intros Ht Hr Hf Hv d. now apply Hcreate.
  - intros collection id rawOp snapshot db c Ht Hr Hf Hv Hc Ho Hver.
    unfold commit, bind at 1, gets. rewrite or_zero_id.
    rewrite (proj2 (Z.eqb_eq _ _) Hver); cbn [negb].
    unfold bind at 1, prisma_ops_create.
    set (text := JSON.stringify (RawOp.to_json rawOp)).
    pose proof (next_version_is_fresh collection id text (ops db)) as Hfresh.
    rewrite or_zero_id, <- Hver in Hfresh; rewrite Hfresh.
    rewrite Hc, Ho. unfold bind, on_docs, ret.
    cbn [docs ops]. rewrite (Hcreate _ _ _ _ Ht Hr Hf Hv). reflexivity.
  - intros db collection id0 rest projection ids docType delivered Hall.
    unfold ids, docType, delivered in *. unfold getSnapshotBulk.
    rewrite (same_type_not_found Hall).
    repeat split.
    + intros Hr. now rewrite Hr, String.eqb_refl.
    + intros Hr Hf. apply String.eqb_neq in Hr.
      now rewrite Hr, Hf, String.eqb_refl.
    + intros Hr Hf Hv. apply String.eqb_neq in Hr, Hf.
      now rewrite Hr, Hf, Hv, String.eqb_refl.
    + intros Hr Hf Hv Ha. apply String.eqb_neq in Hr, Hf, Hv.
      now rewrite Hr, Hf, Hv, Ha, String.eqb_refl.
    + intros Hr Hf Hv Ha. apply String.eqb_neq in Hr, Hf, Hv, Ha.
      now rewrite Hr, Hf, Hv, Ha.
Qed.

Lemma getSnapshotBulk_aggregate (db : Db Ext) (collection id : string)
  (projection : option IProjection) :
  slice3 id = IdPrefix_Aggregate ->
  IdPrefix_Aggregate <> IdPrefix_Record ->
  IdPrefix_Aggregate <> IdPrefix_Field ->
  IdPrefix_Aggregate <> IdPrefix_View ->
  getSnapshotBulk db collection [id] projection
  = match getAggregateBulk (docs db) collection [id] with
    | Ok data => Ok (to_snapshots [id] data)
    | Err e => Err e
    end.
Proof.
  intros Hid Hr Hf Hv. unfold getSnapshotBulk.
  rewrite same_type_not_found by (repeat constructor).
  rewrite Hid. apply String.eqb_neq in Hr, Hf, Hv.
  now rewrite Hr, Hf, Hv, String.eqb_refl.
Qed.

(** C6. An aggregate id whose key is not [RowCount] makes the read fail
    with the error that names the key, and no batch that holds such an
    id returns snapshots: no default value is ever put in its place.
    An id whose key is [RowCount] is answered with the row count the
    record service gives for the view id parsed from it. *)
Theorem getAggregateBulk_dispatch (db : Db Ext) (collection : string) :
  (forall id,
      aggregateKey_of id <> AggregateKey_RowCount ->
      getAggregateBulk (docs db) collection [id]
      = Err (Error ("aggregate " ++ aggregateKey_of id ++ " not implemented")))
  /\ (forall ids,
        Exists (fun id => aggregateKey_of id <> AggregateKey_RowCount) ids ->
        exists e, getAggregateBulk (docs db) collection ids = Err e)
  /\ (forall id,
        aggregateKey_of id = AggregateKey_RowCount ->
        getAggregateBulk (docs db) collection [id]
        = match recordService_getRowCount (docs db) collection (viewId_of id) with
          | Ok n => Ok [ISnapshotBase.mk id 1 "json0" (AggregateData n)]
          | Err e => Err e
          end)
  /\ (forall id projection,
        slice3 id = IdPrefix_Aggregate ->
        IdPrefix_Aggregate <> IdPrefix_Record ->
        IdPrefix_Aggregate <> IdPrefix_Field ->
        IdPrefix_Aggregate <> IdPrefix_View ->
        (aggregateKey_of id <> AggregateKey_RowCount ->
         getSnapshot db collection id projection
         = Err (Error ("aggregate " ++ aggregateKey_of id ++ " not implemented")))
        /\ (aggregateKey_of id = AggregateKey_RowCount ->
            getSnapshot db collection id projection
            = match recordService_getRowCount (docs db) collection (viewId_of id) with
              | Ok n => Ok (Some (Snapshot.mk id 1 (Some "json0")
                                    (Some (AggregateData n)) None))
              | Err e => Err e
              end)).
Proof.
  set (d := docs db).
  assert (Hone : forall id,
      aggregateKey_of id <> AggregateKey_RowCount ->
      aggregate_result d collection id
      = Err (Error ("aggregate " ++ aggregateKey_of id ++ " not implemented"))).
  { intros id Hk. unfold aggregate_result. fold (aggregateKey_of id).
    apply String.eqb_neq in Hk. rewrite Hk.
    destruct (String.eqb _ AggregateKey_Average); reflexivity. }
  assert (Hbad : forall id,
      aggregateKey_of id <> AggregateKey_RowCount ->
      getAggregateBulk d collection [id]
      = Err (Error ("aggregate " ++ aggregateKey_of id ++ " not implemented"))).
  { intros id Hk. unfold getAggregateBulk; simpl. rewrite (Hone id Hk).
    reflexivity. }
  assert (Hgood : forall id,
      aggregateKey_of id = AggregateKey_RowCount ->
      getAggregateBulk d collection [id]
      = match recordService_getRowCount d collection (viewId_of id) with
        | Ok n => Ok [ISnapshotBase.mk id 1 "json0" (AggregateData n)]
        | Err e => Err e
        end).
  { intros id Hk. unfold getAggregateBulk; simpl.
    unfold aggregate_result. fold (aggregateKey_of id) (viewId_of id).
    rewrite Hk, String.eqb_refl.
    destruct (recordService_getRowCount d collection (viewId_of id));
      reflexivity. }
  split; [exact Hbad|split; [|split; [exact Hgood|]]].
  - intros ids Hex. unfold getAggregateBulk.
    induction Hex as [id ids Hk | id ids _ IH].
    + simpl. rewrite (Hone id Hk). eexists; reflexivity.
    + simpl. destruct (aggregate_result d collection id) as [n|e];
        [|eexists; reflexivity].
      destruct (map_result (aggregate_result d collection) ids) as [rs|e];
        [|eexists; reflexivity].
      destruct IH as [e He]; discriminate He.
  - intros id projection Hid Hr Hf Hv. unfold getSnapshot.
    rewrite (@getSnapshotBulk_aggregate db collection id projection Hid Hr Hf Hv).
    fold d. split; intros Hk.
    + now rewrite (Hbad id Hk).
    + rewrite (Hgood id Hk).
      destruct (recordService_getRowCount d collection (viewId_of id));
        reflexivity.
Qed.

End Properties.

(** ** The readers of fields and views *)

Section Readers.

Context {Ext : Type} {core : CoreLib} {svc : Services Ext}
        {engine : Engine}.

Lemma field_snapshot_id (r : FieldRow.t) (instance : json) (s : ISnapshotBase.t) :
  field_snapshot r instance = Ok s -> ISnapshotBase.id s = FieldRow.id r.
Proof.
  unfold field_snapshot. destruct (JSON.parse _); [|discriminate].
  now intros [= <-].
Qed.

Lemma view_snapshot_id (r : ViewRow.t) (s : ISnapshotBase.t) :
  view_snapshot r = Ok s -> ISnapshotBase.id s = ViewRow.id r.
Proof.
  unfold view_snapshot.
  repeat (destruct (JSON.parse_nullable _); [|discriminate]).
  now intros [= <-].
Qed.

(** The two passes over the rows of [getFieldSnapshotBulk] succeed
    exactly when every row gives its snapshot. *)
Lemma field_passes_Ok (fields : list FieldRow.t) (snaps : list ISnapshotBase.t) :
  match map_result createFieldInstanceByRaw fields with
  | Err e => Err e
  | Ok fieldInstances =>
      map_result (fun fi => field_snapshot (fst fi) (snd fi))
        (combine fields fieldInstances)
  end = Ok snaps
  <-> Forall2 field_row_snapshot fields snaps.
Proof.
  revert snaps; induction fields as [|r fields IH]; intros snaps; simpl.
  - split; [intros [= <-]; constructor | intros H; now inversion H].
  - destruct (createFieldInstanceByRaw r) as [i|e] eqn:Hi.
    + destruct (map_result createFieldInstanceByRaw fields) as [insts|e] eqn:Hinsts;
        simpl.
      * destruct (field_snapshot r i) as [s|e] eqn:Hs.
        -- destruct (map_result _ (combine fields insts)) as [ss|e] eqn:Hss.
           ++ split.
              ** intros [= <-]. constructor; [now exists i|]. now apply IH.
              ** intros H; inversion H as [|? s' ? ss' [i' [Hi' Hs']] Hrest];
                   subst. apply IH in Hrest. congruence.
           ++ split; [discriminate|].
              intros H; inversion H as [|? s' ? ss' _ Hrest]; subst.
              apply IH in Hrest. discriminate.
        -- split; [discriminate|].
           intros H; inversion H as [|? s' ? ss' [i' [Hi' Hs']] _]; subst.
           congruence.
      * split; [discriminate|].
        intros H; inversion H as [|? s' ? ss' _ Hrest]; subst.
        apply IH in Hrest. discriminate.
    + split; [discriminate|].
      intros H; inversion H as [|? s' ? ss' [i' [Hi' _]] _]; subst. congruence.
Qed.

Lemma Forall2_ids {R} (rid : R -> string) (rel : R -> ISnapshotBase.t -> Prop)
  (rows : list R) (snaps : list ISnapshotBase.t) :
  (forall r s, rel r s -> ISnapshotBase.id s = rid r) ->
  Forall2 rel rows snaps -> map ISnapshotBase.id snaps = map rid rows.
Proof.
  intros Hid H; induction H as [|r s rows snaps Hrs _ IH]; simpl;
    [reflexivity|].
  now rewrite (Hid r s Hrs), IH.
Qed.

(** The common part of the two readers: rows selected by id, one
    snapshot per row, the sort by position in the request. *)
Lemma reader_order {R} (rid : R -> string) (rel : R -> ISnapshotBase.t -> Prop)
  (ids : list string) (rows rows' : list R) (snaps : list ISnapshotBase.t) :
  (forall r s, rel r s -> ISnapshotBase.id s = rid r) ->
  NoDup (map rid rows) -> Forall (fun r => In (rid r) ids) rows ->
  Permutation rows rows' -> Forall2 rel rows snaps ->
  let key := fun a => indexOf ids (ISnapshotBase.id a) in
  sublist (map Snapshot.id (to_snapshots ids (sort_by key snaps))) ids
  /\ exists snaps', Forall2 rel rows' snaps'
                    /\ sort_by key snaps' = sort_by key snaps.
Proof.
  intros Hid Hnd Hin Hperm Hrel key.
  pose proof (Forall2_ids rid Hid Hrel) as Hids.
  assert (Hnd' : NoDup (map ISnapshotBase.id snaps)) by now rewrite Hids.
  assert (Hin' : Forall (fun s => In (ISnapshotBase.id s) ids) snaps).
  { rewrite Forall_forall in *. intros s Hs.
    assert (H : In (ISnapshotBase.id s) (map rid rows))
      by (rewrite <- Hids; now apply in_map).
    apply in_map_iff in H. destruct H as [r [<- Hr]]. now apply Hin. }
  split; [now apply delivered_in_order|].
  destruct (Permutation_Forall2 Hperm Hrel) as [snaps' [Hp' Hrel']].
  exists snaps'; split; [exact Hrel'|].
  symmetry. apply sort_by_order_independent; [exact Hp'|].
  intros a b Ha Hb Hkey. unfold key in Hkey.
  rewrite Forall_forall in Hin'.
  apply (NoDup_map_inj_in ISnapshotBase.id snaps); try assumption.
  eapply indexOf_inj; [|exact Hkey]. now apply Hin'.
Qed.

Lemma findMany_ids {R} (rid tid : R -> string) (tableId : string)
  (ids : list string) (rows : list R) :
  Forall (fun r => In (rid r) ids)
    (filter (fun r => String.eqb (tid r) tableId
                      && existsb (String.eqb (rid r)) ids) rows).
Proof.
  rewrite Forall_forall; intros r Hr. apply filter_In in Hr.
  destruct Hr as [_ Hr]. apply andb_true_iff in Hr. destruct Hr as [_ Hr].
  apply existsb_exists in Hr. destruct Hr as [x [Hx Heq]].
  apply String.eqb_eq in Heq. now subst.
Qed.

(** *** The stored rows of a request *)

Lemma stored_row_sound {R} (tid rid : R -> string) (rows : list R)
  (tableId id : string) (r : R) :
  stored_row tid rid rows tableId id = Some r ->
  In r rows /\ tid r = tableId /\ rid r = id.
Proof.
  unfold stored_row. intros H. apply find_some in H.
  destruct H as [Hin Hb]. apply andb_true_iff in Hb. destruct Hb as [Ht Hi].
  apply String.eqb_eq in Ht, Hi. tauto.
Qed.

Lemma stored_row_complete {R} (tid rid : R -> string) (rows : list R)
  (tableId : string) (r : R) :
  NoDup (map rid rows) -> In r rows -> tid r = tableId ->
  stored_row tid rid rows tableId (rid r) = Some r.
Proof.
  intros Hnd Hin Ht.
  destruct (stored_row tid rid rows tableId (rid r)) as [r'|] eqn:E.
  - destruct (stored_row_sound _ _ _ _ _ E) as [Hin' [_ Hid']].
    f_equal. now apply (NoDup_map_inj_in rid rows).
  - unfold stored_row in E. pose proof (find_none _ _ E r Hin) as Hb.
    cbv beta in Hb. rewrite Ht, !String.eqb_refl in Hb. discriminate.
Qed.

Lemma filter_map_In {A B} (f : A -> option B) (l : list A) (y : B) :
  In y (filter_map f l) <-> exists x, In x l /\ f x = Some y.
Proof.
  induction l as [|a l IH]; simpl.
  - split; [tauto | intros [x [[] _]]].
  - destruct (f a) as [b|] eqn:E; simpl; rewrite IH; split.
    + intros [<-|[x [Hx Hfx]]]; [exists a; tauto | exists x; tauto].
    + intros [x [[<-|Hx] Hfx]]; [left; congruence | right; exists x; tauto].
    + intros [x [Hx Hfx]]; exists x; tauto.
    + intros [x [[<-|Hx] Hfx]]; [congruence | exists x; tauto].
Qed.

Lemma requested_rows_ids {R} (tid rid : R -> string) (rows : list R)
  (tableId : string) (ids : list string) :
  map rid (requested_rows tid rid rows tableId ids)
  = filter (is_stored tid rid rows tableId) ids.
Proof.
  unfold requested_rows, is_stored.
  induction ids as [|id ids IH]; simpl; [reflexivity|].
  destruct (stored_row tid rid rows tableId id) as [r|] eqn:E; simpl.
  - destruct (stored_row_sound _ _ _ _ _ E) as [_ [_ ->]]. now rewrite IH.
  - exact IH.
Qed.

Lemma all_stored {R} (tid rid : R -> string) (rows : list R)
  (tableId : string) (ids : list string) :
  Forall (fun id => is_stored tid rid rows tableId id = true) ids ->
  filter (is_stored tid rid rows tableId) ids = ids.
Proof.
  induction 1 as [|id ids Hid _ IH]; simpl; [reflexivity|].
  now rewrite Hid, IH.
Qed.

(** The rows [findMany] selects are the rows of the request. *)
Lemma requested_selected {R} (tid rid : R -> string) (rows : list R)
  (tableId : string) (ids : list string) :
  NoDup (map rid rows) -> NoDup ids ->
  Permutation (requested_rows tid rid rows tableId ids)
    (filter (fun r => String.eqb (tid r) tableId
                      && existsb (String.eqb (rid r)) ids) rows).
Proof.
  intros Hnd Hids. apply NoDup_Permutation.
  - apply (NoDup_map_inv rid). rewrite requested_rows_ids.
    now apply NoDup_filter.
  - apply NoDup_filter. now apply (NoDup_map_inv rid).
  - intros r. unfold requested_rows. rewrite filter_map_In, filter_In. split.
    + intros [id [Hid E]].
      destruct (stored_row_sound _ _ _ _ _ E) as [Hin [Ht Hr]].
      split; [exact Hin|]. rewrite Ht, String.eqb_refl. cbn [andb].
      apply existsb_exists. exists id. split; [exact Hid|].
      now apply String.eqb_eq.
    + intros [Hin Hb]. apply andb_true_iff in Hb. destruct Hb as [Ht Hex].
      apply String.eqb_eq in Ht. apply existsb_exists in Hex.
      destruct Hex as [id [Hid Heq]]. apply String.eqb_eq in Heq.
      exists id. split; [exact Hid|]. rewrite <- Heq.
      now apply stored_row_complete.
Qed.

Lemma sorted_stays {A} (key : A -> Z) (l : list A) :
  StronglySorted (fun a b => (key a <= key b)%Z) l -> sort_by key l = l.
Proof.
  induction 1 as [|x l Hs IH Hall]; simpl; [reflexivity|].
  rewrite IH. destruct l as [|y l]; [reflexivity|]. simpl.
  inversion Hall as [|? ? Hxy _]; subst.
  now rewrite (proj2 (Z.leb_le _ _) Hxy).
Qed.

Lemma kept_sorted {A} (before : A -> A -> Prop) (keep : A -> bool)
  (l : list A) :
  StronglySorted before l -> StronglySorted before (filter keep l).
Proof.
  induction 1 as [|x l Hl IH Hall]; simpl; [constructor|].
  destruct (keep x); [|exact IH].
  constructor; [exact IH|].
  rewrite Forall_forall in *. intros y Hy. apply filter_In in Hy.
  apply Hall. tauto.
Qed.

Lemma kept_ids_sorted (ids : list string) (keep : string -> bool)
  (data : list ISnapshotBase.t) :
  NoDup ids -> map ISnapshotBase.id data = filter keep ids ->
  StronglySorted
    (fun a b => (indexOf ids (ISnapshotBase.id a)
                 <= indexOf ids (ISnapshotBase.id b))%Z) data.
Proof.
  intros Hnd Hdata.
  assert (Hs : StronglySorted (fun a b => (indexOf ids a <= indexOf ids b)%Z)
                 (map ISnapshotBase.id data)).
  { rewrite Hdata. apply kept_sorted. now apply NoDup_sorted_by_indexOf. }
  clear Hdata. induction data as [|a data IH]; [constructor|].
  simpl in Hs. inversion Hs as [|? ? Hrest Hall]; subst.
  constructor; [now apply IH|].
  rewrite Forall_forall in *. intros b Hb. apply Hall. now apply in_map.
Qed.

(** What the reader sorts is what the request asks for, in its order. *)
Lemma request_order {R} (tid rid : R -> string)
  (rel : R -> ISnapshotBase.t -> Prop) (tableId : string)
  (ids : list string) (rows : list R) (data : list ISnapshotBase.t) :
  (forall r s, rel r s -> ISnapshotBase.id s = rid r) ->
  NoDup (map rid rows) -> NoDup ids ->
  Forall2 rel (requested_rows tid rid rows tableId ids) data ->
  map ISnapshotBase.id data = filter (is_stored tid rid rows tableId) ids
  /\ exists snaps,
      Forall2 rel
        (filter (fun r => String.eqb (tid r) tableId
                          && existsb (String.eqb (rid r)) ids) rows) snaps
      /\ sort_by (fun a => indexOf ids (ISnapshotBase.id a)) snaps = data.
Proof.
  intros Hid Hnd Hids Hrel.
  assert (Hdata : map ISnapshotBase.id data
                  = filter (is_stored tid rid rows tableId) ids).
  { rewrite <- requested_rows_ids. exact (Forall2_ids rid Hid Hrel). }
  split; [exact Hdata|].
  destruct (Permutation_Forall2 (requested_selected tid rid rows tableId Hnd Hids)
              Hrel) as [snaps [Hp Hrel']].
  exists snaps. split; [exact Hrel'|].
  rewrite <- (sorted_stays _ (kept_ids_sorted _ _ Hids Hdata)).
  symmetry. apply sort_by_order_independent; [exact Hp|].
  intros a b Ha Hb Hkey.
  assert (Hnd' : NoDup (map ISnapshotBase.id data))
    by (rewrite Hdata; now apply NoDup_filter).
  apply (NoDup_map_inj_in ISnapshotBase.id data); try assumption.
  eapply indexOf_inj; [|exact Hkey].
  assert (H : In (ISnapshotBase.id a) (map ISnapshotBase.id data))
    by now apply in_map.
  rewrite Hdata in H. apply filter_In in H. tauto.
Qed.

Lemma delivered_ids (ids : list string) (data : list ISnapshotBase.t) :
  map ISnapshotBase.id data = ids ->
  map Snapshot.id (to_snapshots ids data) = ids.
Proof.
  intros Hdata. unfold to_snapshots. destruct data as [|s data].
  - rewrite map_map. cbn [placeholder Snapshot.id]. apply map_id.
  - rewrite map_map. exact Hdata.
Qed.

Lemma getFieldSnapshotBulk_order (d d' : Docs Ext) (collection : string)
  (ids : list string) (data : list ISnapshotBase.t) :
  NoDup (map FieldRow.id (field d)) -> Permutation (field d) (field d') ->
  getFieldSnapshotBulk d collection ids = Ok data ->
  sublist (map Snapshot.id (to_snapshots ids data)) ids
  /\ getFieldSnapshotBulk d' collection ids = Ok data.
Proof.
  intros Hnd Hperm. unfold getFieldSnapshotBulk.
  set (fields := prisma_field_findMany collection ids (field d)).
  set (fields' := prisma_field_findMany collection ids (field d')).
  pose proof (field_passes_Ok fields) as Hpass.
  pose proof (field_passes_Ok fields') as Hpass'.
  destruct (map_result createFieldInstanceByRaw fields) as [insts|e];
    [|discriminate].
  destruct (map_result _ (combine fields insts)) as [snaps|e]; [|discriminate].
  intros [= <-].
  assert (Hrel : Forall2 field_row_snapshot fields snaps)
    by now apply Hpass.
  destruct (@reader_order _ FieldRow.id field_row_snapshot ids fields fields' snaps)
    as [Hsub [snaps' [Hrel' Hsort]]]; try assumption.
  - intros r s [i [_ Hs]]. now apply field_snapshot_id in Hs.
  - now apply NoDup_ids_filter.
  - apply findMany_ids.
  - now apply Permutation_filter'.
  - split; [exact Hsub|].
    apply Hpass' in Hrel'.
    destruct (map_result createFieldInstanceByRaw fields') as [insts'|e];
      [|discriminate].
    rewrite Hrel'. now rewrite Hsort.
Qed.

Lemma getViewSnapshotBulk_order (d d' : Docs Ext) (collection : string)
  (ids : list string) (data : list ISnapshotBase.t) :
  NoDup (map ViewRow.id (view d)) -> Permutation (view d) (view d') ->
  getViewSnapshotBulk d collection ids = Ok data ->
  sublist (map Snapshot.id (to_snapshots ids data)) ids
  /\ getViewSnapshotBulk d' collection ids = Ok data.
Proof.
  intros Hnd Hperm. unfold getViewSnapshotBulk.
  set (views := prisma_view_findMany collection ids (view d)).
  set (views' := prisma_view_findMany collection ids (view d')).
  destruct (map_result view_snapshot views) as [snaps|e] eqn:Hsnaps;
    [|discriminate].
  intros [= <-]. apply map_result_Ok in Hsnaps.
  destruct (@reader_order _ ViewRow.id (fun r s => view_snapshot r = Ok s)
              ids views views' snaps)
    as [Hsub [snaps' [Hrel' Hsort]]]; try assumption.
  - intros r s Hs. now apply view_snapshot_id in Hs.
  - now apply NoDup_ids_filter.
  - apply findMany_ids.
  - now apply Permutation_filter'.
  - split; [exact Hsub|].
    apply map_result_Ok in Hrel'. rewrite Hrel'. now rewrite Hsort.
Qed.

(** Whatever a bulk read of field ids, or of view ids, returns, also
    for a request that repeats an id: the ids of the snapshots are the
    requested ids with the ones that gave no snapshot left out, and
    the answer is the same for every order in which the storage holds
    the rows. *)
Lemma stored_families_in_order (db : Db Ext) (collection : string)
  (ids : list string) (projection : option IProjection)
  (snaps : list Snapshot.t) :
  NoDup (map FieldRow.id (field (docs db))) ->
  NoDup (map ViewRow.id (view (docs db))) ->
  IdPrefix_Field <> IdPrefix_Record -> IdPrefix_View <> IdPrefix_Record ->
  ids <> [] ->
  Forall (fun id => slice3 id = IdPrefix_Field) ids
  \/ Forall (fun id => slice3 id = IdPrefix_View) ids ->
  getSnapshotBulk db collection ids projection = Ok snaps ->
  sublist (map Snapshot.id snaps) ids
  /\ (NoDup ids ->
      (forall id, In id ids -> In id (map Snapshot.id snaps)) ->
      map Snapshot.id snaps = ids)
  /\ (forall db', same_documents db db' ->
        getSnapshotBulk db' collection ids projection = Ok snaps).
Proof.
  intros HndF HndV HF HV Hne Hall Hget.
  destruct ids as [|id0 rest]; [congruence|]. clear Hne.
  set (ids := id0 :: rest) in *.
  assert (Hreader :
    (exists data, getFieldSnapshotBulk (docs db) collection ids = Ok data
                  /\ snaps = to_snapshots ids data
                  /\ forall db' : Db Ext,
                       getSnapshotBulk db' collection ids projection
                       = match getFieldSnapshotBulk (docs db') collection ids with
                         | Ok data' => Ok (to_snapshots ids data')
                         | Err e => Err e
                         end)
    \/ (exists data, getViewSnapshotBulk (docs db) collection ids = Ok data
                     /\ snaps = to_snapshots ids data
                     /\ forall db' : Db Ext,
                          getSnapshotBulk db' collection ids projection
                          = match getViewSnapshotBulk (docs db') collection ids with
                            | Ok data' => Ok (to_snapshots ids data')
                            | Err e => Err e
                            end)).
  { assert (Hfield : slice3 id0 = IdPrefix_Field ->
              Forall (fun id => slice3 id = slice3 id0) ids ->
              forall db' : Db Ext,
                getSnapshotBulk db' collection ids projection
                = match getFieldSnapshotBulk (docs db') collection ids with
                  | Ok data' => Ok (to_snapshots ids data')
                  | Err e => Err e
                  end).
    { intros H0 Hsame db'. unfold getSnapshotBulk, ids.
      fold ids. rewrite (same_type_not_found Hsame), H0.
      apply String.eqb_neq in HF. rewrite HF, String.eqb_refl. reflexivity. }
    destruct Hall as [Hall|Hall].
    - left. assert (H0 : slice3 id0 = IdPrefix_Field) by now inversion Hall.
      assert (Hsame : Forall (fun id => slice3 id = slice3 id0) ids)
        by (eapply Forall_impl; [|exact Hall]; cbv beta; congruence).
      rewrite (Hfield H0 Hsame db) in Hget.
      destruct (getFieldSnapshotBulk (docs db) collection ids) as [data|e];
        [|discriminate].
      exists data. injection Hget as <-. auto.
    - assert (H0 : slice3 id0 = IdPrefix_View) by now inversion Hall.
      assert (Hsame : Forall (fun id => slice3 id = slice3 id0) ids)
        by (eapply Forall_impl; [|exact Hall]; cbv beta; congruence).
      destruct (String.eqb_spec IdPrefix_View IdPrefix_Field) as [Heq|Hneq].
      + left. rewrite Heq in H0.
        rewrite (Hfield H0 Hsame db) in Hget.
        destruct (getFieldSnapshotBulk (docs db) collection ids) as [data|e];
          [|discriminate].
        exists data. injection Hget as <-. auto.
      + right.
        assert (Hview : forall db' : Db Ext,
                  getSnapshotBulk db' collection ids projection
                  = match getViewSnapshotBulk (docs db') collection ids with
                    | Ok data' => Ok (to_snapshots ids data')
                    | Err e => Err e
                    end).
        { intros db'. unfold getSnapshotBulk, ids. fold ids.
          rewrite (same_type_not_found Hsame), H0.
          apply String.eqb_neq in HV, Hneq.
          rewrite HV, Hneq, String.eqb_refl. reflexivity. }
        rewrite (Hview db) in Hget.
        destruct (getViewSnapshotBulk (docs db) collection ids) as [data|e];
          [|discriminate].
        exists data. injection Hget as <-. auto. }
  assert (Hsub : sublist (map Snapshot.id snaps) ids
                 /\ forall db', same_documents db db' ->
                      getSnapshotBulk db' collection ids projection = Ok snaps).
  { destruct Hreader as [[data [Hdata [-> Hdisp]]]|[data [Hdata [-> Hdisp]]]].
    - split.
      + now destruct (@getFieldSnapshotBulk_order (docs db) (docs db)
                        collection ids data HndF (Permutation_refl _) Hdata).
      + intros db' [Hf [Hv He]]. rewrite Hdisp.
        destruct (@getFieldSnapshotBulk_order (docs db) (docs db')
                    collection ids data HndF Hf Hdata) as [_ ->].
        reflexivity.
    - split.
      + now destruct (@getViewSnapshotBulk_order (docs db) (docs db)
                        collection ids data HndV (Permutation_refl _) Hdata).
      + intros db' [Hf [Hv He]]. rewrite Hdisp.
        destruct (@getViewSnapshotBulk_order (docs db) (docs db')
                    collection ids data HndV Hv Hdata) as [_ ->].
        reflexivity. }
  destruct Hsub as [Hsub Hindep].
  split; [exact Hsub|split; [|exact Hindep]].
  intros Hnd Hevery. apply sublist_all; assumption.
Qed.

(** *** The four families *)

Lemma getSnapshotBulk_family (db : Db Ext) (collection : string)
  (ids : list string) (projection : option IProjection) (prefix : string) :
  ids <> [] -> Forall (fun id => slice3 id = prefix) ids ->
  getSnapshotBulk db collection ids projection
  = match
      (if String.eqb prefix IdPrefix_Record then
         getRecordSnapshotBulk (docs db) collection ids
           (record_projection projection)
       else if String.eqb prefix IdPrefix_Field then
         getFieldSnapshotBulk (docs db) collection ids
       else if String.eqb prefix IdPrefix_View then
         getViewSnapshotBulk (docs db) collection ids
       else if String.eqb prefix IdPrefix_Aggregate then
         getAggregateBulk (docs db) collection ids
       else Ok [])
    with
    | Err e => Err e
    | Ok snapshotData => Ok (to_snapshots ids snapshotData)
    end.
Proof.
  intros Hne Hall. destruct ids as [|id0 rest]; [congruence|].
  assert (H0 : slice3 id0 = prefix) by now inversion Hall.
  unfold getSnapshotBulk.
  rewrite same_type_not_found
    by (eapply Forall_impl; [|exact Hall]; cbv beta; congruence).
  now rewrite H0.
Qed.

Lemma getFieldSnapshotBulk_requested (d : Docs Ext) (collection : string)
  (ids : list string) (data : list ISnapshotBase.t) :
  NoDup (map FieldRow.id (field d)) -> NoDup ids ->
  Forall2 field_row_snapshot
    (requested_rows FieldRow.tableId FieldRow.id (field d) collection ids)
    data ->
  getFieldSnapshotBulk d collection ids = Ok data.
Proof.
  intros Hnd Hids Hrel.
  destruct (@request_order _ FieldRow.tableId FieldRow.id field_row_snapshot
              collection ids (field d) data) as [_ [snaps [Hsel Hsort]]];
    try assumption.
  { intros r s [i [_ Hs]]. now apply field_snapshot_id in Hs. }
  unfold getFieldSnapshotBulk.
  fold (prisma_field_findMany collection ids (field d)) in Hsel.
  apply field_passes_Ok in Hsel.
  destruct (map_result createFieldInstanceByRaw
              (prisma_field_findMany collection ids (field d)))
    as [insts|e]; [|discriminate].
  rewrite Hsel. now rewrite Hsort.
Qed.

Lemma getViewSnapshotBulk_requested (d : Docs Ext) (collection : string)
  (ids : list string) (data : list ISnapshotBase.t) :
  NoDup (map ViewRow.id (view d)) -> NoDup ids ->
  Forall2 (fun r s => view_snapshot r = Ok s)
    (requested_rows ViewRow.tableId ViewRow.id (view d) collection ids)
    data ->
  getViewSnapshotBulk d collection ids = Ok data.
Proof.
  intros Hnd Hids Hrel.
  destruct (@request_order _ ViewRow.tableId ViewRow.id
              (fun r s => view_snapshot r = Ok s)
              collection ids (view d) data) as [_ [snaps [Hsel Hsort]]];
    try assumption.
  { intros r s Hs. now apply view_snapshot_id in Hs. }
  unfold getViewSnapshotBulk.
  fold (prisma_view_findMany collection ids (view d)) in Hsel.
  apply map_result_Ok in Hsel. rewrite Hsel. now rewrite Hsort.
Qed.

Lemma aggregate_ids (ids : list string) (counts : list Z) :
  length ids = length counts ->
  map ISnapshotBase.id
    (map (fun ic => aggregate_snapshot (fst ic) (snd ic)) (combine ids counts))
  = ids.
Proof.
  revert counts. induction ids as [|id ids IH]; intros [|n counts] Hlen;
    try discriminate; [reflexivity|].
  simpl. f_equal. apply IH. now injection Hlen.
Qed.

(** C2. A bulk read of ids of one family returns its snapshots in the
    order of the ids of the request, whatever the order in which the
    storage holds the rows.  For distinct ids of fields, or of views,
    whose rows can be read, the answer is the snapshots of the rows
    the table has for the request, taken in the order of the request:
    their ids are the requested ids that are stored, all of them when
    all are stored, and one placeholder per id stands for a request of
    which nothing is stored.  For ids of aggregates the answer has one
    snapshot per id, in the order of the ids.  For ids of records the
    answer is the answer of the record service in the order the
    service gives it, which the adapter does not touch.  A request
    that repeats an id still gets its snapshots in the order of the
    request. *)
Theorem getSnapshotBulk_order (db : Db Ext) (collection : string)
  (ids : list string) (projection : option IProjection) :
  ids <> [] ->
  NoDup (map FieldRow.id (field (docs db))) ->
  NoDup (map ViewRow.id (view (docs db))) ->
  IdPrefix_Field <> IdPrefix_Record ->
  IdPrefix_View <> IdPrefix_Record -> IdPrefix_View <> IdPrefix_Field ->
  IdPrefix_Aggregate <> IdPrefix_Record ->
  IdPrefix_Aggregate <> IdPrefix_Field ->
  IdPrefix_Aggregate <> IdPrefix_View ->
  (Forall (fun id => slice3 id = IdPrefix_Field) ids -> NoDup ids ->
   forall data,
     Forall2 field_row_snapshot (requested_fields db collection ids) data ->
     (forall db', same_documents db db' ->
        getSnapshotBulk db' collection ids projection
        = Ok (to_snapshots ids data))
     /\ map ISnapshotBase.id data
        = filter (is_stored FieldRow.tableId FieldRow.id (field (docs db))
                    collection) ids
     /\ (Forall (fun id => is_stored FieldRow.tableId FieldRow.id
                             (field (docs db)) collection id = true) ids ->
         map Snapshot.id (to_snapshots ids data) = ids))
  /\ (Forall (fun id => slice3 id = IdPrefix_View) ids -> NoDup ids ->
      forall data,
        Forall2 (fun r s => view_snapshot r = Ok s)
          (requested_views db collection ids) data ->
        (forall db', same_documents db db' ->
           getSnapshotBulk db' collection ids projection
           = Ok (to_snapshots ids data))
        /\ map ISnapshotBase.id data
           = filter (is_stored ViewRow.tableId ViewRow.id (view (docs db))
                       collection) ids
        /\ (Forall (fun id => is_stored ViewRow.tableId ViewRow.id
                                (view (docs db)) collection id = true) ids ->
            map Snapshot.id (to_snapshots ids data) = ids))
  /\ (Forall (fun id => slice3 id = IdPrefix_Aggregate) ids ->
      forall counts,
        Forall2 (fun id n => aggregate_result (docs db) collection id = Ok n)
          ids counts ->
        let data := map (fun ic => aggregate_snapshot (fst ic) (snd ic))
                      (combine ids counts) in
        getSnapshotBulk db collection ids projection
        = Ok (to_snapshots ids data)
        /\ map Snapshot.id (to_snapshots ids data) = ids)
  /\ (Forall (fun id => slice3 id = IdPrefix_Record) ids ->
      forall data,
        recordService_getRecordSnapshotBulk (docs db) collection ids
          (record_projection projection) = Ok data ->
        getSnapshotBulk db collection ids projection
        = Ok (to_snapshots ids data)
        /\ (map ISnapshotBase.id data = ids ->
            map Snapshot.id (to_snapshots ids data) = ids))
  /\ (Forall (fun id => slice3 id = IdPrefix_Field) ids
      \/ Forall (fun id => slice3 id = IdPrefix_View) ids ->
      forall snaps,
        getSnapshotBulk db collection ids projection = Ok snaps ->
        sublist (map Snapshot.id snaps) ids).
Proof.
  intros Hne HndF HndV HFR HVR HVF HAR HAF HAV.
  apply String.eqb_neq in HFR, HVR, HVF, HAR, HAF, HAV.
  repeat apply conj.
  - intros Hall Hids data Hrel. unfold requested_fields in Hrel.
    pose proof (getFieldSnapshotBulk_requested (docs db) collection HndF Hids
                  Hrel) as Hread.
    destruct (@request_order _ FieldRow.tableId FieldRow.id field_row_snapshot
                collection ids (field (docs db)) data) as [Hdata _];
      try assumption.
    { intros r s [i [_ Hs]]. now apply field_snapshot_id in Hs. }
    repeat apply conj.
    + intros db' [Hf _].
      rewrite (getSnapshotBulk_family db' collection projection Hne Hall).
      rewrite HFR, String.eqb_refl.
      destruct (@getFieldSnapshotBulk_order (docs db) (docs db') collection
                  ids data HndF Hf Hread) as [_ ->]. reflexivity.
    + exact Hdata.
    + intros Hstored. apply delivered_ids. rewrite Hdata.
      now apply all_stored.
  - intros Hall Hids data Hrel. unfold requested_views in Hrel.
    pose proof (getViewSnapshotBulk_requested (docs db) collection HndV Hids
                  Hrel) as Hread.
    destruct (@request_order _ ViewRow.tableId ViewRow.id
                (fun r s => view_snapshot r = Ok s)
                collection ids (view (docs db)) data) as [Hdata _];
      try assumption.
    { intros r s Hs. now apply view_snapshot_id in Hs. }
    repeat apply conj.
    + intros db' [_ [Hv _]].
      rewrite (getSnapshotBulk_family db' collection projection Hne Hall).
      rewrite HVR, HVF, String.eqb_refl.
      destruct (@getViewSnapshotBulk_order (docs db) (docs db') collection
                  ids data HndV Hv Hread) as [_ ->]. reflexivity.
    + exact Hdata.
    + intros Hstored. apply delivered_ids. rewrite Hdata.
      now apply all_stored.
  - intros Hall counts Hcounts data.
    assert (Hlen : length ids = length counts)
      by (clear - Hcounts; induction Hcounts; simpl; congruence).
    split.
    + rewrite (getSnapshotBulk_family db collection projection Hne Hall).
      rewrite HAR, HAF, HAV, String.eqb_refl.
      unfold getAggregateBulk.
      apply map_result_Ok in Hcounts. now rewrite Hcounts.
    + apply delivered_ids. now apply aggregate_ids.
  - intros Hall data Hdata. split.
    + rewrite (getSnapshotBulk_family db collection projection Hne Hall).
      rewrite String.eqb_refl. unfold getRecordSnapshotBulk.
      now rewrite Hdata.
    + apply delivered_ids.
  - intros Hall snaps Hget.
    apply String.eqb_neq in HFR, HVR.
    now destruct (stored_families_in_order db collection projection
                    HndF HndV HFR HVR Hne Hall Hget) as [Hsub _].
Qed.

End Readers.

(** ** Per-view metadata of a field *)

Lemma obj_get_set_same (props : list (string * json)) (k : string) (v : json) :
  obj_get (obj_set props k v) k = Some v.
Proof.
  induction props as [|[k' v'] props IH]; simpl.
  - now rewrite String.eqb_refl.
  - destruct (String.eqb k' k) eqn:E; simpl; rewrite E; [reflexivity | exact IH].
Qed.

Lemma obj_get_set_other (props : list (string * json)) (k k' : string) (v : json) :
  k' <> k -> obj_get (obj_set props k v) k' = obj_get props k'.
Proof.
  intros Hne. induction props as [|[k0 v0] props IH]; simpl.
  - apply String.eqb_neq in Hne. rewrite String.eqb_sym in Hne. now rewrite Hne.
  - destruct (String.eqb_spec k0 k) as [->|Hk]; simpl.
    + apply String.eqb_neq in Hne. rewrite String.eqb_sym in Hne.
      now rewrite Hne.
    + destruct (String.eqb k0 k'); [reflexivity | exact IH].
Qed.

Lemma obj_get_In (props : list (string * json)) (k : string) (v : json) :
  obj_get props k = Some v -> In (k, v) props.
Proof.
  induction props as [|[k' v'] props IH]; simpl; [discriminate|].
  destruct (String.eqb_spec k' k) as [->|_].
  - intros [= ->]; now left.
  - intros H; right; now apply IH.
Qed.

Lemma obj_set_get_same (props : list (string * json)) (k : string) (v : json) :
  obj_get props k = Some v -> obj_set props k v = props.
Proof.
  induction props as [|[k' v'] props IH]; simpl; [discriminate|].
  destruct (String.eqb k' k).
  - now intros [= ->].
  - intros H. now rewrite (IH H).
Qed.

Lemma assign_property_sets (props : list (string * json)) (k : string)
  (v : json) :
  k <> "__proto__" \/ has_key props k = true ->
  assign_property props k v = obj_set props k v.
Proof.
  intros Hk. unfold assign_property.
  destruct Hk as [Hk|Hk].
  - now rewrite (proj2 (String.eqb_neq _ _) Hk).
  - now rewrite Hk, andb_false_r.
Qed.

Lemma assign_property_own (props : list (string * json)) (k : string)
  (v : json) :
  k <> "__proto__" -> assign_property props k v = obj_set props k v.
Proof.
  intros Hk. unfold assign_property.
  now rewrite (proj2 (String.eqb_neq _ _) Hk).
Qed.

Lemma assign_property_wf (props : list (string * json)) (k : string)
  (v : json) :
  wf (JObj props) -> wf v -> wf (JObj (assign_property props k v)).
Proof.
  intros Hwf Hv. unfold assign_property.
  destruct (String.eqb k "__proto__" && negb (has_key props k));
    [exact Hwf|].
  apply JSONFacts.wf_JObj in Hwf. destruct Hwf as [Hnd Hall].
  apply JSONFacts.wf_JObj. split.
  - now apply JSONRoundTrip.obj_set_NoDup.
  - now apply JSONRoundTrip.obj_set_wf.
Qed.

Section AssignLeaf.

Context {engine : Engine}.

(** The assignment on a view that is an object. *)
Lemma assign_leaf_entry (views entry : list (string * json))
  (viewId key : string) (value : json) :
  obj_get views viewId = Some (JObj entry) ->
  assign_leaf (JObj views) viewId key value
  = Ok (JObj (obj_set views viewId (JObj (assign_property entry key value)))).
Proof. intros Hget. unfold assign_leaf. now rewrite Hget. Qed.

(** The assignment to a leaf of such a view keeps a well-formed column
    well formed. *)
Lemma assign_leaf_wf (columnMeta : json) (viewId key : string)
  (value columnMeta' : json) (entry : list (string * json)) :
  wf columnMeta -> wf value ->
  entry_of columnMeta viewId = Some (JObj entry) ->
  assign_leaf columnMeta viewId key value = Ok columnMeta' -> wf columnMeta'.
Proof.
  intros Hwf Hv Hentry.
  destruct columnMeta as [ | | | | |views]; try discriminate Hentry.
  simpl in Hentry. erewrite assign_leaf_entry by exact Hentry.
  intros [= <-].
  apply JSONFacts.wf_JObj in Hwf. destruct Hwf as [Hnd Hall].
  apply JSONFacts.wf_JObj. split.
  - now apply JSONRoundTrip.obj_set_NoDup.
  - apply JSONRoundTrip.obj_set_wf; [exact Hall|].
    apply assign_property_wf; [|exact Hv].
    apply obj_get_In in Hentry. rewrite Forall_forall in Hall.
    exact (Hall _ Hentry).
Qed.

End AssignLeaf.

Lemma find_field_id (id : string) (rows : list FieldRow.t) (r : FieldRow.t) :
  find_field id rows = Some r -> FieldRow.id r = id /\ In r rows.
Proof.
  induction rows as [|x rows IH]; simpl; [discriminate|].
  destruct (String.eqb_spec (FieldRow.id x) id) as [Hx|_].
  - intros [= <-]. split; [exact Hx | now left].
  - intros H. destruct (IH H). split; [assumption | now right].
Qed.

(** With the id as primary key, [update] rewrites the one row of the
    id and no other. *)
Lemma update_field_map (id : string) (f : FieldRow.t -> FieldRow.t)
  (rows : list FieldRow.t) (r : FieldRow.t) :
  NoDup (map FieldRow.id rows) -> find_field id rows = Some r ->
  update_field id f rows
  = Some (map (fun x => if String.eqb (FieldRow.id x) id then f r else x) rows).
Proof.
  induction rows as [|x rows IH]; simpl; [discriminate|].
  intros Hnd. inversion Hnd as [|? ? Hnin Hnd']; subst.
  destruct (String.eqb_spec (FieldRow.id x) id) as [Hx|Hx].
  - intros [= <-]. f_equal. f_equal.
    rewrite <- (map_id rows) at 1. apply map_ext_in.
    intros y Hy. destruct (String.eqb_spec (FieldRow.id y) id) as [Hy'|_];
      [|reflexivity].
    exfalso. apply Hnin. rewrite Hx, <- Hy'. now apply in_map.
  - intros H. now rewrite (IH Hnd' H).
Qed.

Lemma findMany_none (tableId id : string) (rows : list FieldRow.t)
  (r' : FieldRow.t) :
  ~ In id (map FieldRow.id rows) ->
  prisma_field_findMany tableId [id]
    (map (fun x => if String.eqb (FieldRow.id x) id then r' else x) rows)
  = [].
Proof.
  unfold prisma_field_findMany.
  induction rows as [|y rows IH]; simpl; [reflexivity|].
  intros Hnin.
  destruct (String.eqb_spec (FieldRow.id y) id) as [Hy|Hy]; [tauto|].
  rewrite (proj2 (String.eqb_neq _ _) Hy), andb_false_r.
  apply IH. tauto.
Qed.

Lemma findMany_one (tableId id : string) (rows : list FieldRow.t)
  (r' : FieldRow.t) :
  NoDup (map FieldRow.id rows) -> In id (map FieldRow.id rows) ->
  FieldRow.id r' = id -> FieldRow.tableId r' = tableId ->
  prisma_field_findMany tableId [id]
    (map (fun x => if String.eqb (FieldRow.id x) id then r' else x) rows)
  = [r'].
Proof.
  intros Hnd Hin Hid Htid.
  induction rows as [|x rows IH]; simpl in *; [tauto|].
  inversion Hnd as [|? ? Hnin Hnd']; subst.
  destruct (String.eqb_spec (FieldRow.id x) (FieldRow.id r')) as [Hx|Hx].
  - rewrite !String.eqb_refl. cbn [andb orb]. f_equal.
    apply findMany_none. now rewrite <- Hx.
  - rewrite (proj2 (String.eqb_neq _ _) Hx). cbn [orb]. rewrite andb_false_r.
    apply IH; [exact Hnd' | destruct Hin; [contradiction | assumption]].
Qed.

Section ColumnMeta.

Context {Ext : Type} {core : CoreLib} {svc : Services Ext}
        {engine : Engine}.

(** C5, as the code has it.  On a field whose stored [columnMeta] has
    an object under [viewId], [setColumnMeta] with one context at
    [version] rewrites the row of the field and nothing else: the row
    keeps its id, table, name and other columns and gets the version
    [version].  When [metaKey] is not [__proto__], or names a property
    the object has, the [columnMeta] written is the text of the old
    value with the leaf [viewId]/[metaKey] set to [newMetaValue],
    every other entry and leaf as before, and a read of the field
    snapshot afterwards returns this version and this value.  When
    [metaKey] is [__proto__] and the object has no such property, no
    leaf is stored: the [columnMeta] written is the text of the old
    value. *)
Theorem setColumnMeta_sets_leaf (d : Docs Ext) (version : Z)
  (fieldId metaKey viewId : string) (newMetaValue : json)
  (row : FieldRow.t) (columnMeta : json) (entry : list (string * json)) :
  NoDup (map FieldRow.id (field d)) ->
  find_field fieldId (field d) = Some row ->
  JSON.parse (FieldRow.columnMeta row) = Ok columnMeta ->
  entry_of columnMeta viewId = Some (JObj entry) ->
  wf newMetaValue ->
  (metaKey <> "__proto__" \/ has_key entry metaKey = true ->
   exists columnMeta',
     let row' := FieldRow.mk (FieldRow.id row) (FieldRow.tableId row)
                   (FieldRow.name row) version (JSON.stringify columnMeta')
                   (FieldRow.attrs row) in
     let d' := mkDocs
                 (map (fun r => if String.eqb (FieldRow.id r) fieldId
                                then row' else r) (field d))
                 (view d) (ext d) in
     setColumnMeta version fieldId
       [ISetColumnMetaOpContext.mk metaKey viewId newMetaValue] d
     = (Ok tt, d')
     /\ leaf columnMeta' viewId metaKey = Some newMetaValue
     /\ (forall vw k, (vw, k) <> (viewId, metaKey) ->
           leaf columnMeta' vw k = leaf columnMeta vw k)
     /\ (forall vw, vw <> viewId ->
           entry_of columnMeta' vw = entry_of columnMeta vw)
     /\ (forall instance,
           createFieldInstanceByRaw row' = Ok instance ->
           getFieldSnapshotBulk d' (FieldRow.tableId row) [fieldId]
           = Ok [ISnapshotBase.mk fieldId version "json0"
                   (FieldData instance columnMeta')]))
  /\ (metaKey = "__proto__" -> has_key entry metaKey = false ->
      let row' := FieldRow.mk (FieldRow.id row) (FieldRow.tableId row)
                    (FieldRow.name row) version (JSON.stringify columnMeta)
                    (FieldRow.attrs row) in
      setColumnMeta version fieldId
        [ISetColumnMetaOpContext.mk metaKey viewId newMetaValue] d
      = (Ok tt,
         mkDocs
           (map (fun r => if String.eqb (FieldRow.id r) fieldId
                          then row' else r) (field d))
           (view d) (ext d))
      /\ leaf columnMeta viewId metaKey = None).
Proof.
  intros Hnd Hfind Hparse Hentry Hv.
  pose proof Hentry as Hentry0.
  destruct columnMeta as [ | | | | |views]; try discriminate Hentry.
  simpl in Hentry.
  assert (Hrun : forall columnMeta',
             assign_leaf (JObj views) viewId metaKey newMetaValue
             = Ok columnMeta' ->
             setColumnMeta version fieldId
               [ISetColumnMetaOpContext.mk metaKey viewId newMetaValue] d
             = (Ok tt,
                mkDocs
                  (map (fun r =>
                          if String.eqb (FieldRow.id r) fieldId
                          then FieldRow.mk (FieldRow.id row)
                                 (FieldRow.tableId row) (FieldRow.name row)
                                 version (JSON.stringify columnMeta')
                                 (FieldRow.attrs row)
                          else r) (field d))
                  (view d) (ext d))).
  { intros columnMeta' Hassign.
    unfold setColumnMeta, for_each, bind, prisma_field_findUniqueOrThrow, lift,
      prisma_field_update, ret.
    cbn [ISetColumnMetaOpContext.metaKey ISetColumnMetaOpContext.viewId
         ISetColumnMetaOpContext.newMetaValue].
    rewrite Hfind, Hparse, Hassign.
    rewrite (@update_field_map fieldId _ (field d) row Hnd Hfind).
    reflexivity. }
  split.
  - intros Hkey.
    set (columnMeta' :=
           JObj (obj_set views viewId
                   (JObj (obj_set entry metaKey newMetaValue)))).
    assert (Hassign : assign_leaf (JObj views) viewId metaKey newMetaValue
                      = Ok columnMeta').
    { erewrite assign_leaf_entry by exact Hentry.
      now rewrite (assign_property_sets _ _ Hkey). }
    assert (Hwf' : wf columnMeta').
    { eapply assign_leaf_wf; [|exact Hv|exact Hentry0|exact Hassign].
      eapply JSONRoundTrip.parse_wf; exact Hparse. }
    destruct (@find_field_id _ _ _ Hfind) as [Hid Hin].
    exists columnMeta'. cbv zeta.
    set (row' := FieldRow.mk _ _ _ _ _ _).
    repeat split.
    + now apply Hrun.
    + unfold columnMeta', leaf. rewrite obj_get_set_same.
      apply obj_get_set_same.
    + intros vw k Hne. unfold columnMeta', leaf.
      destruct (String.eqb_spec vw viewId) as [->|Hvw].
      * rewrite obj_get_set_same, Hentry. apply obj_get_set_other.
        intros ->; now apply Hne.
      * now rewrite (@obj_get_set_other views viewId vw _ Hvw).
    + intros vw Hvw. unfold columnMeta'; simpl. now apply obj_get_set_other.
    + intros instance Hinst. unfold getFieldSnapshotBulk. cbn [field].
      rewrite findMany_one; try assumption; try reflexivity.
      * cbn [map_result]. rewrite Hinst. cbn [combine map_result fst snd].
        unfold field_snapshot. cbn [FieldRow.columnMeta row'].
        unfold row' at 1. cbn [FieldRow.columnMeta].
        rewrite (@JSONRoundTrip.parse_stringify _ Hwf').
        cbn [sort_by insert_sorted]. unfold row'.
        cbn [FieldRow.id FieldRow.version]. now rewrite Hid.
      * rewrite <- Hid. now apply in_map.
  - intros Hkey Hown. cbv zeta. split.
    + apply Hrun. erewrite assign_leaf_entry by exact Hentry.
      unfold assign_property. rewrite Hown, Hkey.
      change (String.eqb "__proto__" "__proto__" && negb false) with true.
      cbv iota. now rewrite (@obj_set_get_same _ _ _ Hentry).
    + unfold leaf. rewrite Hentry. unfold has_key in Hown.
      now destruct (obj_get entry metaKey).
Qed.

End ColumnMeta.

(** ** The configuration of a view *)

Lemma parse_error (text : string) (e : error) :
  JSON.parse text = Err e -> e = SyntaxError.
Proof.
  unfold JSON.parse. destruct (parse_value _ text) as [[j rest]|].
  - destruct (is_empty (skip_ws rest)); [discriminate | now intros [= <-]].
  - now intros [= <-].
Qed.

(** No amount of fuel makes a value of the empty text. *)
Lemma parse_value_empty (fuel : nat) : parse_value fuel EmptyString = None.
Proof. destruct fuel; reflexivity. Qed.

Lemma parse_nullable_decodes (column : option string) (value : json) :
  decodes column value -> JSON.parse_nullable column = Ok value.
Proof.
  intros [[-> ->]|[Hwf ->]]; [reflexivity|].
  now apply JSONRoundTrip.parse_stringify.
Qed.

Lemma view_snapshot_error (row : ViewRow.t) (e : error) :
  view_snapshot row = Err e -> e = SyntaxError.
Proof.
  unfold view_snapshot, JSON.parse_nullable.
  repeat match goal with
         | |- context [JSON.parse ?t] =>
             let H := fresh "H" in
             destruct (JSON.parse t) eqn:H;
             [|apply parse_error in H; intros [= <-]; exact H]
         end.
  discriminate.
Qed.

Lemma map_result_error {A B} (f : A -> result B) (l : list A) (x : A) :
  (forall y e, f y = Err e -> e = SyntaxError) ->
  In x l -> f x = Err SyntaxError -> map_result f l = Err SyntaxError.
Proof.
  intros Hkind. induction l as [|y l IH]; simpl; [tauto|].
  intros Hin Hx. destruct (f y) as [b|e] eqn:Hy.
  - destruct Hin as [->|Hin]; [congruence|].
    now rewrite (IH Hin Hx).
  - now rewrite (Hkind y e Hy).
Qed.

Section Views.

Context {Ext : Type} {core : CoreLib} {svc : Services Ext}
        {engine : Engine}.

(** C9, as the code has it.  The four configuration columns of a view
    row are parsed one by one.  A column that is absent decodes to
    [null] and a column that holds the text of a value decodes to that
    value, and then the snapshot of the row is built without an error.
    A column that holds the empty string is not JSON: the snapshot of
    the row is a [SyntaxError], and so is every bulk read that selects
    the row. *)
Theorem view_snapshot_blobs (row : ViewRow.t) :
  (forall filter sort group options,
      decodes (ViewRow.filter row) filter ->
      decodes (ViewRow.sort row) sort ->
      decodes (ViewRow.group row) group ->
      decodes (ViewRow.options row) options ->
      view_snapshot row
      = Ok (ISnapshotBase.mk (ViewRow.id row) (ViewRow.version row) "json0"
              (ViewData
                 (ViewVo.mk row (ViewRow.type row)
                    (or_undefined (ViewRow.description row))
                    filter sort group options)
                 (ViewRow.order row))))
  /\ (has_empty_blob row ->
      view_snapshot row = Err SyntaxError
      /\ forall (d : Docs Ext) tableId ids,
          In row (view d) -> ViewRow.tableId row = tableId ->
          In (ViewRow.id row) ids ->
          getViewSnapshotBulk d tableId ids = Err SyntaxError).
Proof.
  split.
  - intros f s g o Hf Hs Hg Ho. unfold view_snapshot.
    now rewrite (parse_nullable_decodes Hf), (parse_nullable_decodes Hs),
      (parse_nullable_decodes Hg), (parse_nullable_decodes Ho).
  - intros Hempty.
    assert (Herr : view_snapshot row = Err SyntaxError).
    { destruct (view_snapshot row) as [s|e] eqn:Hrow;
        [|now rewrite (view_snapshot_error _ Hrow)].
      exfalso. unfold view_snapshot in Hrow.
      destruct Hempty as [H|[H|[H|H]]]; rewrite H in Hrow;
        repeat match type of Hrow with
               | context [JSON.parse_nullable (Some EmptyString)] =>
                   change (JSON.parse_nullable (Some EmptyString))
                     with (@Err json SyntaxError) in Hrow
               | context [JSON.parse_nullable ?c] =>
                   destruct (JSON.parse_nullable c)
               end; discriminate. }
    split; [exact Herr|].
    intros d tableId ids Hin Htid Hid. unfold getViewSnapshotBulk.
    rewrite (@map_result_error _ _ view_snapshot _ row);
      [reflexivity | apply view_snapshot_error | | exact Herr].
    unfold prisma_view_findMany. apply filter_In. split; [exact Hin|].
    rewrite Htid, String.eqb_refl. simpl.
    apply existsb_exists. exists (ViewRow.id row).
    split; [exact Hid | apply String.eqb_refl].
Qed.

End Views.

(** * The properties on concrete data *)

(** The ordering theorem on the two stored fields, requested in the
    order A, B while the storage holds B, A. *)
Lemma getSnapshotBulk_order_witness :
  map FieldRow.id (field (docs example_db)) = ["fldB"; "fldA"]
  /\ getSnapshotBulk (core:=sample_core) (svc:=sample_services)
       example_db "tblA" ["fldA"; "fldB"] None
     = Ok (to_snapshots ["fldA"; "fldB"] example_field_data)
  /\ map Snapshot.id (to_snapshots ["fldA"; "fldB"] example_field_data)
     = ["fldA"; "fldB"].
Proof.
  split; [reflexivity|].
  assert (Hnd : forall l : list string,
             l = ["fldA"; "fldB"] \/ l = ["fldB"; "fldA"]
             \/ l = ["viw1"; "viw2"] -> NoDup l).
  { intros l [->|[->| ->]]; repeat constructor; simpl; intuition discriminate. }
  destruct (@getSnapshotBulk_order unit sample_core sample_services
              example_db "tblA" ["fldA"; "fldB"] None) as [Hfields _];
    try discriminate.
  - apply Hnd. right; now left.
  - apply Hnd. right; now right.
  - destruct (Hfields ltac:(repeat constructor) (Hnd _ (or_introl eq_refl))
                example_field_data) as [Hread [_ Hids]].
    + repeat constructor; eexists; split; reflexivity.
    + split.
      * apply Hread. repeat split; apply Permutation_refl.
      * apply Hids. repeat constructor.
Defined.

(** An id of a field goes to the field service; an id whose prefix is
    none of the known ones creates nothing and fails nowhere. *)
Lemma unknown_prefix_falls_through_witness :
  createSnapshot (core:=sample_core) (svc:=sample_services)
    "tblA" "fldC" (JObj [])
  = fieldService_addField (Services:=sample_services) "tblA" (JObj [])
  /\ createSnapshot (core:=sample_core) (svc:=sample_services)
       "tblA" "xyz0001" (JObj []) (docs example_db)
     = (Ok tt, docs example_db).
Proof.
  pose proof (proj1 (@unknown_prefix_falls_through unit sample_core
                       sample_services sample_engine)) as H.
  split.
  - pose proof (H "tblA" "fldC" (JObj [])) as Hfield. cbv zeta in Hfield.
    destruct Hfield as [_ [_ [Hfield _]]].
    apply Hfield; [discriminate | discriminate | reflexivity].
  - pose proof (H "tblA" "xyz0001" (JObj [])) as Hnone. cbv zeta in Hnone.
    destruct Hnone as [_ [_ [_ [_ Hnone]]]].
    apply Hnone; discriminate.
Defined.

(** C4 does not hold as stated: a create op on an id of no known family
    is committed, with its log row and no document, and no error is
    raised. *)
Lemma unknown_prefix_commit_counterexample :
  slice3 "xyz0001" = "xyz"
  /\ fst (commit (core:=sample_core) (svc:=sample_services)
    (engine:=sample_engine)
            "tblA" "xyz0001" sample_create_op (example_snapshot 1) example_db)
     = Ok true
  /\ docs (snd (commit (core:=sample_core) (svc:=sample_services)
    (engine:=sample_engine)
                  "tblA" "xyz0001" sample_create_op (example_snapshot 1)
                  example_db))
     = docs example_db
  /\ fst (createSnapshot (core:=sample_core) (svc:=sample_services)
            "tblA" "xyz0001" (JObj []) (docs example_db))
     = Ok tt.
Proof. repeat split. Qed.

(** Setting the width of a field in one view. *)
Lemma setColumnMeta_sets_leaf_witness :
  leaf example_columnMeta "viw1" "width" = Some (JNum "100")
  /\ exists columnMeta',
      leaf columnMeta' "viw1" "width" = Some (JNum "120")
      /\ leaf columnMeta' "viw1" "hidden" = Some (JBool false)
      /\ leaf columnMeta' "viw2" "width" = Some (JNum "80").
Proof.
  split; [reflexivity|].
  destruct (@setColumnMeta_sets_leaf unit sample_core sample_engine
              (docs example_db) 5 "fldB" "width" "viw1" (JNum "120")
              (sample_field "fldB" (JSON.stringify example_columnMeta))
              example_columnMeta [("width", JNum "100"); ("hidden", JBool false)])
    as [Hsets _].
  - repeat constructor; simpl; intuition discriminate.
  - reflexivity.
  - reflexivity.
  - reflexivity.
  - reflexivity.
  - destruct Hsets as [columnMeta' [_ [Hset [Hother _]]]];
      [left; discriminate|].
    exists columnMeta'. split; [exact Hset|]. split.
    + rewrite Hother; [reflexivity | discriminate].
    + rewrite Hother; [reflexivity | discriminate].
Defined.

(** C5 does not hold as stated: a context whose [metaKey] is
    [__proto__], on a view that is an object without such a property,
    is applied without an error and sets the version, and the column
    it writes back is the old one, with no leaf under that key. *)
Lemma setColumnMeta_proto_counterexample :
  entry_of example_columnMeta "viw1"
  = Some (JObj [("width", JNum "100"); ("hidden", JBool false)])
  /\ setColumnMeta (engine:=sample_engine) 5 "fldB"
       [ISetColumnMetaOpContext.mk "__proto__" "viw1" (JNum "120")]
       (docs example_db)
     = (Ok tt,
        mkDocs
          [FieldRow.mk "fldB" "tblA" "Name" 5
             (JSON.stringify example_columnMeta) [];
           sample_field "fldA" (JSON.stringify (JObj []))]
          (view (docs example_db)) (ext (docs example_db)))
  /\ leaf example_columnMeta "viw1" "__proto__" = None.
Proof. repeat split. Qed.

(** The aggregate [Average] is refused by name. *)
Lemma getAggregateBulk_dispatch_witness :
  aggregateKey_of "aggAverage_viw1" = "aggAverage"
  /\ getAggregateBulk (core:=sample_core) (svc:=sample_services)
       (docs example_db) "tblA" ["aggAverage_viw1"]
     = Err (Error "aggregate aggAverage not implemented").
Proof.
  split; [reflexivity|].
  apply (proj1 (@getAggregateBulk_dispatch unit sample_core sample_services
                  example_db "tblA")).
  discriminate.
Defined.

(** A create, a delete and an edit with an empty list of descriptors
    are all polled. *)
Lemma skipPoll_create_delete_edit_witness :
  skipPoll "tblA" "rec1" sample_create_op = false
  /\ skipPoll "tblA" "rec1" sample_delete_op = false.
Proof.
  split.
  - apply (proj1 (skipPoll_create_delete_edit "tblA" "rec1" sample_create_op)).
    left; discriminate.
  - apply (proj1 (skipPoll_create_delete_edit "tblA" "rec1" sample_delete_op)).
    right; reflexivity.
Defined.

(** A projection that names a field and carries [$submit]. *)
Lemma getSnapshotBulk_record_projection_witness :
  projection_get example_submit_projection "$submit" = Some true
  /\ getSnapshotBulk (core:=sample_core) (svc:=sample_services)
       example_db "tblA" ["rec1"; "rec2"] (Some example_submit_projection)
     = record_read (svc:=sample_services) example_db "tblA" ["rec1"; "rec2"] None.
Proof.
  split; [reflexivity|].
  apply (proj1 (@getSnapshotBulk_record_projection unit sample_core
                  sample_services example_db "tblA" ["rec1"; "rec2"]
                  (Some example_submit_projection)
                  ltac:(discriminate) ltac:(repeat constructor))).
  exists example_submit_projection. split; reflexivity.
Defined.

(** A view with no stored configuration decodes to four [null]s. *)
Lemma view_snapshot_blobs_witness :
  decodes (ViewRow.filter (sample_view "viw1" None)) JNull
  /\ is_ok (view_snapshot (sample_view "viw1" None)) = true.
Proof.
  assert (H : decodes None JNull) by (left; split; reflexivity).
  split; [exact H|].
  rewrite (proj1 (view_snapshot_blobs (Ext:=unit) (sample_view "viw1" None))
             JNull JNull JNull JNull H H H H).
  reflexivity.
Defined.

(** C9 does not hold as stated: a view whose stored filter is the empty
    string cannot be read. *)
Lemma view_empty_blob_counterexample :
  ViewRow.filter (sample_view "viw2" (Some EmptyString)) = Some EmptyString
  /\ getSnapshotBulk (core:=sample_core) (svc:=sample_services)
       example_db "tblA" ["viw2"] None
     = Err SyntaxError.
Proof. split; reflexivity. Qed.

(** C3, on the code.  In a batch that mixes a stored field with an id
    that was never created, the absent id gets no placeholder: the
    answer holds the snapshot of the stored field and nothing else. *)
Theorem getSnapshotBulk_mixed_batch_drops_absent :
  find_field "fldZ" (field (docs example_db)) = None
  /\ exists snaps,
      getSnapshotBulk (core:=sample_core) (svc:=sample_services)
        example_db "tblA" ["fldA"; "fldZ"] None = Ok snaps
      /\ map Snapshot.id snaps = ["fldA"]
      /\ getSnapshotBulk (core:=sample_core) (svc:=sample_services)
           example_db "tblA" ["fldZ"] None = Ok [placeholder "fldZ"].
Proof.
  split; [reflexivity|].
  eexists. split; [reflexivity|]. split; reflexivity.
Qed.

(** * Further properties *)

(** ** The log under [commit] *)

Lemma ops_max_version_app collection id log row :
  ops_max_version collection id (log ++ [row])
  = if String.eqb (OpsRow.collection row) collection
       && String.eqb (OpsRow.docId row) id
    then match ops_max_version collection id log with
         | Some m => Some (Z.max m (OpsRow.version row))
         | None => Some (OpsRow.version row)
         end
    else ops_max_version collection id log.
Proof.
  induction log as [|r log IH]; simpl.
  - now destruct (_ && _).
  - rewrite IH.
    destruct (String.eqb (OpsRow.collection r) collection
              && String.eqb (OpsRow.docId r) id);
      destruct (String.eqb (OpsRow.collection row) collection
                && String.eqb (OpsRow.docId row) id);
      destruct (ops_max_version collection id log); try reflexivity;
      f_equal; lia.
Qed.

Lemma doc_versions_app collection id log row :
  doc_versions collection id (log ++ [row])
  = doc_versions collection id log
    ++ (if String.eqb (OpsRow.collection row) collection
           && String.eqb (OpsRow.docId row) id
        then [OpsRow.version row] else []).
Proof.
  unfold doc_versions. rewrite filter_app, map_app. simpl.
  now destruct (_ && _).
Qed.

Lemma in_doc_versions collection id log v :
  In v (doc_versions collection id log)
  <-> exists row, In row log /\ OpsRow.collection row = collection
                  /\ OpsRow.docId row = id /\ OpsRow.version row = v.
Proof.
  unfold doc_versions. rewrite in_map_iff. split.
  - intros [row [Hv Hin]]. apply filter_In in Hin. destruct Hin as [Hin Hkey].
    apply andb_true_iff in Hkey. destruct Hkey as [Hc Hd].
    apply String.eqb_eq in Hc, Hd. exists row. tauto.
  - intros [row [Hin [Hc [Hd Hv]]]]. exists row. split; [exact Hv|].
    apply filter_In. split; [exact Hin|].
    now rewrite Hc, Hd, !String.eqb_refl.
Qed.

Lemma versions_upto_S (n : nat) :
  versions_upto (S n) = versions_upto n ++ [Z.of_nat (S n)].
Proof.
  unfold versions_upto. rewrite seq_S, map_app. reflexivity.
Qed.

Lemma in_versions_upto (n : nat) (v : Z) :
  In v (versions_upto n) <-> (1 <= v <= Z.of_nat n)%Z.
Proof.
  unfold versions_upto. rewrite in_map_iff. split.
  - intros [k [<- Hk]]. apply in_seq in Hk. lia.
  - intros Hv. exists (Z.to_nat v). split; [lia|]. apply in_seq. lia.
Qed.

(** On a gapless log the next version of a document is the number of
    its rows plus one. *)
Lemma gapless_next_version collection id log :
  gapless log ->
  match ops_max_version collection id log with
  | Some m => m
  | None => 0%Z
  end = Z.of_nat (length (doc_versions collection id log)).
Proof.
  intros Hg. specialize (Hg collection id).
  set (n := length (doc_versions collection id log)) in *.
  pose proof (ops_max_version_attained collection id log) as Hatt.
  destruct (ops_max_version collection id log) as [m|] eqn:Hmax.
  - destruct Hatt as [row [Hin [Hc [Hd Hv]]]].
    assert (Hm : In m (doc_versions collection id log))
      by (apply in_doc_versions; exists row; tauto).
    rewrite Hg in Hm. apply in_versions_upto in Hm.
    assert (Hn : In (Z.of_nat n) (versions_upto n))
      by (apply in_versions_upto; lia).
    rewrite <- Hg in Hn. apply in_doc_versions in Hn.
    destruct Hn as [row' [Hin' [Hc' [Hd' Hv']]]].
    destruct (@ops_max_version_bound collection id log row' Hin' Hc' Hd')
      as [m' [Hm' Hle]].
    rewrite Hmax in Hm'. injection Hm' as <-. lia.
  - destruct (doc_versions collection id log) as [|v vs] eqn:Hdv;
      [reflexivity|].
    exfalso.
    assert (Hv : In v (doc_versions collection id log))
      by (rewrite Hdv; now left).
    apply in_doc_versions in Hv. destruct Hv as [row [Hin [Hc [Hd _]]]].
    apply (Hatt row Hin). tauto.
Qed.

Section LogProperties.

Context {Ext : Type} {core : CoreLib} {svc : Services Ext}
        {engine : Engine}.

(** The log [commit] leaves, whatever it returns. *)
Lemma commit_log (collection id : string) (rawOp : RawOp.t)
  (snapshot : ICollectionSnapshot.t) (db : Db Ext) :
  ops (snd (commit collection id rawOp snapshot db))
  = if (ICollectionSnapshot.v snapshot
        =? match ops_max_version collection id (ops db) with
           | Some m => m
           | None => 0
           end + 1)%Z
    then ops db ++ [OpsRow.mk collection id (ICollectionSnapshot.v snapshot)
                      (JSON.stringify (RawOp.to_json rawOp))]
    else ops db.
Proof.
  unfold commit, bind at 1, gets. rewrite or_zero_id.
  set (maxV := match ops_max_version collection id (ops db) with
               | Some m => m
               | None => 0%Z
               end).
  destruct (ICollectionSnapshot.v snapshot =? maxV + 1)%Z eqn:Hv; cbn [negb];
    [|reflexivity].
  apply Z.eqb_eq in Hv.
  unfold bind at 1, prisma_ops_create.
  set (text := JSON.stringify (RawOp.to_json rawOp)).
  pose proof (next_version_is_fresh collection id text (ops db)) as Hfresh.
  rewrite or_zero_id in Hfresh; fold maxV in Hfresh.
  rewrite <- Hv in Hfresh; rewrite Hfresh.
  match goal with
  | |- ops (snd (?c ?s)) = _ => assert (Hk : keeps_log c); [|exact (Hk s)]
  end.
  apply keeps_log_bind.
  - destruct (RawOp.create rawOp);
      [apply keeps_log_on_docs | apply keeps_log_ret].
  - intros _. apply keeps_log_bind.
    + destruct (RawOp.op rawOp);
        [apply keeps_log_on_docs | apply keeps_log_ret].
    + intros _; apply keeps_log_ret.
Qed.

(** X1. [commit] keeps the log gapless: when every document of the log
    has the versions 1, 2, ... n in this order, it still has them after
    a commit, accepted or refused, whatever the appliers do. *)
Theorem commit_keeps_gapless (collection id : string) (rawOp : RawOp.t)
  (snapshot : ICollectionSnapshot.t) (db : Db Ext) :
  gapless (ops db) ->
  gapless (ops (snd (commit collection id rawOp snapshot db))).
Proof.
  intros Hg. rewrite commit_log.
  rewrite (gapless_next_version collection id Hg).
  destruct (Z.eqb_spec (ICollectionSnapshot.v snapshot)
              (Z.of_nat (length (doc_versions collection id (ops db))) + 1))
    as [Hv|_]; [|exact Hg].
  intros c i. rewrite doc_versions_app. cbn [OpsRow.collection OpsRow.docId OpsRow.version].
  destruct (String.eqb_spec collection c) as [<-|Hc];
    [destruct (String.eqb_spec id i) as [<-|Hi]|]; cbn [andb].
  - rewrite length_app. cbn [length]. rewrite Nat.add_1_r, versions_upto_S.
    rewrite <- (Hg collection id). f_equal. f_equal. rewrite Hv. lia.
  - rewrite app_nil_r. apply Hg.
  - rewrite app_nil_r. apply Hg.
Qed.

(** X2. A commit that was accepted cannot be replayed: on the database
    it leaves, a commit to the same document at the same version is
    refused with the version mismatch and changes nothing. *)
Theorem commit_replay_refused (collection id : string) (rawOp rawOp' : RawOp.t)
  (snapshot snapshot' : ICollectionSnapshot.t) (db : Db Ext) :
  ICollectionSnapshot.v snapshot
  = (match ops_max_version collection id (ops db) with
     | Some m => m
     | None => 0
     end + 1)%Z ->
  ICollectionSnapshot.v snapshot' = ICollectionSnapshot.v snapshot ->
  let db' := snd (commit collection id rawOp snapshot db) in
  commit collection id rawOp' snapshot' db'
  = (Err (version_mismatch (ICollectionSnapshot.v snapshot)
            (ICollectionSnapshot.v snapshot)), db').
Proof.
  intros Hv Hv' db'.
  assert (Hlog : ops db' = ops db ++ [OpsRow.mk collection id
                                        (ICollectionSnapshot.v snapshot)
                                        (JSON.stringify (RawOp.to_json rawOp))]).
  { unfold db'. rewrite commit_log. now rewrite (proj2 (Z.eqb_eq _ _) Hv). }
  assert (Hmax : ops_max_version collection id (ops db')
                 = Some (ICollectionSnapshot.v snapshot)).
  { rewrite Hlog, ops_max_version_app.
    cbn [OpsRow.collection OpsRow.docId OpsRow.version].
    rewrite !String.eqb_refl. cbn [andb].
    destruct (ops_max_version collection id (ops db)) as [m|];
      [f_equal; lia | reflexivity]. }
  unfold commit, bind at 1, gets. rewrite Hmax, or_zero_id, Hv'.
  replace (ICollectionSnapshot.v snapshot =? ICollectionSnapshot.v snapshot + 1)%Z
    with false by (symmetry; apply Z.eqb_neq; lia).
  reflexivity.
Qed.

(** X3. Commits to different documents do not interfere: a commit to one
    document leaves the rows, and so the next expected version, of
    every other document as they were. *)
Theorem commit_other_documents (collection id collection' id' : string)
  (rawOp : RawOp.t) (snapshot : ICollectionSnapshot.t) (db : Db Ext) :
  (collection', id') <> (collection, id) ->
  let log' := ops (snd (commit collection id rawOp snapshot db)) in
  doc_versions collection' id' log' = doc_versions collection' id' (ops db)
  /\ ops_max_version collection' id' log'
     = ops_max_version collection' id' (ops db).
Proof.
  intros Hne log'. unfold log'. rewrite commit_log.
  destruct (_ =? _)%Z; [|split; reflexivity].
  assert (Hkey : String.eqb collection collection' && String.eqb id id' = false).
  { destruct (String.eqb_spec collection collection') as [->|_];
      [|reflexivity].
    destruct (String.eqb_spec id id') as [->|_]; [|reflexivity].
    now contradiction Hne. }
  rewrite doc_versions_app, ops_max_version_app.
  cbn [OpsRow.collection OpsRow.docId]. rewrite Hkey.
  now rewrite app_nil_r.
Qed.

(** X4. An op with no [create] and no [op] member, which is what a
    delete is, is logged at the next version and applied to nothing:
    [commit] answers [true] and the document tables are untouched. *)
Theorem commit_delete_only_logs (collection id : string) (rawOp : RawOp.t)
  (snapshot : ICollectionSnapshot.t) (db : Db Ext) :
  RawOp.create rawOp = None -> RawOp.op rawOp = None ->
  ICollectionSnapshot.v snapshot
  = (match ops_max_version collection id (ops db) with
     | Some m => m
     | None => 0
     end + 1)%Z ->
  commit collection id rawOp snapshot db
  = (Ok true,
     mkDb (ops db ++ [OpsRow.mk collection id (ICollectionSnapshot.v snapshot)
                        (JSON.stringify (RawOp.to_json rawOp))])
          (docs db)).
Proof.
  intros Hc Ho Hv. unfold commit, bind at 1, gets. rewrite or_zero_id.
  rewrite (proj2 (Z.eqb_eq _ _) Hv); cbn [negb].
  unfold bind at 1, prisma_ops_create.
  set (text := JSON.stringify (RawOp.to_json rawOp)).
  pose proof (next_version_is_fresh collection id text (ops db)) as Hfresh.
  rewrite or_zero_id, <- Hv in Hfresh; rewrite Hfresh.
  rewrite Hc, Ho. reflexivity.
Qed.

End LogProperties.

(** ** Reading the log back *)

Lemma drop_digits_uint (d : Decimal.uint) :
  drop_digits (NilEmpty.string_of_uint d) = EmptyString.
Proof. induction d; simpl; trivial. Qed.

Lemma valid_number_digits (c : ascii) (d : Decimal.uint) :
  is_digit19 c = true ->
  valid_number (String c (NilEmpty.string_of_uint d)) = true.
Proof.
  intros Hc. unfold valid_number.
  assert (Hm : Ascii.eqb c "-" = false)
    by (destruct c as [[] [] [] [] [] [] [] []]; try discriminate Hc; reflexivity).
  assert (H0 : Ascii.eqb c "0" = false)
    by (destruct c as [[] [] [] [] [] [] [] []]; try discriminate Hc; reflexivity).
  now rewrite Hm, H0, Hc, drop_digits_uint.
Qed.

(** The decimal digits of a normalised number are a JSON number. *)
Lemma valid_number_unorm (d : Decimal.uint) :
  Decimal.unorm d = d -> valid_number (NilZero.string_of_uint d) = true.
Proof.
  intros Hd. destruct d as [|d|d|d|d|d|d|d|d|d|d];
    try (apply valid_number_digits; reflexivity).
  - reflexivity.
  - unfold Decimal.unorm in Hd.
    destruct (Decimal.nzhead (Decimal.D0 d)) eqn:Hn; try discriminate Hd.
    + now rewrite <- Hd.
    + exfalso. exact (DecimalFacts.nzhead_nonzero _ _ Hn).
Qed.

Lemma valid_number_minus (c : ascii) (r : string) :
  Ascii.eqb c "-" = false ->
  valid_number (String "-" (String c r)) = valid_number (String c r).
Proof. intros H. unfold valid_number. cbn [Ascii.eqb Bool.eqb]. now rewrite H. Qed.

(** A template literal prints an integer as a JSON number. *)
Lemma valid_number_Z_to_string (z : Z) : valid_number (Z_to_string z) = true.
Proof.
  unfold Z_to_string.
  pose proof (DecimalZ.to_of (Z.to_int z)) as Hnorm.
  rewrite DecimalZ.of_to in Hnorm.
  destruct (Z.to_int z) as [d|d] eqn:Hz; simpl in Hnorm.
  - injection Hnorm as Hd. simpl. now apply valid_number_unorm.
  - assert (Hd : Decimal.nzhead d = d)
      by (destruct (Decimal.nzhead d); congruence).
    unfold NilZero.string_of_int.
    destruct d as [|d|d|d|d|d|d|d|d|d|d];
      try (cbn [NilZero.string_of_uint NilEmpty.string_of_uint];
           rewrite valid_number_minus by reflexivity;
           apply valid_number_digits; reflexivity).
    + rewrite Hd in Hnorm. discriminate Hnorm.
    + exfalso. exact (DecimalFacts.nzhead_nonzero _ _ Hd).
Qed.

Lemma RawOp_to_json_wf (o : RawOp.t) : RawOp_wf o -> wf (RawOp.to_json o).
Proof.
  destruct o as [src seq v create del op m].
  unfold RawOp_wf, RawOp.to_json. cbn [RawOp.create RawOp.op RawOp.m RawOp.del
                                        RawOp.src RawOp.seq RawOp.v].
  intros [Hc [Ho Hm]]. apply JSONFacts.wf_JObj. split.
  - destruct create, del, op; simpl;
      repeat constructor; simpl; intuition discriminate.
  - assert (Hcreate : forall t d : json, wf t -> wf d ->
               wf (JObj [("type", t); ("data", d)])).
    { intros t d Ht Hd. apply JSONFacts.wf_JObj. split.
      - repeat constructor; simpl; intuition discriminate.
      - repeat constructor; assumption. }
    destruct create as [[t d]|], del as [b|], op as [items|];
      cbn [option_map RawOp.optional app fst snd];
      repeat (apply Forall_cons; cbn [snd]); try apply Forall_nil;
      try exact I; try apply valid_number_Z_to_string; try exact Hm;
      try (apply Hcreate; tauto);
      try (apply JSONFacts.wf_JArr; exact Ho).
Qed.

Lemma map_result_all_ok {A B} (f : A -> result B) (l : list A) :
  Forall (fun x => exists y, f x = Ok y) l ->
  exists ys, map_result f l = Ok ys /\ length ys = length l.
Proof.
  induction 1 as [|x l [y Hy] _ [ys [Hys Hlen]]]; simpl.
  - now exists [].
  - rewrite Hy, Hys. exists (y :: ys). simpl. now rewrite Hlen.
Qed.

Lemma ops_range_versions collection id from to log :
  map OpsRow.version (filter (in_ops_range collection id from (Some to)) log)
  = filter (fun v => (from <=? v)%Z && (v <? to)%Z)
      (doc_versions collection id log).
Proof.
  unfold doc_versions, in_ops_range.
  induction log as [|r log IH]; simpl; [reflexivity|].
  destruct (String.eqb (OpsRow.collection r) collection
            && String.eqb (OpsRow.docId r) id); simpl; [|exact IH].
  destruct ((from <=? OpsRow.version r)%Z && (OpsRow.version r <? to)%Z);
    simpl; now rewrite IH.
Qed.

Lemma versions_in_range (n : nat) (from to : Z) :
  length (filter (fun v => (from <=? v)%Z && (v <? to)%Z) (versions_upto n))
  = Z.to_nat (Z.min to (Z.of_nat n + 1) - Z.max from 1).
Proof.
  induction n as [|n IH]; [cbn [versions_upto seq map filter length]; lia|].
  rewrite versions_upto_S, filter_app, length_app, IH. cbn [filter].
  destruct (Z.leb_spec from (Z.of_nat (S n)));
    destruct (Z.ltb_spec (Z.of_nat (S n)) to); cbn [andb length]; lia.
Qed.

Lemma filter_nothing {A} (p : A -> bool) (l : list A) :
  (forall x, In x l -> p x = false) -> filter p l = [].
Proof.
  induction l as [|x l IH]; simpl; [reflexivity|].
  intros H. rewrite (H x) by now left. apply IH. intros y Hy; apply H; now right.
Qed.

Section HistoryProperties.

Context {Ext : Type} {core : CoreLib} {svc : Services Ext}
        {engine : Engine}.

(** X5. [getOps] with a [null] upper end, which the comment above it
    describes as the request for every operation from [from] onwards,
    returns no operation at all: the upper end goes into the comparison
    [version < ?] as it is. *)
Theorem getOps_null_end (db : Db Ext) (collection id : string) (from : Z) :
  getOps db collection id from None = Ok [].
Proof.
  unfold getOps.
  rewrite filter_nothing; [reflexivity|].
  intros row _. unfold in_ops_range. apply andb_false_r.
Qed.

(** X6. What [commit] logs, [getOps] reads back: after a commit that
    was accepted at version [v], the operations of the document from
    [v] up to [v + 1] are the one operation committed, whatever the
    appliers did. *)
Theorem commit_getOps_round_trip (collection id : string) (rawOp : RawOp.t)
  (snapshot : ICollectionSnapshot.t) (db : Db Ext) :
  RawOp_wf rawOp ->
  ICollectionSnapshot.v snapshot
  = (match ops_max_version collection id (ops db) with
     | Some m => m
     | None => 0
     end + 1)%Z ->
  getOps (snd (commit collection id rawOp snapshot db)) collection id
    (ICollectionSnapshot.v snapshot) (Some (ICollectionSnapshot.v snapshot + 1)%Z)
  = Ok [RawOp.to_json rawOp].
Proof.
  intros Hwf Hv. unfold getOps. rewrite commit_log.
  rewrite (proj2 (Z.eqb_eq _ _) Hv), filter_app.
  set (v := ICollectionSnapshot.v snapshot) in *.
  assert (Hold : filter (in_ops_range collection id v (Some (v + 1)%Z)) (ops db)
                 = []).
  { apply filter_nothing.
    { intros row Hin. unfold in_ops_range.
      destruct (String.eqb_spec (OpsRow.collection row) collection) as [Hc|_];
        [|reflexivity].
      destruct (String.eqb_spec (OpsRow.docId row) id) as [Hd|_];
        [|reflexivity].
      destruct (@ops_max_version_bound collection id (ops db) row Hin Hc Hd)
        as [m [Hm Hle]].
      rewrite Hm in Hv. cbn [andb].
      replace (v <=? OpsRow.version row)%Z with false
        by (symmetry; apply Z.leb_gt; lia).
      reflexivity. } }
  rewrite Hold. cbn [app filter].
  unfold in_ops_range. cbn [OpsRow.collection OpsRow.docId OpsRow.version].
  rewrite !String.eqb_refl, Z.leb_refl. cbn [andb].
  replace (v <? v + 1)%Z with true by (symmetry; apply Z.ltb_lt; lia).
  cbn [map_result OpsRow.operation].
  now rewrite (@JSONRoundTrip.parse_stringify _ (RawOp_to_json_wf Hwf)).
Qed.

(** X7. On a gapless log whose operations parse, [getOps] from [from] up
    to [to], within the versions of the document, returns exactly
    [to - from] operations. *)
Theorem getOps_count (db : Db Ext) (collection id : string) (from to : Z) :
  gapless (ops db) ->
  Forall (fun row => exists j, JSON.parse (OpsRow.operation row) = Ok j)
    (ops db) ->
  (1 <= from <= to)%Z ->
  (to <= Z.of_nat (length (doc_versions collection id (ops db))) + 1)%Z ->
  exists operations,
    getOps db collection id from (Some to) = Ok operations
    /\ Z.of_nat (length operations) = (to - from)%Z.
Proof.
  intros Hg Hparse Hfrom Hto. unfold getOps.
  destruct (@map_result_all_ok _ _
              (fun row => JSON.parse (OpsRow.operation row))
              (filter (in_ops_range collection id from (Some to)) (ops db)))
    as [operations [Hok Hlen]].
  { rewrite Forall_forall in *. intros row Hin. apply filter_In in Hin.
    now apply Hparse. }
  exists operations. split; [exact Hok|].
  rewrite Hlen, <- (length_map OpsRow.version), ops_range_versions.
  rewrite (Hg collection id), versions_in_range. lia.
Qed.

End HistoryProperties.

(** ** The appliers of fields *)

Lemma with_row_ids (fieldId : string) (row' : FieldRow.t)
  (rows : list FieldRow.t) :
  FieldRow.id row' = fieldId ->
  map FieldRow.id (with_row fieldId row' rows) = map FieldRow.id rows.
Proof.
  intros Hid. unfold with_row. rewrite map_map. apply map_ext.
  intros r. destruct (String.eqb_spec (FieldRow.id r) fieldId); congruence.
Qed.

Lemma with_row_find (fieldId : string) (row row' : FieldRow.t)
  (rows : list FieldRow.t) :
  FieldRow.id row' = fieldId ->
  find_field fieldId rows = Some row ->
  find_field fieldId (with_row fieldId row' rows) = Some row'.
Proof.
  intros Hid. unfold with_row.
  induction rows as [|r rows IH]; simpl; [discriminate|].
  destruct (String.eqb_spec (FieldRow.id r) fieldId) as [Hr|Hr].
  - intros _. now rewrite Hid, String.eqb_refl.
  - rewrite (proj2 (String.eqb_neq _ _) Hr). exact IH.
Qed.

Lemma with_row_twice (fieldId : string) (row1 row2 : FieldRow.t)
  (rows : list FieldRow.t) :
  FieldRow.id row1 = fieldId ->
  with_row fieldId row2 (with_row fieldId row1 rows)
  = with_row fieldId row2 rows.
Proof.
  intros Hid. unfold with_row. rewrite map_map. apply map_ext.
  intros r. destruct (String.eqb_spec (FieldRow.id r) fieldId) as [Hr|Hr].
  - now rewrite Hid, String.eqb_refl.
  - now rewrite (proj2 (String.eqb_neq _ _) Hr).
Qed.

Lemma update_field_missing (id : string) (f : FieldRow.t -> FieldRow.t)
  (rows : list FieldRow.t) :
  find_field id rows = None -> update_field id f rows = None.
Proof.
  induction rows as [|r rows IH]; simpl; [reflexivity|].
  destruct (String.eqb (FieldRow.id r) id); [discriminate|].
  intros H. now rewrite (IH H).
Qed.

Lemma obj_set_twice (props : list (string * json)) (k : string) (a b : json) :
  obj_set (obj_set props k a) k b = obj_set props k b.
Proof.
  induction props as [|[k' v'] props IH]; simpl.
  - now rewrite String.eqb_refl.
  - destruct (String.eqb k' k) eqn:E; simpl; rewrite E; [reflexivity|].
    now rewrite IH.
Qed.

Lemma assign_property_twice (props : list (string * json)) (k : string)
  (a b : json) :
  assign_property (assign_property props k a) k b = assign_property props k b.
Proof.
  unfold assign_property.
  destruct (String.eqb k "__proto__" && negb (has_key props k)) eqn:E.
  - now rewrite E.
  - assert (Hown : has_key (obj_set props k a) k = true)
      by (unfold has_key; now rewrite obj_get_set_same).
    rewrite Hown, andb_false_r. apply obj_set_twice.
Qed.

Section FieldAppliers.

Context {Ext : Type} {engine : Engine}.

(** One turn of the loop of [setColumnMeta] that succeeds. *)
Lemma setColumnMeta_step (d : Docs Ext) (version : Z) (fieldId : string)
  (context : ISetColumnMetaOpContext.t) (rest : list ISetColumnMetaOpContext.t)
  (row : FieldRow.t) (columnMeta columnMeta' : json) :
  NoDup (map FieldRow.id (field d)) ->
  find_field fieldId (field d) = Some row ->
  JSON.parse (FieldRow.columnMeta row) = Ok columnMeta ->
  assign_leaf columnMeta (ISetColumnMetaOpContext.viewId context)
    (ISetColumnMetaOpContext.metaKey context)
    (ISetColumnMetaOpContext.newMetaValue context) = Ok columnMeta' ->
  setColumnMeta version fieldId (context :: rest) d
  = setColumnMeta version fieldId rest
      (mkDocs (with_row fieldId
                 (set_columnMeta_version (JSON.stringify columnMeta') version row)
                 (field d))
              (view d) (ext d)).
Proof.
  intros Hnd Hfind Hparse Hassign.
  unfold setColumnMeta at 1. cbn [for_each]. unfold bind at 1.
  unfold bind, prisma_field_findUniqueOrThrow, lift, prisma_field_update.
  rewrite Hfind, Hparse, Hassign.
  rewrite (@update_field_map fieldId _ (field d) row Hnd Hfind). reflexivity.
Qed.

(** X8. [setColumnMeta] that cannot apply its first context throws and
    writes nothing, not even the version: [NotFoundError] when the
    field does not exist, [SyntaxError] when its stored [columnMeta] is
    not JSON, [TypeError] when the column is [null], or is an object
    that has [null] under [viewId], or nothing (and inherits nothing
    under that name), or a primitive while [metaKey] is not
    [__proto__].  On a primitive, [__proto__] throws nothing: the
    context stores no leaf and writes the version, and the loop goes
    on. *)
Theorem setColumnMeta_failures (d : Docs Ext) (version : Z) (fieldId : string)
  (context : ISetColumnMetaOpContext.t) (rest : list ISetColumnMetaOpContext.t) :
  let viewId := ISetColumnMetaOpContext.viewId context in
  let metaKey := ISetColumnMetaOpContext.metaKey context in
  (find_field fieldId (field d) = None ->
   setColumnMeta version fieldId (context :: rest) d = (Err NotFoundError, d))
  /\ (forall row e,
        find_field fieldId (field d) = Some row ->
        JSON.parse (FieldRow.columnMeta row) = Err e ->
        setColumnMeta version fieldId (context :: rest) d = (Err SyntaxError, d))
  /\ (forall row,
        find_field fieldId (field d) = Some row ->
        JSON.parse (FieldRow.columnMeta row) = Ok JNull ->
        setColumnMeta version fieldId (context :: rest) d = (Err TypeError, d))
  /\ (forall row views,
        find_field fieldId (field d) = Some row ->
        JSON.parse (FieldRow.columnMeta row) = Ok (JObj views) ->
        match obj_get views viewId with
        | None => inherited_key viewId = false
        | Some JNull => True
        | Some target => is_primitive target = true /\ metaKey <> "__proto__"
        end ->
        setColumnMeta version fieldId (context :: rest) d = (Err TypeError, d))
  /\ (forall row views target,
        NoDup (map FieldRow.id (field d)) ->
        find_field fieldId (field d) = Some row ->
        JSON.parse (FieldRow.columnMeta row) = Ok (JObj views) ->
        obj_get views viewId = Some target ->
        is_primitive target = true ->
        metaKey = "__proto__" ->
        setColumnMeta version fieldId (context :: rest) d
        = setColumnMeta version fieldId rest
            (mkDocs (with_row fieldId
                       (set_columnMeta_version (JSON.stringify (JObj views))
                          version row)
                       (field d))
                    (view d) (ext d))).
Proof.
  intros viewId metaKey.
  assert (Hthrow : forall row columnMeta,
             find_field fieldId (field d) = Some row ->
             JSON.parse (FieldRow.columnMeta row) = Ok columnMeta ->
             assign_leaf columnMeta viewId metaKey
               (ISetColumnMetaOpContext.newMetaValue context)
             = Err TypeError ->
             setColumnMeta version fieldId (context :: rest) d
             = (Err TypeError, d)).
  { intros row columnMeta Hfind Hparse Hassign.
    unfold setColumnMeta. cbn [for_each]. unfold bind at 1.
    unfold bind, prisma_field_findUniqueOrThrow, lift.
    rewrite Hfind, Hparse. fold viewId metaKey. now rewrite Hassign. }
  repeat apply conj.
  - intros Hfind. unfold setColumnMeta. cbn [for_each]. unfold bind at 1.
    unfold bind, prisma_field_findUniqueOrThrow. now rewrite Hfind.
  - intros row e Hfind Hparse.
    unfold setColumnMeta. cbn [for_each]. unfold bind at 1.
    unfold bind, prisma_field_findUniqueOrThrow, lift.
    rewrite Hfind, Hparse. now rewrite (parse_error _ Hparse).
  - intros row Hfind Hparse. now apply (Hthrow row JNull).
  - intros row views Hfind Hparse Htarget.
    apply (Hthrow row (JObj views) Hfind Hparse).
    unfold assign_leaf.
    destruct (obj_get views viewId) as [[ |b|n|t|items|props]|].
    + reflexivity.
    + destruct Htarget as [_ Hkey].
      now rewrite (proj2 (String.eqb_neq _ _) Hkey).
    + destruct Htarget as [_ Hkey].
      now rewrite (proj2 (String.eqb_neq _ _) Hkey).
    + destruct Htarget as [_ Hkey].
      now rewrite (proj2 (String.eqb_neq _ _) Hkey).
    + destruct Htarget as [Hp _]. discriminate Hp.
    + destruct Htarget as [Hp _]. discriminate Hp.
    + now rewrite Htarget.
  - intros row views target Hnd Hfind Hparse Htarget Hprim Hkey.
    apply (@setColumnMeta_step d version fieldId context rest row
             (JObj views) (JObj views) Hnd Hfind Hparse).
    fold viewId metaKey. unfold assign_leaf. rewrite Htarget, Hkey.
    destruct target; try discriminate Hprim; reflexivity.
Qed.

(** X9. The last writer wins: two contexts of one operation that set the
    same leaf leave the field exactly as the second one alone would;
    nothing of the first value stays. *)
Theorem setColumnMeta_last_writer (d : Docs Ext) (version : Z)
  (fieldId metaKey viewId : string) (first second : json)
  (row : FieldRow.t) (columnMeta : json) (entry : list (string * json)) :
  NoDup (map FieldRow.id (field d)) ->
  find_field fieldId (field d) = Some row ->
  JSON.parse (FieldRow.columnMeta row) = Ok columnMeta ->
  entry_of columnMeta viewId = Some (JObj entry) ->
  wf first ->
  setColumnMeta version fieldId
    [ISetColumnMetaOpContext.mk metaKey viewId first;
     ISetColumnMetaOpContext.mk metaKey viewId second] d
  = setColumnMeta version fieldId
      [ISetColumnMetaOpContext.mk metaKey viewId second] d.
Proof.
  intros Hnd Hfind Hparse Hentry Hfirst.
  pose proof Hentry as Hentry0.
  destruct columnMeta as [ | | | | |views]; try discriminate Hentry.
  simpl in Hentry.
  destruct (@find_field_id _ _ _ Hfind) as [Hid _].
  set (cm1 := JObj (obj_set views viewId
                      (JObj (assign_property entry metaKey first)))).
  set (cm2 := JObj (obj_set views viewId
                      (JObj (assign_property entry metaKey second)))).
  assert (H1 : assign_leaf (JObj views) viewId metaKey first = Ok cm1)
    by (erewrite assign_leaf_entry by exact Hentry; reflexivity).
  assert (H2 : assign_leaf (JObj views) viewId metaKey second = Ok cm2)
    by (erewrite assign_leaf_entry by exact Hentry; reflexivity).
  assert (Hwf1 : wf cm1).
  { eapply assign_leaf_wf; [|exact Hfirst|exact Hentry0|exact H1].
    eapply JSONRoundTrip.parse_wf; exact Hparse. }
  set (row1 := set_columnMeta_version (JSON.stringify cm1) version row).
  rewrite (@setColumnMeta_step d version fieldId
             (ISetColumnMetaOpContext.mk metaKey viewId first) _
             row (JObj views) cm1 Hnd Hfind Hparse H1).
  rewrite (@setColumnMeta_step d version fieldId
             (ISetColumnMetaOpContext.mk metaKey viewId second) []
             row (JObj views) cm2 Hnd Hfind Hparse H2).
  fold row1.
  assert (H12 : assign_leaf cm1 viewId metaKey second = Ok cm2).
  { unfold cm1. erewrite assign_leaf_entry by apply obj_get_set_same.
    unfold cm2. now rewrite obj_set_twice, assign_property_twice. }
  rewrite (@setColumnMeta_step _ version fieldId
             (ISetColumnMetaOpContext.mk metaKey viewId second) []
             row1 cm1 cm2).
  - cbn [field view ext]. rewrite with_row_twice by exact Hid.
    reflexivity.
  - cbn [field]. rewrite with_row_ids by exact Hid. exact Hnd.
  - cbn [field]. now apply (@with_row_find fieldId row).
  - unfold row1. cbn [set_columnMeta_version FieldRow.columnMeta].
    now apply JSONRoundTrip.parse_stringify.
  - exact H12.
Qed.

End FieldAppliers.

Lemma assign_entries_other (target source : list (string * json)) (k : string) :
  ~ In k (keys source) ->
  obj_get (assign_entries target source) k = obj_get target k.
Proof.
  unfold assign_entries. revert target.
  induction source as [|[k' v'] source IH]; intros target Hnin; simpl.
  - reflexivity.
  - simpl in Hnin. rewrite IH by tauto.
    apply obj_get_set_other. intros ->. tauto.
Qed.

Lemma assign_entries_in (target source : list (string * json))
  (k : string) (v : json) :
  NoDup (keys source) -> In (k, v) source ->
  obj_get (assign_entries target source) k = Some v.
Proof.
  unfold assign_entries. revert target.
  induction source as [|[k' v'] source IH]; intros target Hnd Hin; simpl.
  - destruct Hin.
  - simpl in Hnd. inversion Hnd as [|? ? Hk' Hnd']; subst.
    destruct Hin as [[= -> ->]|Hin].
    + change (obj_get (assign_entries (obj_set target k v) source) k = Some v).
      rewrite assign_entries_other by exact Hk'.
      apply obj_get_set_same.
    + now apply IH.
Qed.

Lemma assign_entries_wf (target source : list (string * json)) :
  NoDup (keys target) -> Forall (fun kv => wf (snd kv)) target ->
  Forall (fun kv => wf (snd kv)) source ->
  NoDup (keys (assign_entries target source))
  /\ Forall (fun kv => wf (snd kv)) (assign_entries target source).
Proof.
  unfold assign_entries. revert target.
  induction source as [|[k v] source IH]; intros target Hnd Hwf Hsrc; simpl.
  - now split.
  - inversion Hsrc; subst. apply IH.
    + now apply JSONRoundTrip.obj_set_NoDup.
    + now apply JSONRoundTrip.obj_set_wf.
    + assumption.
Qed.

Section AssignEntries.

Context {engine : Engine}.

(** The [forEach] of [addColumnMeta] on a column that has an object
    under [viewId]. *)
Lemma assign_all (views entry source : list (string * json)) (viewId : string) :
  obj_get views viewId = Some (JObj entry) ->
  ~ In "__proto__" (keys source) ->
  fold_left
    (fun acc kv =>
       match acc with
       | Ok cm => assign_leaf cm viewId (fst kv) (snd kv)
       | Err e => Err e
       end)
    source (Ok (JObj views))
  = Ok (JObj (obj_set views viewId (JObj (assign_entries entry source)))).
Proof.
  revert views entry.
  induction source as [|[k v] source IH]; intros views entry Hget Hkeys;
    cbn [fold_left fst snd].
  - cbn [assign_entries fold_left]. now rewrite (@obj_set_get_same _ _ _ Hget).
  - cbn [keys map fst In] in Hkeys.
    erewrite assign_leaf_entry by exact Hget.
    rewrite assign_property_own by (intros ->; tauto).
    rewrite (IH _ (obj_set entry k v) (obj_get_set_same _ _ _))
      by (unfold keys; tauto).
    now rewrite obj_set_twice.
Qed.

Lemma assign_none (e : error) (source : list (string * json)) (viewId : string) :
  fold_left
    (fun acc kv =>
       match acc with
       | Ok cm => assign_leaf cm viewId (fst kv) (snd kv)
       | Err e => Err e
       end)
    source (Err e)
  = Err e.
Proof.
  induction source as [|kv source IH]; simpl; [reflexivity | exact IH].
Qed.

(** The [forEach] on a view that is a primitive: [__proto__] is
    swallowed, the first other key throws. *)
Lemma assign_primitive (views source : list (string * json)) (viewId : string)
  (target : json) :
  obj_get views viewId = Some target -> is_primitive target = true ->
  Exists (fun kv => fst kv <> "__proto__") source ->
  fold_left
    (fun acc kv =>
       match acc with
       | Ok cm => assign_leaf cm viewId (fst kv) (snd kv)
       | Err e => Err e
       end)
    source (Ok (JObj views))
  = Err TypeError.
Proof.
  intros Hget Hprim Hex.
  assert (Hone : forall k v,
             assign_leaf (JObj views) viewId k v
             = if String.eqb k "__proto__" then Ok (JObj views)
               else Err TypeError).
  { intros k v. unfold assign_leaf. rewrite Hget.
    destruct target; try discriminate Hprim; reflexivity. }
  induction source as [|[k v] source IH]; [inversion Hex|].
  cbn [fold_left fst snd]. rewrite Hone.
  destruct (String.eqb_spec k "__proto__") as [Hk|Hk].
  - apply IH. inversion Hex as [? ? Hhead|? ? Htail]; subst;
      [now contradiction Hhead | exact Htail].
  - apply assign_none.
Qed.

End AssignEntries.

Lemma set_name_twice (a b : string) (version : Z) (row : FieldRow.t) :
  set_name_version b version (set_name_version a version row)
  = set_name_version b version row.
Proof. reflexivity. Qed.

Section FieldAppliers2.

Context {Ext : Type} {engine : Engine}.

Lemma setFieldName_found (version : Z) (fieldId : string)
  (contexts : list ISetFieldNameOpContext.t) :
  contexts <> [] ->
  forall (d : Docs Ext) (row : FieldRow.t),
    NoDup (map FieldRow.id (field d)) ->
    find_field fieldId (field d) = Some row ->
    setFieldName version fieldId contexts d
    = (Ok tt,
       mkDocs (with_row fieldId
                 (set_name_version
                    (ISetFieldNameOpContext.newName
                       (last contexts (ISetFieldNameOpContext.mk EmptyString)))
                    version row)
                 (field d))
              (view d) (ext d)).
Proof.
  induction contexts as [|c cs IH]; [congruence|].
  intros _ d row Hnd Hfind.
  destruct (@find_field_id _ _ _ Hfind) as [Hid _].
  unfold setFieldName. cbn [for_each]. unfold bind at 1.
  unfold prisma_field_update at 1.
  rewrite (@update_field_map fieldId _ (field d) row Hnd Hfind).
  fold (with_row fieldId
          (set_name_version (ISetFieldNameOpContext.newName c) version row)
          (field d)).
  destruct cs as [|c' cs]; [reflexivity|].
  fold (@setFieldName Ext version fieldId (c' :: cs)).
  set (row1 := set_name_version (ISetFieldNameOpContext.newName c) version row).
  rewrite (IH ltac:(discriminate) _ row1).
  - cbn [field view ext]. rewrite with_row_twice by exact Hid.
    unfold row1. now rewrite set_name_twice.
  - cbn [field]. now rewrite with_row_ids.
  - cbn [field]. now apply (@with_row_find fieldId row).
Qed.

(** X10. [setFieldName] with one context or more: on a field that does
    not exist it throws [NotFoundError] and writes nothing; on a field
    that exists it leaves the name of the last context and the version
    of the operation on the row of the field, and every other row and
    column as it was. *)
Theorem setFieldName_last_name (d : Docs Ext) (version : Z) (fieldId : string)
  (contexts : list ISetFieldNameOpContext.t) :
  contexts <> [] ->
  (find_field fieldId (field d) = None ->
   setFieldName version fieldId contexts d = (Err NotFoundError, d))
  /\ (forall row,
        NoDup (map FieldRow.id (field d)) ->
        find_field fieldId (field d) = Some row ->
        setFieldName version fieldId contexts d
        = (Ok tt,
           mkDocs (with_row fieldId
                     (set_name_version
                        (ISetFieldNameOpContext.newName
                           (last contexts (ISetFieldNameOpContext.mk EmptyString)))
                        version row)
                     (field d))
                  (view d) (ext d))).
Proof.
  intros Hne. split.
  - intros Hfind. destruct contexts as [|c cs]; [congruence|].
    unfold setFieldName. cbn [for_each]. unfold bind, prisma_field_update.
    now rewrite (@update_field_missing _ _ _ Hfind).
  - intros row. now apply setFieldName_found.
Qed.

(** X11. [addColumnMeta] merges: on a column with an object under
    [viewId] one context sets every key of [newMetaValue] (none of
    them [__proto__]) to its value, keeps every other key of that view
    and every other view, writes the version of the operation, and
    what it stores reads back as that column. *)
Theorem addColumnMeta_merges (d : Docs Ext) (version : Z)
  (fieldId viewId : string) (newMetaValue : list (string * json))
  (row : FieldRow.t) (columnMeta : json) (entry : list (string * json)) :
  NoDup (map FieldRow.id (field d)) ->
  find_field fieldId (field d) = Some row ->
  JSON.parse (FieldRow.columnMeta row) = Ok columnMeta ->
  entry_of columnMeta viewId = Some (JObj entry) ->
  NoDup (keys newMetaValue) ->
  ~ In "__proto__" (keys newMetaValue) ->
  Forall (fun kv => wf (snd kv)) newMetaValue ->
  exists columnMeta',
    addColumnMeta version fieldId
      [IAddColumnMetaOpContext.mk viewId newMetaValue] d
    = (Ok tt,
       mkDocs (with_row fieldId
                 (set_columnMeta_version (JSON.stringify columnMeta') version row)
                 (field d))
              (view d) (ext d))
    /\ JSON.parse (JSON.stringify columnMeta') = Ok columnMeta'
    /\ (forall k v, In (k, v) newMetaValue -> leaf columnMeta' viewId k = Some v)
    /\ (forall k, ~ In k (keys newMetaValue) ->
                  leaf columnMeta' viewId k = leaf columnMeta viewId k)
    /\ (forall other, other <> viewId ->
                      entry_of columnMeta' other = entry_of columnMeta other).
Proof.
  intros Hnd Hfind Hparse Hentry Hkeys Hproto Hvalues.
  destruct columnMeta as [ | | | | |views]; try discriminate Hentry.
  simpl in Hentry.
  exists (JObj (obj_set views viewId (JObj (assign_entries entry newMetaValue)))).
  pose proof (@JSONRoundTrip.parse_wf _ _ Hparse) as Hwf.
  apply JSONFacts.wf_JObj in Hwf. destruct Hwf as [Hviews Hwfviews].
  assert (Hwfentry : wf (JObj entry)).
  { apply obj_get_In in Hentry.
    exact (proj1 (Forall_forall _ _) Hwfviews _ Hentry). }
  apply JSONFacts.wf_JObj in Hwfentry. destruct Hwfentry as [He1 He2].
  repeat split.
  - unfold addColumnMeta. cbn [for_each]. unfold bind at 1.
    unfold bind, prisma_field_findUniqueOrThrow, lift, prisma_field_update.
    rewrite Hfind, Hparse.
    cbn [IAddColumnMetaOpContext.viewId IAddColumnMetaOpContext.newMetaValue].
    rewrite (@assign_all _ _ _ newMetaValue _ Hentry Hproto).
    now rewrite (@update_field_map fieldId _ (field d) row Hnd Hfind).
  - apply JSONRoundTrip.parse_stringify. apply JSONFacts.wf_JObj. split.
    + now apply JSONRoundTrip.obj_set_NoDup.
    + apply JSONRoundTrip.obj_set_wf; [exact Hwfviews|].
      apply JSONFacts.wf_JObj. now apply assign_entries_wf.
  - intros k v Hin. unfold leaf. rewrite obj_get_set_same.
    now apply assign_entries_in.
  - intros k Hnin. unfold leaf. rewrite obj_get_set_same, Hentry.
    now apply assign_entries_other.
  - intros other Hne. unfold entry_of. now apply obj_get_set_other.
Qed.

(** X12. On a field whose column parses, [addColumnMeta] with an empty
    [newMetaValue] has no entry to assign: it reads no property of the
    view, so it succeeds and writes the version of the operation even
    when the column has nothing under [viewId].  With one entry or
    more it throws [TypeError] and writes nothing when the column is
    an object that has [null] under [viewId], or nothing (and inherits
    nothing under that name), or a primitive while some key of
    [newMetaValue] is not [__proto__]. *)
Theorem addColumnMeta_missing_view (d : Docs Ext) (version : Z)
  (fieldId viewId : string) (row : FieldRow.t) (columnMeta : json) :
  NoDup (map FieldRow.id (field d)) ->
  find_field fieldId (field d) = Some row ->
  JSON.parse (FieldRow.columnMeta row) = Ok columnMeta ->
  addColumnMeta version fieldId [IAddColumnMetaOpContext.mk viewId []] d
  = (Ok tt,
     mkDocs (with_row fieldId
               (set_columnMeta_version (JSON.stringify columnMeta) version row)
               (field d))
            (view d) (ext d))
  /\ (forall views newMetaValue,
        columnMeta = JObj views ->
        newMetaValue <> [] ->
        match obj_get views viewId with
        | None => inherited_key viewId = false
        | Some JNull => True
        | Some target =>
            is_primitive target = true
            /\ Exists (fun kv => fst kv <> "__proto__") newMetaValue
        end ->
        addColumnMeta version fieldId
          [IAddColumnMetaOpContext.mk viewId newMetaValue] d
        = (Err TypeError, d)).
Proof.
  intros Hnd Hfind Hparse.
  unfold addColumnMeta. cbn [for_each]. unfold bind at 1 3.
  unfold bind, prisma_field_findUniqueOrThrow, lift, prisma_field_update.
  rewrite Hfind, Hparse.
  cbn [IAddColumnMetaOpContext.viewId IAddColumnMetaOpContext.newMetaValue].
  split.
  - cbn [fold_left].
    now rewrite (@update_field_map fieldId _ (field d) row Hnd Hfind).
  - intros views newMetaValue -> Hne Htarget.
    assert (Hfold :
      fold_left
        (fun acc kv =>
           match acc with
           | Ok cm => assign_leaf cm viewId (fst kv) (snd kv)
           | Err e => Err e
           end)
        newMetaValue (Ok (JObj views))
      = Err TypeError).
    { destruct (obj_get views viewId) as [target|] eqn:Hget.
      - destruct (is_primitive target) eqn:Hprim.
        + apply (@assign_primitive _ views newMetaValue viewId target Hget Hprim).
          destruct target; try discriminate Hprim; now destruct Htarget.
        + destruct newMetaValue as [|[k v] rest]; [congruence|].
          assert (Hone : assign_leaf (JObj views) viewId k v = Err TypeError).
          { unfold assign_leaf. rewrite Hget.
            destruct target as [ | | | |items|props];
              solve [reflexivity | discriminate Hprim
                    | destruct Htarget as [Hp _]; discriminate Hp]. }
          cbn [fold_left fst snd]. rewrite Hone. apply assign_none.
      - destruct newMetaValue as [|[k v] rest]; [congruence|].
        assert (Hone : assign_leaf (JObj views) viewId k v = Err TypeError)
          by (unfold assign_leaf; now rewrite Hget, Htarget).
        cbn [fold_left fst snd]. rewrite Hone. apply assign_none. }
    now rewrite Hfold.
Qed.

End FieldAppliers2.

(** ** Operations the adapter cannot save *)

Lemma OpName_eqb_eq (a b : OpName) : OpName_eqb a b = true -> a = b.
Proof.
  destruct a, b; simpl; try discriminate; try reflexivity.
  intros H. apply String.eqb_eq in H. now subst.
Qed.

Lemma add_to_group_keeps (c : OpContext) (groups : list (OpName * list OpContext))
  (n : OpName) :
  (exists g, In g groups /\ fst g = n) ->
  exists g, In g (add_to_group c groups) /\ fst g = n.
Proof.
  induction groups as [|[n' cs] groups IH]; intros [g [Hin Hn]];
    [destruct Hin|].
  cbn [add_to_group]. destruct (OpName_eqb n' (context_name c)).
  - destruct Hin as [<-|Hin].
    + exists (n', cs ++ [c]). split; [now left | exact Hn].
    + exists g. split; [now right | exact Hn].
  - destruct Hin as [<-|Hin].
    + exists (n', cs). split; [now left | exact Hn].
    + destruct IH as [g' [Hin' Hn']]; [now exists g|].
      exists g'. split; [now right | exact Hn'].
Qed.

Lemma add_to_group_adds (c : OpContext) (groups : list (OpName * list OpContext)) :
  exists g, In g (add_to_group c groups) /\ fst g = context_name c.
Proof.
  induction groups as [|[n' cs] groups [g [Hin Hn]]]; cbn [add_to_group].
  - exists (context_name c, [c]). split; [now left | reflexivity].
  - destruct (OpName_eqb n' (context_name c)) eqn:E.
    + exists (n', cs ++ [c]). split; [now left | now apply OpName_eqb_eq].
    + exists g. split; [now right | exact Hn].
Qed.

Lemma groups_keep (contexts : list OpContext)
  (groups : list (OpName * list OpContext)) (n : OpName) :
  (exists g, In g groups /\ fst g = n) ->
  exists g,
    In g (fold_left (fun groups c => add_to_group c groups) contexts groups)
    /\ fst g = n.
Proof.
  revert groups. induction contexts as [|c contexts IH]; intros groups H;
    [exact H|].
  cbn [fold_left]. apply IH. now apply add_to_group_keeps.
Qed.

(** Every context of the operation has its group. *)
Lemma groupBy_has_name (contexts : list OpContext) (c : OpContext) :
  In c contexts ->
  exists g, In g (groupBy contexts) /\ fst g = context_name c.
Proof.
  unfold groupBy. generalize (@nil (OpName * list OpContext)) as groups.
  induction contexts as [|c' contexts IH]; intros groups Hin; [destruct Hin|].
  cbn [fold_left]. destruct Hin as [->|Hin].
  - apply groups_keep. apply add_to_group_adds.
  - now apply IH.
Qed.



Lemma for_each_fails {S A} (xs : list A) (body : A -> M S unit) (x : A) :
  In x xs -> (forall s, exists e, fst (body x s) = Err e) ->
  forall s, exists e, fst (for_each xs body s) = Err e.
Proof.
  intros Hin Hx. induction xs as [|y xs IH]; [destruct Hin|].
  intros s. cbn [for_each]. unfold bind.
  destruct Hin as [->|Hin].
  - destruct (Hx s) as [e He]. destruct (body x s) as [[u|e'] s'].
    + discriminate.
    + now exists e'.
  - destruct (body y s) as [[u|e'] s'].
    + apply (IH Hin).
    + now exists e'.
Qed.

Section UnknownOperations.

Context {Ext : Type} {core : CoreLib} {svc : Services Ext}
        {engine : Engine}.

Lemma updateSnapshot_unknown_op (version : Z) (collection docId : string)
  (ops : list json) (contexts : list OpContext) (name : string) (d : Docs Ext) :
  ops2Contexts ops = Ok contexts -> In (CtxOther name) contexts ->
  exists e, fst (updateSnapshot version collection docId ops d) = Err e.
Proof.
  intros Hctx Hin. unfold updateSnapshot. unfold bind at 1.
  destruct (recordService_getDbTableName collection d) as [[dbTableName|e] d'];
    [|now exists e].
  unfold bind at 1, lift at 1. rewrite Hctx.
  destruct (groupBy_has_name _ _ Hin) as [[n group] [Hg Hn]].
  cbn [fst context_name] in Hn. subst n.
  apply for_each_fails with (x := (OtherOp name, group)); [exact Hg|].
  intros s. cbn [fst]. eexists. reflexivity.
Qed.

(** X13. An operation with a descriptor of a name the adapter has no
    applier for is never committed: whatever the version, the state of
    the store and the other descriptors of the operation, [commit] ends
    in an error and does not report success. *)
Theorem commit_unknown_op (collection id : string) (rawOp : RawOp.t)
  (snapshot : ICollectionSnapshot.t) (ops : list json)
  (contexts : list OpContext) (name : string) (db : Db Ext) :
  RawOp.op rawOp = Some ops ->
  ops2Contexts ops = Ok contexts ->
  In (CtxOther name) contexts ->
  exists e, fst (commit collection id rawOp snapshot db) = Err e.
Proof.
  intros Hop Hctx Hin. unfold commit. unfold bind at 1, gets.
  destruct (negb _); [eexists; reflexivity|].
  unfold bind at 1.
  destruct (prisma_ops_create _ db) as [[u|e] db1]; [|now exists e].
  unfold bind at 1.
  destruct (match RawOp.create rawOp with
            | Some c => on_docs (createSnapshot collection id (snd c))
            | None => ret tt
            end db1) as [[u'|e] db2]; [|now exists e].
  unfold bind at 1. rewrite Hop. unfold on_docs.
  destruct (updateSnapshot_unknown_op (ICollectionSnapshot.v snapshot)
              collection id ops name (docs db2) Hctx Hin) as [e He].
  destruct (updateSnapshot _ _ _ _ (docs db2)) as [[u''|e'] d'].
  - discriminate.
  - now exists e'.
Qed.

End UnknownOperations.

(** ** Reading *)

Lemma slice3_empty (s : string) : slice3 s = EmptyString -> s = EmptyString.
Proof. destruct s; [reflexivity | discriminate]. Qed.

Lemma slice3_append (k r : string) :
  String.length (slice3 k) = 3 -> slice3 (k ++ r) = slice3 k.
Proof.
  unfold slice3.
  destruct k as [|a [|b [|c k']]]; simpl; intros H; try discriminate H.
  destruct (k' ++ r)%string; now destruct k'.
Qed.

Lemma split_key (k v : string) :
  no_underscore k = true ->
  split "_" (k ++ String "_" v) = k :: split "_" v.
Proof.
  induction k as [|c k IH]; simpl; [reflexivity|].
  intros H. apply andb_true_iff in H. destruct H as [Hc Hk].
  apply negb_true_iff in Hc. rewrite Hc, (IH Hk). reflexivity.
Qed.

Lemma split_head (v : string) :
  exists rest, split "_" v = before_underscore v :: rest.
Proof.
  induction v as [|c v [rest IH]]; simpl.
  - now exists [].
  - destruct (Ascii.eqb c "_"); [now eexists|].
    rewrite IH. now eexists.
Qed.

Lemma before_underscore_id (v : string) :
  no_underscore v = true -> before_underscore v = v.
Proof.
  induction v as [|c v IH]; simpl; [reflexivity|].
  intros H. apply andb_true_iff in H. destruct H as [Hc Hv].
  apply negb_true_iff in Hc. now rewrite Hc, (IH Hv).
Qed.

Lemma add_SetFieldName (acc : list OpContext)
  (cs : list ISetFieldNameOpContext.t) :
  fold_left (fun groups c => add_to_group c groups)
    (map CtxSetFieldName cs) [(SetFieldName, acc)]
  = [(SetFieldName, acc ++ map CtxSetFieldName cs)].
Proof.
  revert acc. induction cs as [|c cs IH]; intros acc; cbn [map fold_left].
  - now rewrite app_nil_r.
  - cbn [add_to_group context_name OpName_eqb].
    rewrite IH, <- app_assoc. reflexivity.
Qed.

Lemma groupBy_SetFieldName (c : ISetFieldNameOpContext.t)
  (cs : list ISetFieldNameOpContext.t) :
  groupBy (map CtxSetFieldName (c :: cs))
  = [(SetFieldName, map CtxSetFieldName (c :: cs))].
Proof.
  unfold groupBy. cbn [map fold_left add_to_group context_name].
  now rewrite add_SetFieldName.
Qed.

Lemma filter_map_SetFieldName (cs : list ISetFieldNameOpContext.t) :
  filter_map as_SetFieldName (map CtxSetFieldName cs) = cs.
Proof. induction cs as [|c cs IH]; simpl; [reflexivity | now rewrite IH]. Qed.

Section ReadProperties.

Context {Ext : Type} {core : CoreLib} {svc : Services Ext}
        {qsvc : QueryServices Ext} {engine : Engine}.

(** X14. A read that succeeds is never empty: [getSnapshotBulk] answers
    with one snapshot at least, so the [data![0]] of [getSnapshot] is
    never [undefined]. *)
Theorem getSnapshot_defined (db : Db Ext) (collection : string)
  (projection : option IProjection) :
  (forall ids snapshots,
      getSnapshotBulk db collection ids projection = Ok snapshots ->
      snapshots <> [])
  /\ (forall id r,
        getSnapshot db collection id projection = Ok r ->
        exists snapshot, r = Some snapshot).
Proof.
  assert (Hbulk : forall ids snapshots,
             getSnapshotBulk db collection ids projection = Ok snapshots ->
             snapshots <> []).
  { intros ids snapshots. unfold getSnapshotBulk.
    destruct ids as [|id0 rest]; [discriminate|].
    destruct (other_type_found _ _); [discriminate|].
    match goal with
    | |- context [match ?x with Err _ => _ | Ok _ => _ end] =>
        destruct x as [data|e]; [|discriminate]
    end.
    intros [= <-]. destruct data; discriminate. }
  split; [exact Hbulk|].
  intros id r. unfold getSnapshot.
  destruct (getSnapshotBulk db collection [id] projection) as [data|e] eqn:E;
    [|discriminate].
  intros [= <-]. apply Hbulk in E.
  destruct data as [|s data]; [congruence | now exists s].
Qed.

(** X15. The check of the family of a batch: when no id is the empty
    string, a batch with an id whose prefix differs from the prefix of
    the first id is refused.  An empty id switches the check off: it is
    the id [find] returns, it is falsy, and whatever follows it is not
    looked at. *)
Theorem getSnapshotBulk_same_type_check (db : Db Ext) (collection id0 : string)
  (rest : list string) (projection : option IProjection) :
  (Forall (fun id => id <> EmptyString) rest ->
   Exists (fun id => slice3 id <> slice3 id0) rest ->
   getSnapshotBulk db collection (id0 :: rest) projection
   = Err (Error "get snapshot bulk ids must be same type"))
  /\ (forall same later,
        id0 <> EmptyString ->
        Forall (fun id => slice3 id = slice3 id0) same ->
        other_type_found (slice3 id0) (id0 :: same ++ EmptyString :: later)
        = false).
Proof.
  split.
  - intros Hne Hex. unfold getSnapshotBulk.
    assert (H : other_type_found (slice3 id0) (id0 :: rest) = true).
    { unfold other_type_found. cbn [find]. rewrite String.eqb_refl. cbn [negb].
      induction Hex as [id rest Hid|id rest Hex IH].
      - cbn [find]. rewrite (proj2 (String.eqb_neq _ _) Hid). cbn [negb].
        inversion Hne as [|? ? H0 _]; subst.
        now rewrite (proj2 (String.eqb_neq _ _) H0).
      - inversion Hne as [|? ? H0 Hne']; subst. cbn [find].
        destruct (String.eqb (slice3 id) (slice3 id0)); cbn [negb].
        + exact (IH Hne').
        + now rewrite (proj2 (String.eqb_neq _ _) H0). }
    now rewrite H.
  - intros same later Hid0 Hsame. unfold other_type_found.
    cbn [find]. rewrite String.eqb_refl. cbn [negb].
    induction Hsame as [|id same Hid _ IH]; cbn [app find].
    + assert (H : String.eqb (slice3 EmptyString) (slice3 id0) = false).
      { apply String.eqb_neq. intros H. symmetry in H.
        now apply slice3_empty in H. }
      now rewrite H.
    + rewrite Hid, String.eqb_refl. exact IH.
Qed.

Lemma aggregate_result_Ok (d : Docs Ext) (collection id : string) (n : Z) :
  aggregate_result d collection id = Ok n
  <-> aggregateKey_of id = AggregateKey_RowCount
      /\ recordService_getRowCount d collection (viewId_of id) = Ok n.
Proof.
  unfold aggregate_result. fold (aggregateKey_of id). fold (viewId_of id).
  destruct (String.eqb_spec (aggregateKey_of id) AggregateKey_RowCount) as [H|H].
  - tauto.
  - destruct (String.eqb _ AggregateKey_Average);
      (split; [discriminate | tauto]).
Qed.

(** X16. Aggregates are answered id by id: [getAggregateBulk] succeeds
    exactly when every id has the key [RowCount] and the record service
    counts the rows of its view, and then the answer has one snapshot
    per id, in the order of the ids, with the id, the version 1 and the
    count. *)
Theorem getAggregateBulk_aligned (d : Docs Ext) (collection : string)
  (ids : list string) (snapshots : list ISnapshotBase.t) :
  getAggregateBulk d collection ids = Ok snapshots
  <-> Forall2
        (fun id s =>
           aggregateKey_of id = AggregateKey_RowCount
           /\ exists n,
               recordService_getRowCount d collection (viewId_of id) = Ok n
               /\ s = ISnapshotBase.mk id 1 "json0" (AggregateData n))
        ids snapshots.
Proof.
  unfold getAggregateBulk. revert snapshots.
  induction ids as [|id ids IH]; intros snapshots; cbn [map_result].
  - cbn [combine map]. split.
    + intros [= <-]. constructor.
    + intros H. now inversion H.
  - destruct (aggregate_result d collection id) as [n|e] eqn:En.
    + apply aggregate_result_Ok in En. destruct En as [Hk Hn].
      destruct (map_result (aggregate_result d collection) ids)
        as [results|e] eqn:Er.
      * cbn [combine map fst snd]. split.
        -- intros [= <-]. constructor.
           ++ split; [exact Hk|]. now exists n.
           ++ now apply IH.
        -- intros H. inversion H as [|? s ? rest [_ [n' [Hn' Hs]]] Hrest]; subst.
           apply IH in Hrest. injection Hrest as <-.
           rewrite Hn in Hn'. now injection Hn' as <-.
      * split; [discriminate|].
        intros H. inversion H as [|? s ? rest _ Hrest]; subst.
        apply IH in Hrest. discriminate.
    + split; [discriminate|].
      intros H. inversion H as [|? s ? rest [Hk [n [Hn _]]] _]; subst.
      assert (Hok : aggregate_result d collection id = Ok n)
        by (apply aggregate_result_Ok; tauto).
      congruence.
Qed.

(** X17. A query for the row count of a view is answered by the record
    service: the id [getAggregateIds] makes of the key and the view id
    is taken apart again by [getAggregateBulk].  The view id that
    reaches the service is the part of the queried one before its first
    underscore, which is all of it when it has none. *)
Theorem query_row_count (db : Db Ext) (collection : string)
  (q : ISnapshotQuery.t) (viewId : string) (projection : option IProjection) :
  ISnapshotQuery.type q = SnapshotQueryType.Aggregate ->
  ISnapshotQuery.aggregateKey q = AggregateKey_RowCount ->
  ISnapshotQuery.viewId q = Some viewId ->
  viewId <> EmptyString ->
  no_underscore AggregateKey_RowCount = true ->
  slice3 AggregateKey_RowCount = IdPrefix_Aggregate ->
  String.length IdPrefix_Aggregate = 3 ->
  IdPrefix_Aggregate <> IdPrefix_Record ->
  IdPrefix_Aggregate <> IdPrefix_Field ->
  IdPrefix_Aggregate <> IdPrefix_View ->
  query db collection q projection
  = Some match recordService_getRowCount (docs db) collection
                 (Some (before_underscore viewId)) with
         | Ok n =>
             Ok [Snapshot.mk (AggregateKey_RowCount ++ "_" ++ viewId)%string 1
                   (Some "json0") (Some (AggregateData n)) None]
         | Err e => Err e
         end
  /\ (no_underscore viewId = true -> before_underscore viewId = viewId).
Proof.
  intros Htype Hkey Hview Hne Hclean Hprefix Hlen Hr Hf Hv.
  split; [|apply before_underscore_id].
  unfold query, queryPoll. rewrite Htype.
  unfold getAggregateIds. rewrite Hview, Hkey.
  rewrite (proj2 (String.eqb_neq _ _) Hne).
  set (id := (AggregateKey_RowCount ++ "_" ++ viewId)%string).
  assert (Hid : slice3 id = IdPrefix_Aggregate).
  { unfold id. rewrite slice3_append; [exact Hprefix|].
    now rewrite Hprefix. }
  rewrite (getSnapshotBulk_aggregate db collection id projection Hid Hr Hf Hv).
  unfold getAggregateBulk. cbn [map_result].
  unfold aggregate_result.
  change (split "_" id)
    with (split "_" (AggregateKey_RowCount ++ String "_" viewId)).
  rewrite (@split_key _ viewId Hclean). cbn [nth].
  rewrite String.eqb_refl.
  destruct (split_head viewId) as [rest Hsplit]. rewrite Hsplit.
  cbn [nth_error].
  destruct (recordService_getRowCount (docs db) collection
              (Some (before_underscore viewId))) as [n|e]; reflexivity.
Qed.

(** X18. Two queries that get no snapshots: a query of a type that is
    none of the four is never answered, because [queryPoll] returns
    without calling back; a query that resolves to no id, as on a table
    without rows, is answered with the [TypeError] of the empty batch
    and not with an empty result. *)
Theorem query_without_ids (db : Db Ext) (collection : string)
  (q : ISnapshotQuery.t) (projection : option IProjection) :
  (forall name,
      ISnapshotQuery.type q = SnapshotQueryType.Other name ->
      query db collection q projection = None)
  /\ (queryPoll db collection q = Some (Ok []) ->
      query db collection q projection = Some (Err TypeError)).
Proof.
  split.
  - intros name Htype. unfold query, queryPoll. now rewrite Htype.
  - intros Hpoll. unfold query. now rewrite Hpoll.
Qed.

(** X19. One field row whose [columnMeta] is not JSON makes every batch
    that selects it fail: no read returns the other fields of the batch
    without it. *)
Theorem getFieldSnapshotBulk_corrupt_row (d : Docs Ext) (collection : string)
  (ids : list string) (row : FieldRow.t) (e : error) :
  In row (field d) ->
  FieldRow.tableId row = collection ->
  In (FieldRow.id row) ids ->
  JSON.parse (FieldRow.columnMeta row) = Err e ->
  exists e', getFieldSnapshotBulk d collection ids = Err e'.
Proof.
  intros Hin Htable Hid Hparse.
  assert (Hsel : In row (prisma_field_findMany collection ids (field d))).
  { unfold prisma_field_findMany. apply filter_In. split; [exact Hin|].
    rewrite Htable, String.eqb_refl. cbn [andb].
    apply existsb_exists. exists (FieldRow.id row).
    split; [exact Hid | apply String.eqb_refl]. }
  unfold getFieldSnapshotBulk.
  set (fields := prisma_field_findMany collection ids (field d)) in *.
  pose proof (fun snaps => proj1 (field_passes_Ok fields snaps)) as Hpass.
  destruct (map_result createFieldInstanceByRaw fields) as [instances|e1];
    [|now exists e1].
  destruct (map_result _ (combine fields instances)) as [snaps|e2];
    [|now exists e2].
  exfalso. specialize (Hpass snaps eq_refl).
  clear - Hpass Hsel Hparse.
  induction Hpass as [|r s fields snaps [instance [_ Hs]] _ IH];
    [destruct Hsel|].
  destruct Hsel as [->|Hsel]; [|exact (IH Hsel)].
  unfold field_snapshot in Hs. rewrite Hparse in Hs. discriminate.
Qed.

End ReadProperties.

Section TableIsolation.

Context {Ext : Type} {core : CoreLib} {svc : Services Ext}
        {engine : Engine}.

(** X22. A table answers for its own documents only: the snapshot of a
    field id, or of a view id, that no row of the table [collection]
    has, whether no row has it at all or a row of another table, is the
    placeholder of a document that was never created, with version 0
    and no data. *)
Theorem getSnapshot_not_in_table (db : Db Ext) (collection id : string)
  (projection : option IProjection) :
  (slice3 id = IdPrefix_Field ->
   IdPrefix_Field <> IdPrefix_Record ->
   (forall r, In r (field (docs db)) -> FieldRow.id r = id ->
              FieldRow.tableId r <> collection) ->
   getSnapshot db collection id projection = Ok (Some (placeholder id)))
  /\ (slice3 id = IdPrefix_View ->
      IdPrefix_View <> IdPrefix_Record ->
      IdPrefix_View <> IdPrefix_Field ->
      (forall r, In r (view (docs db)) -> ViewRow.id r = id ->
                 ViewRow.tableId r <> collection) ->
      getSnapshot db collection id projection = Ok (Some (placeholder id))).
Proof.
  split.
  - intros Hprefix Hrec Hrows. unfold getSnapshot, getSnapshotBulk.
    rewrite same_type_not_found by (repeat constructor).
    rewrite Hprefix, (proj2 (String.eqb_neq _ _) Hrec), String.eqb_refl.
    unfold getFieldSnapshotBulk, prisma_field_findMany.
    rewrite filter_nothing; [reflexivity|].
    intros r Hin. cbn [existsb]. rewrite orb_false_r.
    destruct (String.eqb_spec (FieldRow.id r) id) as [Hid|_];
      [|apply andb_false_r].
    now rewrite (proj2 (String.eqb_neq _ _) (Hrows r Hin Hid)).
  - intros Hprefix Hrec Hfld Hrows. unfold getSnapshot, getSnapshotBulk.
    rewrite same_type_not_found by (repeat constructor).
    rewrite Hprefix, (proj2 (String.eqb_neq _ _) Hrec),
      (proj2 (String.eqb_neq _ _) Hfld), String.eqb_refl.
    unfold getViewSnapshotBulk, prisma_view_findMany.
    rewrite filter_nothing; [reflexivity|].
    intros r Hin. cbn [existsb]. rewrite orb_false_r.
    destruct (String.eqb_spec (ViewRow.id r) id) as [Hid|_];
      [|apply andb_false_r].
    now rewrite (proj2 (String.eqb_neq _ _) (Hrows r Hin Hid)).
Qed.

End TableIsolation.

(** ** From [commit] to the next read *)

Section CommitThenRead.

Context {Ext : Type} {core : CoreLib} {svc : Services Ext}
        {engine : Engine}.

(** A commit at the expected version: the row is logged, then the
    appliers run on the document tables. *)
Lemma commit_accepted (collection id : string) (rawOp : RawOp.t)
  (snapshot : ICollectionSnapshot.t) (db : Db Ext) :
  ICollectionSnapshot.v snapshot
  = (match ops_max_version collection id (ops db) with
     | Some m => m
     | None => 0
     end + 1)%Z ->
  commit collection id rawOp snapshot db
  = (match RawOp.create rawOp with
     | Some c => on_docs (createSnapshot collection id (snd c))
     | None => ret tt
     end ;;;
     match RawOp.op rawOp with
     | Some o =>
         on_docs (updateSnapshot (ICollectionSnapshot.v snapshot) collection id o)
     | None => ret tt
     end ;;;
     ret true)
      (mkDb (ops db ++ [OpsRow.mk collection id (ICollectionSnapshot.v snapshot)
                          (JSON.stringify (RawOp.to_json rawOp))])
            (docs db)).
Proof.
  intros Hv. unfold commit. unfold bind at 1. unfold gets. rewrite or_zero_id.
  rewrite (proj2 (Z.eqb_eq _ _) Hv); cbn [negb].
  unfold bind at 1, prisma_ops_create.
  set (text := JSON.stringify (RawOp.to_json rawOp)).
  pose proof (next_version_is_fresh collection id text (ops db)) as Hfresh.
  rewrite or_zero_id, <- Hv in Hfresh; rewrite Hfresh.
  reflexivity.
Qed.

(** X20. The log and the document agree after a rename: an edit of a
    field whose descriptors are all [setFieldName], committed at the
    expected version, is logged at that version, and the snapshot of
    the field read next has that version too, with the field as the
    factory builds it from the renamed row. *)
Theorem commit_rename_then_getSnapshot (collection id : string)
  (rawOp : RawOp.t) (snapshot : ICollectionSnapshot.t) (db : Db Ext)
  (descriptors : list json) (context : ISetFieldNameOpContext.t)
  (contexts : list ISetFieldNameOpContext.t)
  (row : FieldRow.t) (dbTableName : string) (instance columnMeta : json)
  (projection : option IProjection) :
  let v := ICollectionSnapshot.v snapshot in
  let row' :=
    set_name_version
      (ISetFieldNameOpContext.newName
         (last (context :: contexts) (ISetFieldNameOpContext.mk EmptyString)))
      v row in
  v = (match ops_max_version collection id (ops db) with
       | Some m => m
       | None => 0
       end + 1)%Z ->
  RawOp.create rawOp = None ->
  RawOp.op rawOp = Some descriptors ->
  ops2Contexts descriptors = Ok (map CtxSetFieldName (context :: contexts)) ->
  recordService_getDbTableName collection (docs db) = (Ok dbTableName, docs db) ->
  NoDup (map FieldRow.id (field (docs db))) ->
  find_field id (field (docs db)) = Some row ->
  FieldRow.tableId row = collection ->
  slice3 id = IdPrefix_Field ->
  IdPrefix_Field <> IdPrefix_Record ->
  createFieldInstanceByRaw row' = Ok instance ->
  JSON.parse (FieldRow.columnMeta row) = Ok columnMeta ->
  let db' := snd (commit collection id rawOp snapshot db) in
  fst (commit collection id rawOp snapshot db) = Ok true
  /\ ops_max_version collection id (ops db') = Some v
  /\ getSnapshot db' collection id projection
     = Ok (Some (Snapshot.mk id v (Some "json0")
                   (Some (FieldData instance columnMeta)) None)).
Proof.
  intros v row' Hv Hcreate Hop Hctx Hname Hnd Hfind Htable Hprefix Hrec
         Hinstance Hparse.
  destruct (@find_field_id _ _ _ Hfind) as [Hid Hin].
  assert (Hcommit :
    commit collection id rawOp snapshot db
    = (Ok true,
       mkDb (ops db
             ++ [OpsRow.mk collection id v (JSON.stringify (RawOp.to_json rawOp))])
            (mkDocs (with_row id row' (field (docs db)))
                    (view (docs db)) (ext (docs db))))).
  { rewrite (@commit_accepted collection id rawOp snapshot db Hv).
    rewrite Hcreate, Hop. unfold bind at 1. unfold ret at 1.
    unfold bind at 1. unfold on_docs. cbn [docs ops].
    unfold updateSnapshot. unfold bind at 1. rewrite Hname.
    unfold bind at 1, lift at 1. rewrite Hctx.
    rewrite groupBy_SetFieldName. cbn [for_each fst snd].
    unfold bind at 1. rewrite filter_map_SetFieldName.
    rewrite (@setFieldName_found Ext (ICollectionSnapshot.v snapshot) id
               (context :: contexts) ltac:(discriminate) (docs db) row Hnd Hfind).
    reflexivity. }
  intros db'. unfold db'. rewrite Hcommit. cbn [fst snd ops].
  split; [reflexivity|]. split.
  - rewrite ops_max_version_app.
    cbn [OpsRow.collection OpsRow.docId OpsRow.version].
    rewrite !String.eqb_refl. cbn [andb].
    destruct (ops_max_version collection id (ops db)) as [m|];
      [f_equal; lia | reflexivity].
  - unfold getSnapshot, getSnapshotBulk.
    rewrite same_type_not_found by (repeat constructor).
    rewrite Hprefix.
    rewrite (proj2 (String.eqb_neq _ _) Hrec), String.eqb_refl.
    unfold getFieldSnapshotBulk. cbn [docs field].
    unfold with_row. rewrite findMany_one.
    + cbn [map_result]. rewrite Hinstance. cbn [combine map_result fst snd].
      unfold field_snapshot.
      change (FieldRow.columnMeta row') with (FieldRow.columnMeta row).
      rewrite Hparse.
      change (FieldRow.id row') with (FieldRow.id row). rewrite Hid.
      reflexivity.
    + exact Hnd.
    + rewrite <- Hid. now apply in_map.
    + exact Hid.
    + exact Htable.
Qed.

(** X21. [skipPoll] is sound for the document tables: an op it lets the
    queries skip, committed at the expected version, is logged and
    changes no document, whatever the services are. *)
Theorem skipPoll_sound (collection id : string) (rawOp : RawOp.t)
  (snapshot : ICollectionSnapshot.t) (db : Db Ext) :
  skipPoll collection id rawOp = true ->
  ICollectionSnapshot.v snapshot
  = (match ops_max_version collection id (ops db) with
     | Some m => m
     | None => 0
     end + 1)%Z ->
  fst (commit collection id rawOp snapshot db) = Ok true
  /\ docs (snd (commit collection id rawOp snapshot db)) = docs db.
Proof.
  intros Hskip Hv. rewrite (@commit_accepted collection id rawOp snapshot db Hv).
  unfold skipPoll in Hskip.
  destruct (RawOp.create rawOp); [discriminate|].
  destruct (RawOp.op rawOp);
    [destruct (RawOp.del rawOp) as [[|]|]; discriminate|].
  split; reflexivity.
Qed.

End CommitThenRead.

(** ** The further properties on concrete data *)

Lemma example_log_gapless : gapless example_log.
Proof.
  intros collection id. unfold doc_versions, example_log.
  cbn [filter OpsRow.collection OpsRow.docId].
  destruct (String.eqb "tblA" collection && String.eqb "fldA" id); reflexivity.
Qed.

Lemma example_fields_NoDup :
  NoDup (map FieldRow.id (field (docs example_db))).
Proof.
  repeat constructor; simpl; intuition discriminate.
Qed.

Lemma commit_keeps_gapless_witness :
  gapless
    (ops (snd (commit (core:=sample_core) (svc:=sample_services)
    (engine:=sample_engine)
                 "tblA" "fldA" sample_edit_op (example_snapshot 3)
                 example_logged_db))).
Proof. apply commit_keeps_gapless. exact example_log_gapless. Defined.

Lemma commit_replay_refused_witness :
  let db' :=
    snd (commit (core:=sample_core) (svc:=sample_services)
    (engine:=sample_engine)
           "tblA" "fldA" sample_create_op (example_snapshot 1) example_db) in
  commit (core:=sample_core) (svc:=sample_services)
    (engine:=sample_engine)
    "tblA" "fldA" sample_delete_op (example_snapshot 1) db'
  = (Err (version_mismatch 1 1), db').
Proof.
  apply (@commit_replay_refused unit sample_core sample_services sample_engine
           "tblA" "fldA" sample_create_op sample_delete_op
           (example_snapshot 1) (example_snapshot 1) example_db);
    reflexivity.
Defined.

Lemma commit_other_documents_witness :
  ops_max_version "tblA" "fldB"
    (ops (snd (commit (core:=sample_core) (svc:=sample_services)
    (engine:=sample_engine)
                 "tblA" "fldA" sample_create_op (example_snapshot 1)
                 example_db)))
  = ops_max_version "tblA" "fldB" (ops example_db).
Proof.
  apply (@commit_other_documents unit sample_core sample_services sample_engine
           "tblA" "fldA" "tblA" "fldB" sample_create_op (example_snapshot 1)
           example_db).
  discriminate.
Defined.

Lemma commit_delete_only_logs_witness :
  commit (core:=sample_core) (svc:=sample_services)
    (engine:=sample_engine)
    "tblA" "fldA" sample_delete_op (example_snapshot 3) example_logged_db
  = (Ok true,
     mkDb (example_log
           ++ [OpsRow.mk "tblA" "fldA" 3
                 (JSON.stringify (RawOp.to_json sample_delete_op))])
          (docs example_db)).
Proof.
  apply (@commit_delete_only_logs unit sample_core sample_services sample_engine
           "tblA" "fldA" sample_delete_op (example_snapshot 3)
           example_logged_db);
    reflexivity.
Defined.

Lemma commit_getOps_round_trip_witness :
  getOps
    (snd (commit (core:=sample_core) (svc:=sample_services)
    (engine:=sample_engine)
            "tblA" "fldA" sample_create_op (example_snapshot 1) example_db))
    "tblA" "fldA" 1 (Some 2%Z)
  = Ok [RawOp.to_json sample_create_op].
Proof.
  apply (@commit_getOps_round_trip unit sample_core sample_services sample_engine
           "tblA" "fldA" sample_create_op (example_snapshot 1) example_db).
  - unfold RawOp_wf; simpl; repeat split; constructor.
  - reflexivity.
Defined.

Lemma getOps_count_witness :
  exists operations,
    getOps example_logged_db "tblA" "fldA" 1 (Some 3%Z) = Ok operations
    /\ Z.of_nat (length operations) = (3 - 1)%Z.
Proof.
  apply getOps_count.
  - exact example_log_gapless.
  - repeat constructor; eexists; vm_compute; reflexivity.
  - lia.
  - vm_compute. discriminate.
Defined.

Lemma setColumnMeta_last_writer_witness :
  setColumnMeta (engine:=sample_engine) 2 "fldB"
    [ISetColumnMetaOpContext.mk "width" "viw1" (JNum "120");
     ISetColumnMetaOpContext.mk "width" "viw1" (JNum "150")]
    (docs example_db)
  = setColumnMeta (engine:=sample_engine) 2 "fldB"
      [ISetColumnMetaOpContext.mk "width" "viw1" (JNum "150")]
      (docs example_db).
Proof.
  apply (@setColumnMeta_last_writer unit sample_engine (docs example_db) 2 "fldB" "width"
           "viw1" (JNum "120") (JNum "150")
           (sample_field "fldB" (JSON.stringify example_columnMeta))
           example_columnMeta
           [("width", JNum "100"); ("hidden", JBool false)]).
  - exact example_fields_NoDup.
  - reflexivity.
  - vm_compute; reflexivity.
  - reflexivity.
  - reflexivity.
Defined.

Lemma setFieldName_last_name_witness :
  setFieldName 2 "fldA"
    [ISetFieldNameOpContext.mk "Draft"; ISetFieldNameOpContext.mk "Title"]
    (docs example_db)
  = (Ok tt,
     mkDocs
       (with_row "fldA"
          (set_name_version "Title" 2
             (sample_field "fldA" (JSON.stringify (JObj []))))
          (field (docs example_db)))
       (view (docs example_db)) (ext (docs example_db))).
Proof.
  apply (proj2 (@setFieldName_last_name unit (docs example_db) 2 "fldA"
                  [ISetFieldNameOpContext.mk "Draft";
                   ISetFieldNameOpContext.mk "Title"]
                  ltac:(discriminate))).
  - exact example_fields_NoDup.
  - reflexivity.
Defined.

Lemma addColumnMeta_merges_witness :
  exists columnMeta',
    leaf columnMeta' "viw1" "width" = Some (JNum "120")
    /\ leaf columnMeta' "viw1" "hidden" = Some (JBool false)
    /\ leaf columnMeta' "viw1" "order" = Some (JNum "3").
Proof.
  destruct (@addColumnMeta_merges unit sample_engine (docs example_db) 2 "fldB" "viw1"
              [("width", JNum "120"); ("order", JNum "3")]
              (sample_field "fldB" (JSON.stringify example_columnMeta))
              example_columnMeta
              [("width", JNum "100"); ("hidden", JBool false)])
    as [columnMeta' [_ [_ [Hset [Hkeep _]]]]].
  - exact example_fields_NoDup.
  - reflexivity.
  - vm_compute; reflexivity.
  - reflexivity.
  - repeat constructor; simpl; intuition discriminate.
  - simpl; intuition discriminate.
  - repeat constructor.
  - exists columnMeta'. split; [apply Hset; simpl; tauto|].
    split; [|apply Hset; simpl; tauto].
    rewrite Hkeep; [reflexivity|]. simpl. intuition discriminate.
Defined.

Lemma addColumnMeta_missing_view_witness :
  addColumnMeta (engine:=sample_engine) 2 "fldB"
    [IAddColumnMetaOpContext.mk "viw9" [("width", JNum "120")]]
    (docs example_db)
  = (Err TypeError, docs example_db).
Proof.
  apply (proj2 (@addColumnMeta_missing_view unit sample_engine
                  (docs example_db) 2 "fldB" "viw9"
                  (sample_field "fldB" (JSON.stringify example_columnMeta))
                  example_columnMeta example_fields_NoDup eq_refl eq_refl)
           [("viw1", JObj [("width", JNum "100"); ("hidden", JBool false)]);
            ("viw2", JObj [("width", JNum "80")])]).
  - reflexivity.
  - discriminate.
  - reflexivity.
Defined.

Lemma commit_unknown_op_witness :
  exists e,
    fst (commit (core:=renaming_core) (svc:=sample_services)
    (engine:=sample_engine)
           "tblA" "fldA" sample_unknown_op (example_snapshot 1) example_db)
    = Err e.
Proof.
  apply (@commit_unknown_op unit renaming_core sample_services sample_engine
           "tblA" "fldA" sample_unknown_op (example_snapshot 1)
           [JNull] [CtxOther "unknown"] "unknown" example_db).
  - reflexivity.
  - reflexivity.
  - now left.
Defined.

Lemma query_row_count_witness :
  query (core:=sample_core) (svc:=sample_services)
    (qsvc:=sample_query_services) example_db "tblA"
    example_row_count_query None
  = Some (Ok [Snapshot.mk "aggRowCount_viw1" 1 (Some "json0")
                (Some (AggregateData 7)) None]).
Proof.
  apply (proj1 (@query_row_count unit sample_core sample_services
                  sample_query_services example_db "tblA"
                  example_row_count_query "viw1" None
                  eq_refl eq_refl eq_refl ltac:(discriminate) eq_refl eq_refl
                  eq_refl ltac:(discriminate) ltac:(discriminate)
                  ltac:(discriminate))).
Defined.

Lemma getFieldSnapshotBulk_corrupt_row_witness :
  exists e,
    getFieldSnapshotBulk (core:=sample_core) (docs example_corrupt_db) "tblA"
      ["fldA"; "fldC"]
    = Err e.
Proof.
  apply (@getFieldSnapshotBulk_corrupt_row unit sample_core
           (docs example_corrupt_db) "tblA" ["fldA"; "fldC"]
           (sample_field "fldC" "{") SyntaxError).
  - right; now left.
  - reflexivity.
  - right; now left.
  - vm_compute; reflexivity.
Defined.

Lemma commit_rename_then_getSnapshot_witness :
  getSnapshot (core:=renaming_core) (svc:=sample_services)
    (snd (commit (core:=renaming_core) (svc:=sample_services)
    (engine:=sample_engine)
            "tblA" "fldA" sample_rename_op (example_snapshot 1) example_db))
    "tblA" "fldA" None
  = Ok (Some (Snapshot.mk "fldA" 1 (Some "json0")
                (Some (FieldData
                         (JObj [("id", JStr "fldA"); ("name", JStr "Title")])
                         (JObj [])))
                None)).
Proof.
  apply (@commit_rename_then_getSnapshot unit renaming_core sample_services sample_engine
           "tblA" "fldA" sample_rename_op (example_snapshot 1) example_db
           [JObj [("newName", JStr "Title")]]
           (ISetFieldNameOpContext.mk "Title") []
           (sample_field "fldA" (JSON.stringify (JObj []))) "tblA"
           (JObj [("id", JStr "fldA"); ("name", JStr "Title")]) (JObj []) None);
    try reflexivity.
  - exact example_fields_NoDup.
  - discriminate.
Defined.

Lemma skipPoll_sound_witness :
  fst (commit (core:=sample_core) (svc:=sample_services)
    (engine:=sample_engine)
         "tblA" "fldA" sample_noop (example_snapshot 1) example_db)
  = Ok true
  /\ docs (snd (commit (core:=sample_core) (svc:=sample_services)
    (engine:=sample_engine)
                  "tblA" "fldA" sample_noop (example_snapshot 1) example_db))
     = docs example_db.
Proof.
  apply (@skipPoll_sound unit sample_core sample_services sample_engine
           "tblA" "fldA" sample_noop (example_snapshot 1) example_db);
    reflexivity.
Defined.
